(** * Realtime_Translator: the audio-to-translation pipeline of [app.py]

    A shallow embedding of the Flask application: its module-level state,
    the pipeline functions ([validate_wav_file], [upload_to_s3],
    [transcribe_audio], [correct_and_translate],
    [translate_to_target_language], [text_to_speech], [process_audio]) and
    the request handlers that call them.

    Conventions of the embedding.
    - A Python [str] is a list of code points ([N]); a [bytes] object is a
      list of [byte].
    - Values whose Python type is not fixed by the code (decoded JSON, the
      results of functions that return "text or None") are [pyval]s.
    - The module globals, the files the program writes and the sequence of
      calls made so far form the [State], threaded by the monad [M].  A
      Python exception is the outcome [Raise]; [try_except] is the
      [try: ... except Exception] block.
    - The cloud services, the UUID generator and the request parser are
      answers of a [World]: every consultation advances [tick], and the
      answer may depend on it.
    - [while True] in [transcribe_audio] is a loop with fuel; [Timeout] is
      the outcome of a run whose fuel ran out while the job was still in a
      non-terminal state.
    - [while is_recording] in [start_recording] is a loop with fuel as
      well; PyAudio, and the moment at which another request clears the
      flag, are answers of a [Microphone].
    - Calls to [logger] are not part of the model. *)

From Stdlib Require Import ZArith NArith Lia.
From Stdlib Require Import Strings.String Strings.Ascii Strings.Byte.
From stdpp Require Import base option list gmap.

Set Warnings "-register-all".

Local Open Scope Z_scope.

(** ** Python strings *)

Module Str.

Abbreviation str := (list N).

(** A string literal of the source, as code points. *)
Definition lit (s : string) : str :=
  N_of_ascii <$> list_ascii_of_string s.
Arguments lit : simpl never.

(** [str.isspace] on one character: CPython's [_PyUnicode_IsWhitespace]. *)
Definition is_space (c : N) : bool :=
  ((9 <=? c) && (c <=? 13) || (28 <=? c) && (c <=? 32)
   || (c =? 133) || (c =? 160) || (c =? 5760)
   || (8192 <=? c) && (c <=? 8202) || (c =? 8232) || (c =? 8233)
   || (c =? 8239) || (c =? 8287) || (c =? 12288))%N.

Fixpoint lstrip (s : str) : str :=
  match s with
  | c :: s' => if is_space c then lstrip s' else s
  | [] => []
  end.

Definition rstrip (s : str) : str := reverse (lstrip (reverse s)).

(** [s.strip()] *)
Definition strip (s : str) : str := rstrip (lstrip s).

Definition eqb (s t : str) : bool := bool_decide (s = t).

(** [s.startswith(p)] *)
Fixpoint startswith (p s : str) : bool :=
  match p, s with
  | [], _ => true
  | a :: p', b :: s' => (a =? b)%N && startswith p' s'
  | _ :: _, [] => false
  end.

(** [p in s] for two strings: [p] occurs as a substring of [s]. *)
Fixpoint contains (p s : str) : bool :=
  startswith p s ||
  match s with
  | [] => false
  | _ :: s' => contains p s'
  end.

(** [os.path.join(a, b)] on POSIX, for two components. *)
Definition path_join (a b : str) : str :=
  if startswith (lit "/") b then b
  else if bool_decide (a = []) || bool_decide (last a = Some 47%N) then a ++ b
  else a ++ lit "/" ++ b.

End Str.
Import Str.

(** ** Python values *)

Inductive pyval :=
| PNone
| PBool (b : bool)
| PInt (z : Z)
| PStr (s : str)
| PList (l : list pyval)
| PDict (d : list (str * pyval)).

(** Truth value of an object, as tested by [if v:] and [not v]. *)
Definition truthy (v : pyval) : bool :=
  match v with
  | PNone => false
  | PBool b => b
  | PInt z => negb (z =? 0)
  | PStr s => negb (bool_decide (s = []))
  | PList l => match l with [] => false | _ => true end
  | PDict d => match d with [] => false | _ => true end
  end.

Definition type_name (v : pyval) : str :=
  match v with
  | PNone => lit "NoneType"
  | PBool _ => lit "bool"
  | PInt _ => lit "int"
  | PStr _ => lit "str"
  | PList _ => lit "list"
  | PDict _ => lit "dict"
  end.

(** Lookup in a dict with string keys. *)
Fixpoint dict_lookup {A} (k : str) (d : list (str * A)) : option A :=
  match d with
  | [] => None
  | (k', v) :: d' => if bool_decide (k' = k) then Some v else dict_lookup k d'
  end.

(** ** Exceptions *)

Inductive exc_class :=
| WaveError        (* wave.Error *)
| EOFError
| OSError
| StructError      (* struct.error *)
| AttributeError
| TypeError
| KeyError
| IndexError
| RuntimeError
| ServiceError.    (* raised by an SDK, HTTP or parsing library *)

Record exc := Exc { exc_cls : exc_class; exc_msg : str }.

Global Instance exc_class_eq_dec : EqDecision exc_class.
Proof. solve_decision. Defined.

Definition attribute_error (v : pyval) (attr : string) : exc :=
  Exc AttributeError
      (lit "'" ++ type_name v ++ lit "' object has no attribute '"
       ++ lit attr ++ lit "'").

Definition unhashable (v : pyval) : exc :=
  Exc TypeError (lit "unhashable type: '" ++ type_name v ++ lit "'").

(** ** Pure operations on values, with the exceptions they raise *)

Definition result (A : Type) : Type := exc + A.

(** [k in v] for a string [k]. *)
Definition py_in (k : str) (v : pyval) : result bool :=
  match v with
  | PDict d => inr (bool_decide (is_Some (dict_lookup k d)))
  | PList l =>
      inr (existsb (fun x => match x with PStr s => eqb s k | _ => false end) l)
  | PStr s => inr (contains k s)
  | _ => inl (Exc TypeError
                (lit "argument of type '" ++ type_name v
                 ++ lit "' is not iterable"))
  end.

(** [v[k]] for a string [k]. *)
Definition getitem (v : pyval) (k : str) : result pyval :=
  match v with
  | PDict d =>
      match dict_lookup k d with
      | Some x => inr x
      | None => inl (Exc KeyError (lit "'" ++ k ++ lit "'"))
      end
  | PList _ =>
      inl (Exc TypeError (lit "list indices must be integers or slices, not str"))
  | PStr _ =>
      inl (Exc TypeError (lit "string indices must be integers, not 'str'"))
  | _ => inl (Exc TypeError
                (lit "'" ++ type_name v ++ lit "' object is not subscriptable"))
  end.

(** [v[0]] *)
Definition getitem0 (v : pyval) : result pyval :=
  match v with
  | PList (x :: _) => inr x
  | PList [] => inl (Exc IndexError (lit "list index out of range"))
  | PStr (c :: _) => inr (PStr [c])
  | PStr [] => inl (Exc IndexError (lit "string index out of range"))
  | PDict _ => inl (Exc KeyError (lit "0"))
  | _ => inl (Exc TypeError
                (lit "'" ++ type_name v ++ lit "' object is not subscriptable"))
  end.

(** [v.get(k)] as the handlers use it on the decoded request body. *)
Definition get_method (v : pyval) (k : str) : result pyval :=
  match v with
  | PDict d => inr (default PNone (dict_lookup k d))
  | _ => inl (attribute_error v "get")
  end.

(** [table.get(key, dflt)] on a module-level table with string keys, for
    an arbitrary key object: lists and dicts are unhashable. *)
Definition table_get {A} (table : gmap str A) (key : pyval) (dflt : A)
  : result A :=
  match key with
  | PStr s => inr (default dflt (table !! s))
  | PList _ | PDict _ => inl (unhashable key)
  | _ => inr dflt
  end.

(** [str(v)] inside an f-string, for the values the code formats. *)
Definition fmt_opt (o : option str) : str :=
  match o with
  | Some s => s
  | None => lit "None"
  end.

(** ** The [wave] module of the Python standard library

    [Wave_write] and [Wave_read] of CPython 3.11's [wave.py] on a
    little-endian host, restricted to what the program calls:
    [wave.open(path, "wb")] followed by [setnchannels], [setsampwidth],
    [setframerate] and one [writeframes], and [wave.open(path, "rb")]
    followed by [getnchannels], [getframerate] and [getnframes]. *)

Module Wave.

Abbreviation bytes := (list byte).

Definition WAVE_FORMAT_PCM : Z := 1.

Definition ascii_bytes (s : string) : bytes := list_byte_of_string s.

Definition byte_of_Z (z : Z) : byte :=
  default x00 (Byte.of_N (Z.to_N (z mod 256))).

Definition Z_of_byte (b : byte) : Z := Z.of_N (Byte.to_N b).

(** [struct.pack] of one unsigned little-endian field of [n] bytes. *)
Fixpoint pack_le (n : nat) (v : Z) : bytes :=
  match n with
  | O => []
  | S n' => byte_of_Z v :: pack_le n' (Z.shiftr v 8)
  end.

(** [struct.unpack] of one unsigned little-endian field. *)
Fixpoint unpack_le (bs : bytes) : Z :=
  match bs with
  | [] => 0
  | b :: bs' => Z_of_byte b + Z.shiftl (unpack_le bs') 8
  end.

Definition bytes_eqb (a b : bytes) : bool :=
  bool_decide (Byte.to_N <$> a = Byte.to_N <$> b).

(** *** Writing *)

(** The 44 bytes written by [_write_header] and, with another length, by
    [_patchheader]. *)
Definition header (nchannels sampwidth framerate datalength : Z) : bytes :=
  ascii_bytes "RIFF"
  ++ pack_le 4 (36 + datalength) ++ ascii_bytes "WAVE" ++ ascii_bytes "fmt "
  ++ pack_le 4 16 ++ pack_le 2 WAVE_FORMAT_PCM ++ pack_le 2 nchannels
  ++ pack_le 4 framerate ++ pack_le 4 (nchannels * framerate * sampwidth)
  ++ pack_le 2 (nchannels * sampwidth) ++ pack_le 2 (sampwidth * 8)
  ++ ascii_bytes "data"
  ++ pack_le 4 datalength.

Definition struct_error : exc :=
  Exc StructError (lit "'L' format requires 0 <= number <= 4294967295").

(** The [with wave.open(path, "wb") as wf:] block of [stop_recording] for
    parameters [nchannels >= 1], [1 <= sampwidth <= 4], [framerate > 0]:
    the exception that leaves the block, if any, and the content of the
    file once it is closed.  When a length does not fit the 32-bit field,
    [struct.pack] raises after [b'RIFF'] was written, and again in
    [close()]. *)
Definition write (nchannels sampwidth framerate : Z) (data : bytes)
  : option exc * bytes :=
  let datawritten := Z.of_nat (length data) in
  let nframes := datawritten / (sampwidth * nchannels) in
  let datalength := nframes * nchannels * sampwidth in
  if 36 + datalength >? 4294967295 then
    (Some struct_error, ascii_bytes "RIFF" ++ ascii_bytes "RIFF")
  else if datalength =? datawritten then
    (None, header nchannels sampwidth framerate datalength ++ data)
  else if 36 + datawritten >? 4294967295 then
    (Some struct_error,
     header nchannels sampwidth framerate datalength ++ data)
  else
    (None, header nchannels sampwidth framerate datawritten ++ data).

(** *** Reading *)

Record params := Params {
  nchannels : Z;
  sampwidth : Z;
  framerate : Z;
  nframes : Z
}.

Inductive opened :=
| Opened (p : params)
| Failed (e : exc).

Definition error (msg : string) : opened := Failed (Exc WaveError (lit msg)).
Definition eof_error : opened := Failed (Exc EOFError []).
Definition runtime_error : opened := Failed (Exc RuntimeError []).

(** The outer [_Chunk]: the bytes after its 8-byte header, its declared
    size and [size_read]. *)
Record chunk := Chunk { body : bytes; chunksize : Z; size_read : Z }.

Definition slice (b : bytes) (from len : Z) : bytes :=
  take (Z.to_nat len) (drop (Z.to_nat from) b).

(** [_Chunk.read(size)] for [size >= 0]. *)
Definition read (size : Z) (c : chunk) : bytes * chunk :=
  if size_read c >=? chunksize c then ([], c)
  else
    let size := Z.min size (chunksize c - size_read c) in
    let data := slice (body c) (size_read c) size in
    let pos := size_read c + Z.of_nat (length data) in
    let pos :=
      if (pos =? chunksize c) && Z.odd (chunksize c)
      then pos + Z.of_nat (length (slice (body c) pos 1))
      else pos in
    (data, Chunk (body c) (chunksize c) pos).

(** [_Chunk.seek(n, 1)] for [n >= 0]; [None] is [RuntimeError]. *)
Definition seek_cur (n : Z) (c : chunk) : option chunk :=
  let pos := n + size_read c in
  if pos >? chunksize c then None
  else Some (Chunk (body c) (chunksize c) pos).

(** [skip()] of an inner chunk of declared size [size] of which [done]
    bytes were read. *)
Definition skip (size done : Z) (c : chunk) : option chunk :=
  seek_cur (size - done + (if Z.odd size then 1 else 0)) c.

(** [_read_fmt_chunk] on an inner chunk of declared size [size]: the
    channel count, sample width and frame rate, or the exception.  The
    message of [Error('unknown format: %r')] is kept without the tag. *)
Definition read_fmt_chunk (size : Z) (c : chunk)
  : (opened + (Z * Z * Z)) * chunk :=
  let '(d14, c) := read (Z.min 14 size) c in
  if (length d14 <? 14)%nat then (inl eof_error, c)
  else
    let wFormatTag := unpack_le (take 2 d14) in
    let nch := unpack_le (take 2 (drop 2 d14)) in
    let rate := unpack_le (take 4 (drop 4 d14)) in
    if wFormatTag =? WAVE_FORMAT_PCM then
      let '(d2, c) := read (Z.min 2 (size - 14)) c in
      if (length d2 <? 2)%nat then (inl eof_error, c)
      else
        let sw := (unpack_le d2 + 7) / 8 in
        if sw =? 0 then (inl (error "bad sample width"), c)
        else if nch =? 0 then (inl (error "bad # of channels"), c)
        else (inr (nch, sw, rate), c)
    else (inl (error "unknown format"), c).

(** The [while 1:] loop of [initfp].  Every iteration that does not leave
    the loop consumes the 8 bytes of a chunk header, so [length body]
    iterations are enough. *)
Fixpoint chunks (fuel : nat) (fmt : option (Z * Z * Z)) (c : chunk) : opened :=
  let missing := error "fmt chunk and/or data chunk missing" in
  match fuel with
  | O => missing
  | S fuel' =>
      let '(name, c) := read 4 c in
      if (length name <? 4)%nat then missing
      else
        let '(sz, c) := read 4 c in
        if (length sz <? 4)%nat then missing
        else
          let size := unpack_le sz in
          if bytes_eqb name (ascii_bytes "fmt ") then
            match read_fmt_chunk size c with
            | (inl e, _) => e
            | (inr f, c) =>
                match skip size 16 c with
                | Some c => chunks fuel' (Some f) c
                | None => runtime_error
                end
            end
          else if bytes_eqb name (ascii_bytes "data") then
            match fmt with
            | None => error "data chunk before fmt chunk"
            | Some (nch, sw, rate) => Opened (Params nch sw rate (size / (nch * sw)))
            end
          else
            match skip size 0 c with
            | Some c => chunks fuel' fmt c
            | None => runtime_error
            end
  end.

(** [Wave_read.initfp] on the content of the file. *)
Definition initfp (file : bytes) : opened :=
  let name := take 4 file in
  if (length name <? 4)%nat then eof_error
  else
    let sz := take 4 (drop 4 file) in
    if (length sz <? 4)%nat then eof_error
    else
      let c := Chunk (drop 8 file) (unpack_le sz) 0 in
      if negb (bytes_eqb name (ascii_bytes "RIFF")) then
        error "file does not start with RIFF id"
      else
        let '(form, c) := read 4 c in
        if negb (bytes_eqb form (ascii_bytes "WAVE")) then
          error "not a WAVE file"
        else chunks (length (body c)) None c.

End Wave.


(** ** The world outside the process *)

(** The part of a [get_transcription_job] response the code reads:
    [TranscriptionJobStatus], [Transcript.TranscriptFileUri] and
    [FailureReason], the last two possibly absent. *)
Record job := Job {
  job_status : str;
  transcript_file_uri : option str;
  failure_reason : option str
}.

(** A [requests] response: [status_code] and the outcome of [.json()]. *)
Record http_response := HttpResponse {
  status_code : Z;
  json : result pyval
}.

(** [result.reason] of a synthesis. *)
Inductive result_reason :=
| SynthesizingAudioCompleted
| Canceled
| OtherReason.

(** Answers of the environment.  The first argument of every service is
    the [tick] at which it is consulted. *)
Record World := {
  (** [os.getenv("S3_BUCKET_NAME")] *)
  bucket_name : option str;
  (** [str(uuid.uuid4())] *)
  uuid4 : nat -> str;
  (** [s3_client.upload_fileobj(file_data, bucket, object_name)] *)
  upload_fileobj : nat -> Wave.bytes -> option str -> str -> option exc;
  (** [transcribe_client.start_transcription_job(...)] *)
  start_transcription_job : nat -> str -> str -> str -> option exc;
  (** [transcribe_client.get_transcription_job(TranscriptionJobName=...)] *)
  get_transcription_job : nat -> str -> result job;
  (** [json.loads(urllib.request.urlopen(uri, timeout=30).read())] *)
  fetch_transcript : nat -> str -> result pyval;
  (** [open("./Polyhouse Ontology.ttl", "r")] and [f.read()] *)
  read_ontology : nat -> result str;
  (** [model.generate_content(prompt)], then the test
      [response and hasattr(response, 'text')] and [response.text]:
      [None] when the test fails *)
  generate_content : nat -> str -> result (option str);
  (** [requests.post(url, params, headers, json=[{'text': text}])] with
      [params['to'] = target] *)
  requests_post : nat -> str -> pyval -> result http_response;
  (** [SpeechConfig(subscription=..., region=...)] *)
  speech_config : nat -> option exc;
  (** [AudioConfig], [SpeechSynthesizer] and
      [speak_text_async(text).get()] for a voice and an output path *)
  speak_text : nat -> str -> str -> pyval -> result result_reason
}.

(** ** State of the process *)

(** The pipeline functions, for the record of calls. *)
Inductive stage :=
| Validate | Upload | Transcribe | Correct | Translate | Synthesize.

(** What the process did, oldest first: entries of the pipeline functions
    and calls that leave the process. *)
Inductive event :=
| Enter (f : stage)
| WriteFile (path : str)
| PutObject (bucket : option str) (key : str)
| StartJob (name uri lang : str)
| GetJob (name : str)
| Sleep (seconds : Z)
| UrlOpen (uri : str)
| OpenOntology
| Generate (prompt : str)
| Post (text : str) (target : pyval)
| Speak (voice path : str) (text : pyval).

Global Instance stage_eq_dec : EqDecision stage.
Proof. solve_decision. Defined.

Record State := mkState {
  current_session_id : option str;
  current_english_text : option str;
  is_recording : bool;
  audio_frames : list Wave.bytes;
  files : gmap str Wave.bytes;
  tick : nat;
  trace : list event
}.

(** The state after the module is loaded. *)
Definition initial_state : State :=
  mkState None None false [] ∅ 0 [].

(** ** The monad *)

Inductive outcome (A : Type) :=
| Val (a : A)
| Raise (e : exc)
| Timeout.
Arguments Val {A} a.
Arguments Raise {A} e.
Arguments Timeout {A}.

Definition M (A : Type) : Type := State -> outcome A * State.

Global Instance M_ret : MRet M := fun A a s => (Val a, s).

Global Instance M_bind : MBind M := fun A B k m s =>
  match m s with
  | (Val a, s') => k a s'
  | (Raise e, s') => (Raise e, s')
  | (Timeout, s') => (Timeout, s')
  end.

Definition raise {A} (e : exc) : M A := fun s => (Raise e, s).

Definition timeout {A} : M A := fun s => (Timeout, s).

Definition of_result {A} (r : result A) : M A :=
  match r with
  | inl e => raise e
  | inr a => mret a
  end.

Definition get_state : M State := fun s => (Val s, s).

Definition emit (e : event) : M unit := fun s =>
  (Val tt,
   mkState (current_session_id s) (current_english_text s) (is_recording s)
           (audio_frames s) (files s) (tick s) (trace s ++ [e])).

(** One consultation of the world. *)
Definition ask {A} (q : nat -> A) : M A := fun s =>
  (Val (q (tick s)),
   mkState (current_session_id s) (current_english_text s) (is_recording s)
           (audio_frames s) (files s) (S (tick s)) (trace s)).

Definition set_current_session_id (v : str) : M unit := fun s =>
  (Val tt,
   mkState (Some v) (current_english_text s) (is_recording s)
           (audio_frames s) (files s) (tick s) (trace s)).

Definition set_current_english_text (v : str) : M unit := fun s =>
  (Val tt,
   mkState (current_session_id s) (Some v) (is_recording s)
           (audio_frames s) (files s) (tick s) (trace s)).

Definition set_is_recording (b : bool) : M unit := fun s =>
  (Val tt,
   mkState (current_session_id s) (current_english_text s) b
           (audio_frames s) (files s) (tick s) (trace s)).

Definition set_file (path : str) (content : Wave.bytes) : M unit := fun s =>
  (Val tt,
   mkState (current_session_id s) (current_english_text s) (is_recording s)
           (audio_frames s) (<[path := content]> (files s)) (tick s)
           (trace s)).

(** [try: body except Exception as e: handler(e)] *)
Definition try_except {A} (body : M A) (handler : exc -> M A) : M A := fun s =>
  match body s with
  | (Raise e, s') => handler e s'
  | r => r
  end.

(** [try: body except cls as e: handler(e)] for one exception class. *)
Definition try_except_class {A} (cls : exc_class) (body : M A)
    (handler : exc -> M A) : M A := fun s =>
  match body s with
  | (Raise e, s') =>
      if bool_decide (exc_cls e = cls) then handler e s' else (Raise e, s')
  | r => r
  end.

(** [open(path, "rb")] and [read()] *)
Definition open_rb (path : str) : M Wave.bytes :=
  s ← get_state;
  match files s !! path with
  | Some content => mret content
  | None =>
      raise (Exc OSError
               (lit "[Errno 2] No such file or directory: '" ++ path ++ lit "'"))
  end.

(** ** Module-level configuration and tables *)

Definition UPLOAD_FOLDER : str := lit "uploads".
Definition AUDIO_OUTPUT_FOLDER : str := lit "static/audio".

Definition SUPPORTED_INPUT_LANGUAGES : gmap str str :=
  list_to_map
    [ (lit "te-IN", lit "Telugu"); (lit "hi-IN", lit "Hindi");
      (lit "ta-IN", lit "Tamil"); (lit "en-US", lit "English");
      (lit "ml-IN", lit "Malayalam"); (lit "kn-IN", lit "Kannada") ].

Definition SUPPORTED_OUTPUT_LANGUAGES : gmap str str :=
  list_to_map
    [ (lit "ta", lit "Tamil"); (lit "te", lit "Telugu");
      (lit "hi", lit "Hindi"); (lit "ml", lit "Malayalam");
      (lit "kn", lit "Kannada"); (lit "mr", lit "Marathi");
      (lit "gu", lit "Gujarati"); (lit "bn", lit "Bengali");
      (lit "pa", lit "Punjabi"); (lit "en", lit "English") ].

Definition AZURE_TTS_VOICES : gmap str str :=
  list_to_map
    [ (lit "ta", lit "ta-IN-Pallavi"); (lit "te", lit "te-IN-Chitra");
      (lit "hi", lit "hi-IN-Kalpana"); (lit "ml", lit "ml-IN-Sobhana");
      (lit "kn", lit "kn-IN-Sapna"); (lit "mr", lit "mr-IN-Aarohi");
      (lit "gu", lit "gu-IN-Niranjan"); (lit "bn", lit "bn-IN-Bashkar");
      (lit "pa", lit "pa-IN-Baldev"); (lit "en", lit "en-US-Aria") ].

(** ** JSON bodies of the responses *)

Definition error_response (message : str) : pyval :=
  PDict [ (lit "status", PStr (lit "error")); (lit "message", PStr message) ].

(** [{"status": "error", "message": f"Error: {str(e)}"}] *)
Definition exception_response (e : exc) : pyval :=
  error_response (lit "Error: " ++ exc_msg e).

(** The value of ["status"] in a response. *)
Definition status_of (response : pyval) : option pyval :=
  match response with
  | PDict d => dict_lookup (lit "status") d
  | _ => None
  end.

(** ** The prompt of [correct_and_translate] *)

Definition nl : str := [10%N].
Definition indent : str := lit "        ".

(** [SUPPORTED_INPUT_LANGUAGES.get(source_lang, 'unknown language')] *)
Definition input_language_name (source_lang : str) : str :=
  default (lit "unknown language") (SUPPORTED_INPUT_LANGUAGES !! source_lang).

(** The f-string assigned to [prompt], line by line. *)
Definition build_prompt (onto source_text source_lang : str) : str :=
  let name := input_language_name source_lang in
  nl
  ++ indent ++ lit "I'll give you an ontology file and a " ++ name
     ++ lit " text. The " ++ name
     ++ lit " text might have errors related to specific terms in the ontology."
     ++ nl
  ++ nl
  ++ indent
     ++ lit "First, analyze the ontology file to understand its domain and key terms."
     ++ nl
  ++ indent ++ lit "Then, examine the " ++ name
     ++ lit " text for words that might be misused or misspelled based on context."
     ++ nl
  ++ indent
     ++ lit "Finally, return ONLY the corrected English translation. Don't include any explanations or additional text."
     ++ nl
  ++ nl
  ++ indent ++ lit "Ontology file:" ++ nl
  ++ indent ++ onto ++ nl
  ++ nl
  ++ indent ++ lit "Tamil text: " ++ source_text ++ nl
  ++ indent.

(** ** The pipeline functions *)

Section Program.

Context (w : World).

Definition validate_wav_file (file_path : str) : M bool :=
  emit (Enter Validate);;
  try_except_class WaveError
    (content ← open_rb file_path;
     match Wave.initfp content with
     | Wave.Opened _ => mret true
     | Wave.Failed e => raise e
     end)
    (fun _ => mret false).

Definition upload_to_s3 (file_path : str) (bucket : option str)
    (object_name : str) : M bool :=
  emit (Enter Upload);;
  try_except
    (file_data ← open_rb file_path;
     emit (PutObject bucket object_name);;
     r ← ask (fun t => upload_fileobj w t file_data bucket object_name);
     match r with
     | Some e => raise e
     | None => mret true
     end)
    (fun _ => mret false).

(** The body of [if status == "COMPLETED":] once [data] is decoded.  The
    source evaluates [data["results"]["transcripts"]] three times; the
    evaluations are pure, so each is bound once here. *)
Definition extract_transcript (data : pyval) : M pyval :=
  has_results ← of_result (py_in (lit "results") data);
  if negb has_results then mret PNone
  else
    results ← of_result (getitem data (lit "results"));
    has_transcripts ← of_result (py_in (lit "transcripts") results);
    if negb has_transcripts then mret PNone
    else
      transcripts ← of_result (getitem results (lit "transcripts"));
      if negb (truthy transcripts) then mret PNone
      else
        first ← of_result (getitem0 transcripts);
        text ← of_result (getitem first (lit "transcript"));
        if truthy text then mret text else mret PNone.

(** The [while True:] loop of [transcribe_audio]; one unit of fuel per
    status poll. *)
Fixpoint poll (fuel : nat) (job_name : str) : M pyval :=
  match fuel with
  | O => timeout
  | S fuel' =>
      emit (GetJob job_name);;
      r ← ask (fun t => get_transcription_job w t job_name);
      job ← of_result r;
      if eqb (job_status job) (lit "COMPLETED") then
        transcript_uri ←
          match transcript_file_uri job with
          | Some uri => mret uri
          | None => raise (Exc KeyError (lit "'Transcript'"))
          end;
        emit (UrlOpen transcript_uri);;
        d ← ask (fun t => fetch_transcript w t transcript_uri);
        data ← of_result d;
        extract_transcript data
      else if eqb (job_status job) (lit "FAILED") then mret PNone
      else emit (Sleep 5);; poll fuel' job_name
  end.

Definition transcribe_audio (fuel : nat) (job_name file_uri language_code : str)
  : M pyval :=
  emit (Enter Transcribe);;
  try_except
    (emit (StartJob job_name file_uri language_code);;
     r ← ask (fun t => start_transcription_job w t job_name file_uri language_code);
     match r with
     | Some e => raise e
     | None => poll fuel job_name
     end)
    (fun _ => mret PNone).

Definition correct_and_translate (source_text source_lang : str) : M str :=
  emit (Enter Correct);;
  try_except
    (emit OpenOntology;;
     o ← ask (read_ontology w);
     onto ← of_result o;
     let prompt := build_prompt onto source_text source_lang in
     emit (Generate prompt);;
     r ← ask (fun t => generate_content w t prompt);
     response ← of_result r;
     match response with
     | Some text => mret (strip text)
     | None => mret (lit "Error: No valid translation received.")
     end)
    (fun e => mret (lit "Error: " ++ exc_msg e)).

Definition translate_to_target_language (english_text : str)
    (target_lang : pyval) : M pyval :=
  emit (Enter Translate);;
  try_except
    (emit (Post english_text target_lang);;
     r ← ask (fun t => requests_post w t english_text target_lang);
     response ← of_result r;
     if status_code response =? 200 then
       body ← of_result (json response);
       item ← of_result (getitem0 body);
       translations ← of_result (getitem item (lit "translations"));
       translation ← of_result (getitem0 translations);
       of_result (getitem translation (lit "text"))
     else mret (PStr (lit "Error: Translation failed.")))
    (fun e => mret (PStr (lit "Error: " ++ exc_msg e))).

(** [None] is Python's [None]; [Some url] the returned path. *)
Definition text_to_speech (text target_lang : pyval) : M (option str) :=
  emit (Enter Synthesize);;
  try_except
    (c ← ask (speech_config w);
     match c with Some e => raise e | None => mret tt end;;
     voice ← of_result
       (table_get AZURE_TTS_VOICES target_lang (lit "en-US-Aria"));
     u ← ask (uuid4 w);
     let audio_filename := lit "output_" ++ u ++ lit ".wav" in
     let audio_path := path_join AUDIO_OUTPUT_FOLDER audio_filename in
     emit (Speak voice audio_path text);;
     r ← ask (fun t => speak_text w t voice audio_path text);
     reason ← of_result r;
     match reason with
     | SynthesizingAudioCompleted =>
         mret (Some (lit "/static/audio/" ++ audio_filename))
     | _ => mret None
     end)
    (fun _ => mret None).

(** The test [not source_text or not source_text.strip()] of
    [process_audio]: [None] when it holds, the text when it does not. *)
Definition usable_text (source_text : pyval) : result (option str) :=
  if negb (truthy source_text) then inr None
  else
    match source_text with
    | PStr s => inr (if bool_decide (strip s = []) then None else Some s)
    | _ => inl (attribute_error source_text "strip")
    end.

Definition process_audio (fuel : nat) (audio_path input_language : str)
  : M pyval :=
  try_except
    (valid ← validate_wav_file audio_path;
     if negb valid then mret (error_response (lit "Invalid WAV file"))
     else
       session_id ← ask (uuid4 w);
       set_current_session_id session_id;;
       let s3_file_name := session_id ++ lit ".wav" in
       let s3_uri :=
         lit "s3://" ++ fmt_opt (bucket_name w) ++ lit "/" ++ s3_file_name in
       uploaded ← upload_to_s3 audio_path (bucket_name w) s3_file_name;
       if negb uploaded then mret (error_response (lit "Failed to upload to S3"))
       else
         source_text ← transcribe_audio fuel session_id s3_uri input_language;
         usable ← of_result (usable_text source_text);
         match usable with
         | None => mret (error_response (lit "Transcription failed"))
         | Some source_text =>
             english_text ← correct_and_translate source_text input_language;
             if bool_decide (english_text = []) then
               mret (error_response (lit "Translation to English failed"))
             else
               set_current_english_text english_text;;
               mret (PDict [ (lit "status", PStr (lit "success"));
                             (lit "source_text", PStr source_text);
                             (lit "english_text", PStr english_text) ])
         end)
    (fun e => mret (exception_response e)).

(** ** The request handlers *)

(** [/stop-recording]; [form_input_language] is the form field
    [input_language], if the request has it. *)
Definition stop_recording (fuel : nat) (form_input_language : option str)
  : M pyval :=
  try_except
    (set_is_recording false;;
     let output_file := path_join UPLOAD_FOLDER (lit "recorded_audio.wav") in
     s ← get_state;
     let written := Wave.write 1 2 44100 (concat (audio_frames s)) in
     emit (WriteFile output_file);;
     set_file output_file written.2;;
     match written.1 with Some e => raise e | None => mret tt end;;
     let input_language := default (lit "te-IN") form_input_language in
     process_audio fuel output_file input_language)
    (fun e => mret (exception_response e)).

(** [/translate-to-language]; [get_json] is the outcome of
    [request.get_json()]. *)
Definition translate_to_language (get_json : result pyval) : M pyval :=
  try_except
    (data ← of_result get_json;
     target_language ← of_result (get_method data (lit "target_language"));
     s ← get_state;
     match current_english_text s with
     | Some (c :: text) =>
         if negb (truthy target_language) then
           mret (error_response (lit "No target language specified"))
         else
           translated_text ←
             translate_to_target_language (c :: text) target_language;
           if truthy translated_text then
             name ← of_result
               (table_get (PStr <$> SUPPORTED_OUTPUT_LANGUAGES)
                          target_language target_language);
             mret (PDict [ (lit "status", PStr (lit "success"));
                           (lit "translated_text", translated_text);
                           (lit "target_language", name) ])
           else mret (error_response (lit "Translation failed"))
     | _ => mret (error_response (lit "No English text available for translation"))
     end)
    (fun e => mret (exception_response e)).

(** [/text-to-speech] *)
Definition text_to_speech_route (get_json : result pyval) : M pyval :=
  try_except
    (data ← of_result get_json;
     text ← of_result (get_method data (lit "text"));
     target_language ← of_result (get_method data (lit "target_language"));
     if negb (truthy text) || negb (truthy target_language) then
       mret (error_response (lit "Text and target language are required"))
     else
       audio_url ← text_to_speech text target_language;
       match audio_url with
       | Some (c :: url) =>
           mret (PDict [ (lit "status", PStr (lit "success"));
                         (lit "audio_url", PStr (c :: url)) ])
       | _ => mret (error_response (lit "Text-to-speech conversion failed"))
       end)
    (fun e => mret (exception_response e)).

(** The requests that act on the session. *)
Inductive request :=
| StopRecording (form_input_language : option str)
| TranslateToLanguage (get_json : result pyval)
| TextToSpeech (get_json : result pyval).

Definition handle (fuel : nat) (r : request) : M pyval :=
  match r with
  | StopRecording lang => stop_recording fuel lang
  | TranslateToLanguage body => translate_to_language body
  | TextToSpeech body => text_to_speech_route body
  end.

End Program.

Arguments validate_wav_file : simpl never.
Arguments upload_to_s3 : simpl never.
Arguments transcribe_audio : simpl never.
Arguments correct_and_translate : simpl never.
Arguments translate_to_target_language : simpl never.
Arguments text_to_speech : simpl never.
Arguments process_audio : simpl never.

(** ** The handler of [/start-recording]

    The handler loops on the global [is_recording], which only another
    request clears while the loop runs.  The answers of PyAudio and the
    moment at which the flag is cleared are given by a [Microphone],
    consulted like the [World] at the [tick] of the call. *)
Record Microphone := {
  (** [pyaudio.PyAudio()] *)
  py_audio : nat -> option exc;
  (** [audio.open(format=paInt16, channels=1, rate=44100, input=True,
      frames_per_buffer=1024)] *)
  open_stream : nat -> option exc;
  (** [stream.read(1024)] *)
  stream_read : nat -> result Wave.bytes;
  (** [stream.stop_stream()] *)
  stop_stream : nat -> option exc;
  (** [stream.close()] *)
  close_stream : nat -> option exc;
  (** [audio.terminate()] *)
  terminate : nat -> option exc;
  (** whether another request has cleared [is_recording] by the time of a
      test of the loop *)
  stop_requested : nat -> bool
}.

(** [audio_frames = frames] *)
Definition set_audio_frames (frames : list Wave.bytes) : M unit := fun s =>
  (Val tt,
   mkState (current_session_id s) (current_english_text s) (is_recording s)
           frames (files s) (tick s) (trace s)).

(** A call that returns nothing and may raise. *)
Definition call (q : nat -> option exc) : M unit :=
  r ← ask q;
  match r with Some e => raise e | None => mret tt end.

Section Recording.
Context (mic : Microphone).

(** [while is_recording: data = stream.read(CHUNK);
    audio_frames.append(data)] *)
Fixpoint record_loop (fuel : nat) : M unit :=
  match fuel with
  | O => timeout
  | S fuel' =>
      stop ← ask (stop_requested mic);
      (if stop : bool then set_is_recording false else mret tt);;
      s ← get_state;
      if is_recording s then
        r ← ask (stream_read mic);
        data ← of_result r;
        s ← get_state;
        set_audio_frames (audio_frames s ++ [data]);;
        record_loop fuel'
      else mret tt
  end.

(** [fuel] bounds the turns of the loop: [Timeout] is the outcome of a
    recording that no request has stopped by then. *)
Definition start_recording (fuel : nat) : M pyval :=
  try_except
    (set_is_recording true;;
     set_audio_frames [];;
     call (py_audio mic);;
     call (open_stream mic);;
     record_loop fuel;;
     call (stop_stream mic);;
     call (close_stream mic);;
     call (terminate mic);;
     mret (PDict [ (lit "status", PStr (lit "success"));
                   (lit "message",
                    PStr (lit "Recording stopped successfully.")) ]))
    (fun e => mret (exception_response e)).

End Recording.

(** * Vocabulary of the properties *)

(** ** Reading the record of calls *)

(** The pipeline functions entered, in order. *)
Definition stages (evs : list event) : list stage :=
  omap (fun e => match e with Enter f => Some f | _ => None end) evs.

Definition is_poll (e : event) : bool :=
  match e with GetJob _ => true | _ => false end.

Definition is_sleep (e : event) : bool :=
  match e with Sleep _ => true | _ => false end.

(** How many events satisfy [f]. *)
Definition count (f : event -> bool) (evs : list event) : nat :=
  length (List.filter f evs).

(** The texts handed to the translation service. *)
Definition posted (evs : list event) : list str :=
  omap (fun e => match e with Post text _ => Some text | _ => None end) evs.

(** The voices handed to the synthesizer. *)
Definition voices (evs : list event) : list str :=
  omap (fun e => match e with Speak voice _ _ => Some voice | _ => None end) evs.

(** The events recorded after the state [s] on the way to [s']. *)
Definition since (s s' : State) : list event :=
  drop (length (trace s)) (trace s').

(** [advance n evs s]: the state [s] after [n] consultations of the world
    and the events [evs], with the globals and the files untouched. *)
Definition advance (n : nat) (evs : list event) (s : State) : State :=
  mkState (current_session_id s) (current_english_text s) (is_recording s)
          (audio_frames s) (files s) (n + tick s) (trace s ++ evs).

(** ** Outcomes of the stages *)

(** What [validate_wav_file] returns for the file, if any, at [path]. *)
Definition validate_outcome (file : option Wave.bytes) (path : str)
  : outcome bool :=
  match file with
  | None =>
      Raise (Exc OSError
               (lit "[Errno 2] No such file or directory: '" ++ path ++ lit "'"))
  | Some content =>
      match Wave.initfp content with
      | Wave.Opened _ => Val true
      | Wave.Failed e =>
          if bool_decide (exc_cls e = WaveError) then Val false else Raise e
      end
  end.

(** A status that keeps the loop going. *)
Definition nonterminal (status : str) : Prop :=
  eqb status (lit "COMPLETED") = false /\ eqb status (lit "FAILED") = false.

Definition terminal (status : str) : Prop :=
  status = lit "COMPLETED" \/ status = lit "FAILED".

(** What [n] rounds of polling a job that is not finished record. *)
Fixpoint waiting (n : nat) (job_name : str) : list event :=
  match n with
  | O => []
  | S n' => GetJob job_name :: Sleep 5 :: waiting n' job_name
  end.

(** [data["results"]["transcripts"][0]["transcript"]] *)
Definition first_transcript (data : pyval) : result pyval :=
  match getitem data (lit "results") with
  | inl e => inl e
  | inr results =>
      match getitem results (lit "transcripts") with
      | inl e => inl e
      | inr transcripts =>
          match getitem0 transcripts with
          | inl e => inl e
          | inr first => getitem first (lit "transcript")
          end
      end
  end.

(** ** States and responses of [process_audio] *)

(** The state of a run that assigned [current_session_id], and of one that
    also assigned [current_english_text]. *)
Definition started (sid : str) (n : nat) (evs : list event) (s : State)
  : State :=
  mkState (Some sid) (current_english_text s) (is_recording s)
          (audio_frames s) (files s) (n + tick s) (trace s ++ evs).

Definition finished (sid english : str) (n : nat) (evs : list event)
    (s : State) : State :=
  mkState (Some sid) (Some english) (is_recording s)
          (audio_frames s) (files s) (n + tick s) (trace s ++ evs).

Definition success_response (source_text english_text : str) : pyval :=
  PDict [ (lit "status", PStr (lit "success"));
          (lit "source_text", PStr source_text);
          (lit "english_text", PStr english_text) ].

Section Vocabulary.

Context (w : World).

(** The state in which [process_audio] calls [upload_to_s3], and the
    object key it passes. *)
Definition at_upload (s : State) : State :=
  started (uuid4 w (tick s)) 1 [Enter Validate] s.

Definition object_key (s : State) : str := uuid4 w (tick s) ++ lit ".wav".

(** The URI [process_audio] hands to [transcribe_audio]. *)
Definition s3_uri (s : State) : str :=
  lit "s3://" ++ fmt_opt (bucket_name w) ++ lit "/" ++ object_key s.

(** The state in which [process_audio] calls [transcribe_audio] once the
    file at [audio_path] was uploaded. *)
Definition at_transcribe (s : State) : State :=
  started (uuid4 w (tick s)) 2
    [Enter Validate; Enter Upload; PutObject (bucket_name w) (object_key s)]
    s.

(** Every run of [process_audio] is of one of five kinds, by the stage at
    which it stops. *)
Inductive run_kind (fuel : nat) (path lang : str) (s : State)
  : outcome pyval -> State -> list stage -> Prop :=
| StopsAtValidate r :
    match (validate_wav_file path s).1 with
    | Val false => r = Val (error_response (lit "Invalid WAV file"))
    | Raise e => r = Val (exception_response e)
    | _ => False
    end ->
    run_kind fuel path lang s r (advance 0 [Enter Validate] s) [Validate]
| StopsAtUpload n evs :
    (validate_wav_file path s).1 = Val true ->
    (upload_to_s3 w path (bucket_name w) (object_key s) (at_upload s)).1
    = Val false ->
    stages evs = [Validate; Upload] ->
    run_kind fuel path lang s
      (Val (error_response (lit "Failed to upload to S3")))
      (started (uuid4 w (tick s)) n evs s) [Validate; Upload]
| StopsAtTranscribe n evs r :
    (validate_wav_file path s).1 = Val true ->
    (upload_to_s3 w path (bucket_name w) (object_key s) (at_upload s)).1
    = Val true ->
    stages evs = [Validate; Upload; Transcribe] ->
    r = Timeout \/ r = Val (error_response (lit "Transcription failed"))
    \/ (exists e, r = Val (exception_response e)) ->
    run_kind fuel path lang s r (started (uuid4 w (tick s)) n evs s)
      [Validate; Upload; Transcribe]
| StopsAtCorrect n evs :
    (validate_wav_file path s).1 = Val true ->
    (upload_to_s3 w path (bucket_name w) (object_key s) (at_upload s)).1
    = Val true ->
    stages evs = [Validate; Upload; Transcribe; Correct] ->
    run_kind fuel path lang s
      (Val (error_response (lit "Translation to English failed")))
      (started (uuid4 w (tick s)) n evs s)
      [Validate; Upload; Transcribe; Correct]
| Succeeds n evs source_text english_text :
    (validate_wav_file path s).1 = Val true ->
    (upload_to_s3 w path (bucket_name w) (object_key s) (at_upload s)).1
    = Val true ->
    stages evs = [Validate; Upload; Transcribe; Correct] ->
    english_text <> [] ->
    run_kind fuel path lang s
      (Val (success_response source_text english_text))
      (finished (uuid4 w (tick s)) english_text n evs s)
      [Validate; Upload; Transcribe; Correct].

End Vocabulary.

(** ** [stop_recording] *)

(** [os.path.join(app.config['UPLOAD_FOLDER'], "recorded_audio.wav")] *)
Definition output_file : str :=
  path_join UPLOAD_FOLDER (lit "recorded_audio.wav").

(** The file [stop_recording] leaves at [output_file]. *)
Definition recording (s : State) : option exc * Wave.bytes :=
  Wave.write 1 2 44100 (concat (audio_frames s)).

(** The state in which [stop_recording] calls [process_audio]. *)
Definition recorded (s : State) : State :=
  mkState (current_session_id s) (current_english_text s) false
          (audio_frames s) (<[output_file := (recording s).2]> (files s))
          (tick s) (trace s ++ [WriteFile output_file]).

(** ** Sequences of requests *)

(** The follow-up requests: those that read the session. *)
Definition follow_up (r : request) : Prop :=
  match r with
  | StopRecording _ => False
  | _ => True
  end.

(** The state after a sequence of requests, served one after the other. *)
Fixpoint serve (w : World) (fuel : nat) (rs : list request) (s : State)
  : State :=
  match rs with
  | [] => s
  | r :: rs' => serve w fuel rs' (handle w fuel r s).2
  end.

(** ** Speech synthesis *)

(** The voice [text_to_speech] selects for a target language. *)
Definition voice_for (target_lang : pyval) : str :=
  match target_lang with
  | PStr code => default (lit "en-US-Aria") (AZURE_TTS_VOICES !! code)
  | _ => lit "en-US-Aria"
  end.

(** The synthesis succeeds in the world [w] for a call made in state [s]. *)
Definition synthesis_completes (w : World) (text target_lang : pyval)
    (s : State) : Prop :=
  speech_config w (tick s) = None
  /\ exists voice,
       table_get AZURE_TTS_VOICES target_lang (lit "en-US-Aria") = inr voice
       /\ speak_text w (S (S (tick s))) voice
            (path_join AUDIO_OUTPUT_FOLDER
               (lit "output_" ++ uuid4 w (S (tick s)) ++ lit ".wav"))
            text
          = inr SynthesizingAudioCompleted.

(** ** The header of a recording, in three parts *)

(** The constant bytes of [Wave.header 1 2 44100 len]: those before the
    RIFF length and those between it and the data length. *)
Definition riff : list byte := Eval vm_compute in Wave.ascii_bytes "RIFF".
Definition fmt_part : list byte := Eval vm_compute in
  (Wave.ascii_bytes "WAVE" ++ Wave.ascii_bytes "fmt "
  ++ Wave.pack_le 4 16 ++ Wave.pack_le 2 Wave.WAVE_FORMAT_PCM ++ Wave.pack_le 2 1
  ++ Wave.pack_le 4 44100 ++ Wave.pack_le 4 (1 * 44100 * 2)
  ++ Wave.pack_le 2 (1 * 2) ++ Wave.pack_le 2 (2 * 8)
  ++ Wave.ascii_bytes "data").

(** ** Concrete worlds and states *)

Module Demo.

(** The transcript payload of Amazon Transcribe for one transcript. *)
Definition payload (transcript : str) : pyval :=
  PDict [ (lit "results",
           PDict [ (lit "transcripts",
                    PList [ PDict [ (lit "transcript", PStr transcript) ] ]) ]) ].

(** The body of a translation answer. *)
Definition translation (text : str) : pyval :=
  PList [ PDict [ (lit "translations",
                   PList [ PDict [ (lit "text", PStr text) ] ]) ] ].

(** A world whose job is [IN_PROGRESS] before tick [done] and in the
    status [final] from then on. *)
Definition world (upload : option exc) (done : nat) (final transcript : str)
    (ontology : result str) (post : http_response) : World :=
  {| bucket_name := Some (lit "recordings");
     uuid4 := fun _ => lit "6fa459ea-ee8a-3ca4-894e-db77e160355e";
     upload_fileobj := fun _ _ _ _ => upload;
     start_transcription_job := fun _ _ _ _ => None;
     get_transcription_job := fun t _ =>
       inr (Job (if (t <? done)%nat then lit "IN_PROGRESS" else final)
                (Some (lit "https://s3.amazonaws.com/transcript.json"))
                None);
     fetch_transcript := fun _ _ => inr (payload transcript);
     read_ontology := fun _ => ontology;
     generate_content := fun _ _ => inr (Some (lit " Water the tomato plants. "));
     requests_post := fun _ _ _ => inr post;
     speech_config := fun _ => None;
     speak_text := fun _ _ _ _ => inr SynthesizingAudioCompleted |}.

Definition ok_response : http_response :=
  HttpResponse 200 (inr (translation (lit "namaste"))).

(** Every service answers; the job completes at the third poll. *)
Definition fair : World :=
  world None 5 (lit "COMPLETED") (lit "vanakkam") (inr (lit "@prefix : <#> ."))
        ok_response.

(** The upload is refused. *)
Definition no_upload : World :=
  world (Some (Exc ServiceError (lit "AccessDenied"))) 5 (lit "COMPLETED")
        (lit "vanakkam") (inr (lit "@prefix : <#> .")) ok_response.

(** The recording is silent: the transcript is empty. *)
Definition silent : World :=
  world None 5 (lit "COMPLETED") [] (inr (lit "@prefix : <#> .")) ok_response.

(** The recording is a cough: the transcript is whitespace. *)
Definition blank : World :=
  world None 5 (lit "COMPLETED") (lit "  ") (inr (lit "@prefix : <#> ."))
        ok_response.

(** The ontology file cannot be opened, and the translation service
    answers 401. *)
Definition failing : World :=
  world None 5 (lit "COMPLETED") (lit "vanakkam")
        (inl (Exc OSError
                (lit "[Errno 2] No such file or directory: './Polyhouse Ontology.ttl'")))
        (HttpResponse 401 (inl (Exc ServiceError []))).

(** A [/translate-to-language] body. *)
Definition to_hindi : result pyval :=
  inr (PDict [ (lit "target_language", PStr (lit "hi")) ]).

(** A [/text-to-speech] body. *)
Definition say_hello : result pyval :=
  inr (PDict [ (lit "text", PStr (lit "Hello"));
               (lit "target_language", PStr (lit "hi")) ]).

(** The state after one successful recording in [fair]. *)
Definition ready : State :=
  (stop_recording fair 3 (Some (lit "ta-IN")) initial_state).2.

(** A state whose upload folder holds one file. *)
Definition with_file (content : Wave.bytes) : State :=
  mkState None None false [] {[ output_file := content ]} 0 [].

(** A file that is not a WAV file, and an empty recording. *)
Definition garbage : State := with_file (Wave.ascii_bytes "RIFF....JUNKdata").
Definition empty_wav : State := with_file (Wave.header 1 2 44100 0).

End Demo.

(** ** More vocabulary *)

(** Events of one kind, for [count]. *)
Definition is_put (e : event) : bool :=
  match e with PutObject _ _ => true | _ => false end.

Definition is_fetch (e : event) : bool :=
  match e with UrlOpen _ => true | _ => false end.

Definition is_generate (e : event) : bool :=
  match e with Generate _ => true | _ => false end.

(** What the body of [if status == "COMPLETED":] makes of a payload. *)
Definition extracted (data : pyval) : outcome pyval :=
  (extract_transcript data initial_state).1.

(** [s] is only whitespace. *)
Definition only_spaces (s : str) : Prop :=
  Forall (fun c => is_space c = true) s.

(** The state [s] with the session text [english]. *)
Definition with_english_text (english : str) (s : State) : State :=
  mkState (current_session_id s) (Some english) (is_recording s)
          (audio_frames s) (files s) (tick s) (trace s).

(** What [process_audio] does with the result [v] of [transcribe_audio],
    from the state [s3] in which that call returned. *)
Definition after_transcription (w : World) (lang : str) (v : pyval)
    (s3 : State) : outcome pyval * State :=
  match usable_text v with
  | inl e => (Val (exception_response e), s3)
  | inr None => (Val (error_response (lit "Transcription failed")), s3)
  | inr (Some text) =>
      match correct_and_translate w text lang s3 with
      | (Val english, s4) =>
          if bool_decide (english = []) then
            (Val (error_response (lit "Translation to English failed")), s4)
          else (Val (success_response text english),
                with_english_text english s4)
      | (Raise e, s4) => (Val (exception_response e), s4)
      | (Timeout, s4) => (Timeout, s4)
      end
  end.

(** *** The translation and speech routes *)

(** [response.json()[0]["translations"][0]["text"]] *)
Definition first_translation (body : pyval) : result pyval :=
  match getitem0 body with
  | inl e => inl e
  | inr item =>
      match getitem item (lit "translations") with
      | inl e => inl e
      | inr translations =>
          match getitem0 translations with
          | inl e => inl e
          | inr translation => getitem translation (lit "text")
          end
      end
  end.

(** What [translate_to_target_language] returns for an answer of the
    translation service. *)
Definition translation_of (answer : result http_response) : pyval :=
  match answer with
  | inl e => PStr (lit "Error: " ++ exc_msg e)
  | inr response =>
      if status_code response =? 200 then
        match json response with
        | inl e => PStr (lit "Error: " ++ exc_msg e)
        | inr body =>
            match first_translation body with
            | inl e => PStr (lit "Error: " ++ exc_msg e)
            | inr text => text
            end
        end
      else PStr (lit "Error: Translation failed.")
  end.

(** The success responses of [/translate-to-language] and of
    [/text-to-speech]. *)
Definition translated_response (translated_text : pyval) (name : str)
  : pyval :=
  PDict [ (lit "status", PStr (lit "success"));
          (lit "translated_text", translated_text);
          (lit "target_language", PStr name) ].

Definition audio_response (url : str) : pyval :=
  PDict [ (lit "status", PStr (lit "success"));
          (lit "audio_url", PStr url) ].

(** The voice of [AZURE_TTS_VOICES] for [code] speaks that language: its
    name begins with the code and a hyphen. *)
Definition has_own_voice (code : str) : bool :=
  match AZURE_TTS_VOICES !! code with
  | Some voice => startswith (code ++ lit "-") voice
  | None => false
  end.

(** *** [/start-recording] *)

(** The state after a recording of the frames [frames] that took [n]
    consultations of the microphone. *)
Definition stopped (frames : list Wave.bytes) (n : nat) (s : State) : State :=
  mkState (current_session_id s) (current_english_text s) false frames
          (files s) (n + tick s) (trace s).

(** The answer of [/start-recording] when the recording was stopped. *)
Definition stopped_response : pyval :=
  PDict [ (lit "status", PStr (lit "success"));
          (lit "message", PStr (lit "Recording stopped successfully.")) ].

(** The microphone delivers [chunks], one for each test of the loop from
    tick [t] on, and the flag is cleared at the next test. *)
Definition delivers (mic : Microphone) (t : nat) (chunks : list Wave.bytes)
  : Prop :=
  (forall i data, chunks !! i = Some data ->
     stop_requested mic (t + 2 * i) = false
     /\ stream_read mic (t + 2 * i + 1) = inr data)
  /\ stop_requested mic (t + 2 * length chunks) = true.

(** ** More worlds *)

Module Scenario.

(** A job in the status [status], with a transcript URI. *)
Definition job_in (status : string) : result job :=
  inr (Job (lit status) (Some (lit "https://s3.amazonaws.com/transcript.json"))
           None).

(** The world given by the answers of its services; the upload succeeds
    and the ontology is readable. *)
Definition services (start : option exc) (jobs : nat -> result job)
    (fetch : result pyval) (answer : result (option str))
    (post : result http_response) (config : option exc)
    (speech : result result_reason) : World :=
  {| bucket_name := Some (lit "recordings");
     uuid4 := fun _ => lit "6fa459ea-ee8a-3ca4-894e-db77e160355e";
     upload_fileobj := fun _ _ _ _ => None;
     start_transcription_job := fun _ _ _ _ => start;
     get_transcription_job := fun t _ => jobs t;
     fetch_transcript := fun _ _ => fetch;
     read_ontology := fun _ => inr (lit "@prefix : <#> .");
     generate_content := fun _ _ => answer;
     requests_post := fun _ _ _ => post;
     speech_config := fun _ => config;
     speak_text := fun _ _ _ _ => speech |}.

(** The job is [IN_PROGRESS] at ticks 1 and 2 and answers [final] from
    tick 3 on. *)
Definition after_two (final : result job) (t : nat) : result job :=
  if (t <? 3)%nat then job_in "IN_PROGRESS" else final.

(** A transcription whose job ends with [final] and whose transcript file
    holds [fetch]. *)
Definition transcribing (final : result job) (fetch : result pyval) : World :=
  services None (after_two final) fetch (inr (Some (lit "ok")))
           (inr Demo.ok_response) None (inr SynthesizingAudioCompleted).

(** The status request is throttled at the third poll. *)
Definition throttled : World :=
  transcribing (inl (Exc ServiceError (lit "ThrottlingException")))
               (inr (Demo.payload (lit "vanakkam"))).

(** The job fails. *)
Definition failed_job : World :=
  transcribing (job_in "FAILED") (inr (Demo.payload (lit "vanakkam"))).

(** A payload with two transcripts, the first padded with spaces. *)
Definition padded_payload : pyval :=
  PDict [ (lit "results",
           PDict [ (lit "transcripts",
                    PList [ PDict [ (lit "transcript", PStr (lit " vanakkam ")) ];
                            PDict [ (lit "transcript", PStr (lit "nandri")) ]
                          ]) ]) ].

(** The job completes with that payload. *)
Definition two_transcripts : World :=
  transcribing (job_in "COMPLETED") (inr padded_payload).

(** The payload has no ["results"]. *)
Definition no_results : World :=
  transcribing (job_in "COMPLETED")
    (inr (PDict [ (lit "jobName", PStr (lit "job")) ])).

(** A translation service that answers with [post]. *)
Definition translating (post : result http_response) : World :=
  services None (after_two (job_in "COMPLETED"))
           (inr (Demo.payload (lit "vanakkam"))) (inr (Some (lit "ok")))
           post None (inr SynthesizingAudioCompleted).

(** A model that answers with [answer]. *)
Definition answering (answer : result (option str)) : World :=
  services None (after_two (job_in "COMPLETED"))
           (inr (Demo.payload (lit "vanakkam"))) answer
           (inr Demo.ok_response) None (inr SynthesizingAudioCompleted).

(** A state with the session text [text]. *)
Definition with_text (text : str) : State :=
  mkState (Some (lit "6fa459ea-ee8a-3ca4-894e-db77e160355e")) (Some text)
          false [] ∅ 0 [].

End Scenario.

Module Studio.

(** A microphone that delivers the same chunk until the flag is cleared
    at tick [stop]. *)
Definition microphone (chunk : result Wave.bytes) (stop : nat)
    (opening : option exc) : Microphone :=
  {| py_audio := fun _ => None;
     open_stream := fun _ => opening;
     stream_read := fun _ => chunk;
     stop_stream := fun _ => None;
     close_stream := fun _ => None;
     terminate := fun _ => None;
     stop_requested := fun t => (stop <=? t)%nat |}.

(** Two frames of 16-bit audio. *)
Definition sample : Wave.bytes := Wave.ascii_bytes "abcd".

(** A session with an earlier recording. *)
Definition earlier : State :=
  mkState (Some (lit "6fa459ea-ee8a-3ca4-894e-db77e160355e"))
          (Some (lit "Water the plants.")) false [Wave.ascii_bytes "old"]
          ∅ 0 [].

End Studio.

(** * Properties *)

(** ** The [wave] module *)

(** The file written for an empty frame buffer opens, with no frames. *)
Example wave_empty_recording :
  Wave.initfp (Wave.write 1 2 44100 []).2 = Wave.Opened (Wave.Params 1 2 44100 0).
Proof. vm_compute. reflexivity. Qed.

(** [struct.unpack] undoes [struct.pack] on a 32-bit field. *)
Lemma Z_of_byte_of_Z z : Wave.Z_of_byte (Wave.byte_of_Z z) = z mod 256.
Proof.
  unfold Wave.Z_of_byte, Wave.byte_of_Z.
  assert (H : (Z.to_N (z mod 256) <= 255)%N).
  { pose proof (Z.mod_pos_bound z 256). lia. }
  destruct (Byte.of_N (Z.to_N (z mod 256))) as [b|] eqn:Hb.
  - cbn. apply Byte.to_of_N in Hb. rewrite Hb.
    pose proof (Z.mod_pos_bound z 256). lia.
  - apply Byte.of_N_None_iff in Hb. lia.
Qed.

Lemma unpack_pack_le4 v :
  0 <= v < 4294967296 -> Wave.unpack_le (Wave.pack_le 4 v) = v.
Proof.
  intros Hv. cbn [Wave.pack_le Wave.unpack_le].
  rewrite !Z_of_byte_of_Z, !Z.shiftr_div_pow2, !Z.shiftl_mul_pow2 by lia.
  change (2 ^ 8) with 256.
  Z.div_mod_to_equations. lia.
Qed.

Arguments Wave.error : simpl never.

(** A read that stays inside the chunk and inside the file returns the
    bytes asked for and moves [size_read] by their number. *)
Lemma length_slice (b : list byte) from len :
  0 <= from -> 0 <= len -> from + len <= Z.of_nat (length b) ->
  Z.of_nat (length (Wave.slice b from len)) = len.
Proof.
  intros. unfold Wave.slice. rewrite length_take, length_drop. lia.
Qed.

Lemma read_fits size c :
  0 <= size -> 0 <= Wave.size_read c ->
  Wave.size_read c + size <= Wave.chunksize c ->
  (Wave.size_read c + size = Wave.chunksize c ->
   Z.odd (Wave.chunksize c) = false) ->
  Wave.size_read c + size <= Z.of_nat (length (Wave.body c)) ->
  Wave.read size c
  = (Wave.slice (Wave.body c) (Wave.size_read c) size,
     Wave.Chunk (Wave.body c) (Wave.chunksize c) (Wave.size_read c + size)).
Proof.
  intros Hsize Hpos Hfit Hodd Hlen. unfold Wave.read.
  destruct (Z.geb_spec (Wave.size_read c) (Wave.chunksize c)) as [Hge|Hlt].
  - assert (size = 0) as -> by lia.
    unfold Wave.slice. cbn. destruct c; cbn. f_equal. f_equal. lia.
  - rewrite Z.min_l by lia. rewrite length_slice by lia.
    destruct (Z.eqb_spec (Wave.size_read c + size) (Wave.chunksize c))
      as [He|Hne].
    + rewrite Hodd by done. done.
    + done.
Qed.

(** Reading back a header written for mono, 16-bit, 44.1 kHz audio. *)
Lemma header_parts len :
  Wave.header 1 2 44100 len
  = riff ++ Wave.pack_le 4 (36 + len) ++ fmt_part ++ Wave.pack_le 4 len.
Proof. reflexivity. Qed.

(** Replace a closed subterm by its value. *)
Ltac eval_closed t :=
  let v := eval vm_compute in t in change t with v.

Lemma initfp_parts a0 a1 a2 a3 d0 d1 d2 d3 data len :
  len = Z.of_nat (length data) ->
  Wave.unpack_le [a0; a1; a2; a3] = 36 + len ->
  Wave.unpack_le [d0; d1; d2; d3] = len ->
  Wave.initfp
    (riff ++ [a0; a1; a2; a3] ++ fmt_part ++ [d0; d1; d2; d3] ++ data)
  = Wave.Opened (Wave.Params 1 2 44100 (len / 2)).
Proof.
  intros Hlen Ha Hd.
  set (b := fmt_part ++ [d0; d1; d2; d3] ++ data).
  unfold Wave.initfp, riff.
  cbn [app take drop length Nat.ltb Nat.leb firstn skipn].
  rewrite take_0, drop_0, Ha.
  assert (Hb : Z.of_nat (length b) = 36 + len).
  { unfold b. rewrite !length_app. cbn [length fmt_part]. lia. }
  assert (Hfuel : exists fuel, length b = S (S fuel)).
  { unfold b, fmt_part. cbn [app length]. eauto. }
  destruct Hfuel as [fuel Hfuel].
  assert (Hodd : forall pos,
            pos <= 36 -> pos = 36 + len -> Z.odd (36 + len) = false).
  { intros pos Hle Heq. assert (len = 0) as -> by lia. reflexivity. }
  assert (Hread : forall pos size, 0 <= pos -> 0 <= size -> pos + size <= 36 ->
            Wave.read size (Wave.Chunk b (36 + len) pos)
            = (Wave.slice b pos size, Wave.Chunk b (36 + len) (pos + size))).
  { intros pos size Hp Hs Hfit.
    rewrite read_fits; cbn [Wave.size_read Wave.chunksize Wave.body];
      [done|lia|lia|lia|apply Hodd; lia|lia]. }
  eval_closed (Wave.bytes_eqb ["R"%byte; "I"%byte; "F"%byte; "F"%byte]
                 (Wave.ascii_bytes "RIFF")).
  cbv beta iota.
  rewrite Hread by lia. eval_closed (Wave.slice b 0 4).
  eval_closed (Wave.bytes_eqb ["W"%byte; "A"%byte; "V"%byte; "E"%byte]
                 (Wave.ascii_bytes "WAVE")).
  cbv beta iota. cbn [Wave.body]. rewrite Hfuel. cbn [Wave.chunks].
  rewrite Hread by lia. eval_closed (Wave.slice b (0 + 4) 4).
  rewrite Hread by lia. eval_closed (Wave.slice b (0 + 4 + 4) 4).
  cbv beta iota. cbn [negb length Nat.ltb Nat.leb].
  eval_closed (Wave.bytes_eqb ["f"%byte; "m"%byte; "t"%byte; " "%byte]
                 (Wave.ascii_bytes "fmt ")).
  eval_closed (Wave.unpack_le ["016"%byte; "000"%byte; "000"%byte; "000"%byte]).
  cbv beta iota.
  unfold Wave.read_fmt_chunk, Wave.skip, Wave.seek_cur.
  eval_closed (Z.min 14 16). eval_closed (Z.min 2 (16 - 14)).
  rewrite Hread by lia. eval_closed (Wave.slice b (0 + 4 + 4 + 4) 14).
  cbv beta iota. cbn [negb length Nat.ltb Nat.leb take drop firstn skipn].
  eval_closed (Wave.unpack_le ["001"%byte; "000"%byte]).
  eval_closed (1 =? Wave.WAVE_FORMAT_PCM).
  cbv beta iota.
  rewrite Hread by lia. eval_closed (Wave.slice b (0 + 4 + 4 + 4 + 14) 2).
  cbv beta iota. cbn [negb length Nat.ltb Nat.leb].
  eval_closed ((Wave.unpack_le ["016"%byte; "000"%byte] + 7) `div` 8 =? 0).
  eval_closed (1 =? 0).
  eval_closed ((Wave.unpack_le ["016"%byte; "000"%byte] + 7) `div` 8).
  eval_closed (Wave.unpack_le ["D"%byte; "172"%byte; "000"%byte; "000"%byte]).
  cbv beta iota. cbn [Wave.size_read Wave.chunksize Wave.body].
  eval_closed
    (16 - 16 + (if Z.odd 16 then 1 else 0) + (0 + 4 + 4 + 4 + 14 + 2)).
  destruct (Z.gtb_spec 28 (36 + len)) as [Hgt|_]; [lia|].
  rewrite Hread by lia. eval_closed (Wave.slice b 28 4).
  rewrite Hread by lia. eval_closed (Wave.slice b (28 + 4) 4).
  cbv beta iota. cbn [negb length Nat.ltb Nat.leb].
  eval_closed (Wave.bytes_eqb ["d"%byte; "a"%byte; "t"%byte; "a"%byte]
                 (Wave.ascii_bytes "fmt ")).
  eval_closed (Wave.bytes_eqb ["d"%byte; "a"%byte; "t"%byte; "a"%byte]
                 (Wave.ascii_bytes "data")).
  cbv beta iota. rewrite Hd. reflexivity.
Qed.

(** Every recording short enough for the 32-bit length fields is written
    without an exception and opens again, with half as many frames as it
    has bytes. *)
Lemma write_read data :
  36 + Z.of_nat (length data) <= 4294967295 ->
  Wave.write 1 2 44100 data
  = (None, Wave.header 1 2 44100 (Z.of_nat (length data)) ++ data)
  /\ Wave.initfp (Wave.write 1 2 44100 data).2
     = Wave.Opened (Wave.Params 1 2 44100 (Z.of_nat (length data) / 2)).
Proof.
  intros Hlen.
  assert (Hw : Wave.write 1 2 44100 data
               = (None, Wave.header 1 2 44100 (Z.of_nat (length data)) ++ data)).
  { unfold Wave.write.
    set (len := Z.of_nat (length data)) in *.
    change (2 * 1) with 2.
    assert (Hdl : 0 <= len `div` 2 * 1 * 2 <= len).
    { pose proof (Z.mul_div_le len 2). pose proof (Z.div_pos len 2). lia. }
    destruct (Z.gtb_spec (36 + len `div` 2 * 1 * 2) 4294967295); [lia|].
    destruct (Z.eqb_spec (len `div` 2 * 1 * 2) len) as [->|Hne]; [done|].
    destruct (Z.gtb_spec (36 + len) 4294967295); [lia|done]. }
  split; [done|]. rewrite Hw. cbn [snd].
  rewrite header_parts, <- !app_assoc.
  cbn [Wave.pack_le].
  apply initfp_parts;
    [done|apply (unpack_pack_le4 (36 + _))|apply (unpack_pack_le4 _)]; lia.
Qed.

(** ** States and the record of calls *)

Lemma advance_advance n m evs evs' s :
  advance n evs (advance m evs' s) = advance (n + m) (evs' ++ evs) s.
Proof.
  unfold advance; cbn. f_equal; [lia | by rewrite app_assoc].
Qed.

Lemma advance_0_nil s : advance 0 [] s = s.
Proof. destruct s; unfold advance; cbn. by rewrite app_nil_r. Qed.

Lemma since_advance n evs s : since s (advance n evs s) = evs.
Proof. unfold since; cbn. by rewrite drop_app_length. Qed.

Lemma stages_app a b : stages (a ++ b) = stages a ++ stages b.
Proof. apply omap_app. Qed.

Lemma stages_enter f evs : stages (Enter f :: evs) = f :: stages evs.
Proof. reflexivity. Qed.

(** Symbolic execution of a monadic computation. *)
Ltac run :=
  repeat progress
    (unfold open_rb, mbind, mret, M_bind, M_ret, raise, timeout, of_result,
       get_state, emit, ask, set_current_session_id,
       set_current_english_text, set_is_recording, set_file, try_except,
       try_except_class in *;
     cbn [fst snd files trace tick current_session_id current_english_text
          is_recording audio_frames advance Nat.add negb] in *).

(** Two states that differ by reassociation of the clock and the trace. *)
Ltac state_eq :=
  unfold advance; run; f_equal; try lia;
  rewrite <- ?app_assoc; reflexivity.

Section Stages.

Context (w : World).

(** *** [validate_wav_file] *)

Lemma validate_wav_file_eq path s :
  validate_wav_file path s
  = (validate_outcome (files s !! path) path, advance 0 [Enter Validate] s).
Proof.
  unfold validate_wav_file, validate_outcome. run.
  destruct (files s !! path) as [content|]; run; [|done].
  destruct (Wave.initfp content) as [p|e]; run; [done|].
  by destruct (bool_decide (exc_cls e = WaveError)).
Qed.

(** *** [upload_to_s3] *)

Lemma upload_to_s3_eq path bucket key s :
  upload_to_s3 w path bucket key s
  = match files s !! path with
    | None => (Val false, advance 0 [Enter Upload] s)
    | Some data =>
        (Val (bool_decide (upload_fileobj w (tick s) data bucket key = None)),
         advance 1 [Enter Upload; PutObject bucket key] s)
    end.
Proof.
  unfold upload_to_s3. run.
  destruct (files s !! path) as [data|]; run; [|done].
  rewrite <- app_assoc. cbn [app].
  by destruct (upload_fileobj w (tick s) data bucket key).
Qed.

(** *** [transcribe_audio] *)

(** Decoding the transcript leaves the state alone and always finishes. *)
Lemma extract_transcript_pure data s :
  exists r, extract_transcript data s = (r, s) /\ r <> Timeout.
Proof.
  unfold extract_transcript. run.
  repeat (match goal with
          | |- context [py_in ?a ?b] => destruct (py_in a b); run
          | |- context [getitem ?a ?b] => destruct (getitem a b); run
          | |- context [getitem0 ?a] => destruct (getitem0 a); run
          | |- context [truthy ?a] => destruct (truthy a); run
          | |- context [negb ?b] => destruct b; run
          end);
    eexists; (split; [reflexivity|discriminate]).
Qed.

Lemma poll_waiting n : forall fuel job_name s,
  (forall i, (i < n)%nat ->
     exists j, get_transcription_job w (i + tick s) job_name = inr j
               /\ nonterminal (job_status j)) ->
  poll w (n + fuel) job_name s
  = poll w fuel job_name (advance n (waiting n job_name) s).
Proof.
  induction n as [|n IH]; intros fuel job_name s Hwait.
  - cbn [Nat.add waiting]. by rewrite advance_0_nil.
  - destruct (Hwait 0%nat) as (j & Hj & Hc & Hf); [lia|].
    cbn [Nat.add] in Hj. cbn [Nat.add poll waiting]. run.
    rewrite Hj. run. rewrite Hc, Hf. run.
    match goal with
    | |- poll w _ _ ?s1 = _ => rewrite (IH fuel job_name s1)
    end.
    + f_equal. state_eq.
    + intros i Hi. run.
      destruct (Hwait (S i)) as (j' & Hj' & Hn'); [lia|].
      exists j'. split; [|done]. rewrite <- Hj'. f_equal. lia.
Qed.

Lemma poll_terminal fuel job_name s j :
  get_transcription_job w (tick s) job_name = inr j ->
  terminal (job_status j) ->
  exists r k tail,
    poll w (S fuel) job_name s = (r, advance k (GetJob job_name :: tail) s)
    /\ r <> Timeout
    /\ (tail = [] \/ exists uri, tail = [UrlOpen uri])
    /\ (job_status j = lit "FAILED" -> r = Val PNone /\ tail = []).
Proof.
  intros Hj Hterm. cbn [poll]. run. rewrite Hj. run.
  assert (Hne : lit "COMPLETED" <> lit "FAILED") by (vm_compute; discriminate).
  destruct Hterm as [Hs|Hs]; rewrite Hs.
  - replace (eqb (lit "COMPLETED") (lit "COMPLETED")) with true by done.
    destruct (transcript_file_uri j) as [uri|]; run.
    + destruct (fetch_transcript w (S (tick s)) uri) as [e|data]; run.
      * exists (Raise e), 2%nat, [UrlOpen uri].
        split; [by rewrite <- app_assoc|].
        split; [done|]. split; [right; by exists uri|done].
      * match goal with
        | |- context [extract_transcript data ?s1] =>
            destruct (extract_transcript_pure data s1) as (r & Hr & Hnt)
        end.
        rewrite Hr. exists r, 2%nat, [UrlOpen uri].
        split; [by rewrite <- app_assoc|].
        split; [done|]. split; [right; by exists uri|done].
    + eexists _, 1%nat, []. split; [reflexivity|].
      split; [done|]. split; [by left|done].
  - replace (eqb (lit "FAILED") (lit "COMPLETED")) with false by done.
    replace (eqb (lit "FAILED") (lit "FAILED")) with true by done.
    eexists _, 1%nat, []. split; [reflexivity|].
    split; [done|]. split; [by left|done].
Qed.

Lemma count_app f a b : count f (a ++ b) = (count f a + count f b)%nat.
Proof. unfold count. by rewrite List.filter_app, length_app. Qed.

Lemma count_waiting n job_name :
  count is_poll (waiting n job_name) = n
  /\ count is_sleep (waiting n job_name) = n
  /\ stages (waiting n job_name) = [].
Proof.
  induction n as [|n (IH1 & IH2 & IH3)]; [done|].
  unfold count in *. cbn. rewrite IH1, IH2. done.
Qed.

(** The loop gives up only for lack of fuel, and touches nothing but the
    clock and the record of calls. *)
Lemma poll_frame fuel : forall job_name s,
  exists r n evs,
    poll w fuel job_name s = (r, advance n evs s) /\ stages evs = [].
Proof.
  induction fuel as [|fuel IH]; intros job_name s.
  - exists Timeout, 0%nat, []. by rewrite advance_0_nil.
  - cbn [poll]. run.
    destruct (get_transcription_job w (tick s) job_name) as [e|j]; run.
    { exists (Raise e), 1%nat, [GetJob job_name]. done. }
    destruct (eqb (job_status j) (lit "COMPLETED")).
    + destruct (transcript_file_uri j) as [uri|]; run.
      * destruct (fetch_transcript w (S (tick s)) uri) as [e|data]; run.
        -- exists (Raise e), 2%nat, [GetJob job_name; UrlOpen uri].
           by rewrite <- app_assoc.
        -- match goal with
           | |- context [extract_transcript data ?s1] =>
               destruct (extract_transcript_pure data s1) as (r & Hr & _)
           end.
           rewrite Hr. exists r, 2%nat, [GetJob job_name; UrlOpen uri].
           by rewrite <- app_assoc.
      * eexists _, 1%nat, [GetJob job_name]. done.
    + destruct (eqb (job_status j) (lit "FAILED")); run.
      * eexists _, 1%nat, [GetJob job_name]. done.
      * match goal with
        | |- context [poll w fuel job_name ?s1] =>
            destruct (IH job_name s1) as (r & n & evs & Hr & Hq)
        end.
        rewrite Hr. exists r, (n + 1)%nat, ([GetJob job_name; Sleep 5] ++ evs).
        split; [|by rewrite stages_app, Hq].
        f_equal. state_eq.
Qed.

Lemma transcribe_audio_frame fuel job_name uri lang s :
  exists r n evs,
    transcribe_audio w fuel job_name uri lang s
    = (r, advance n (Enter Transcribe :: evs) s)
    /\ stages evs = []
    /\ (r = Timeout \/ exists v, r = Val v).
Proof.
  unfold transcribe_audio. run.
  destruct (start_transcription_job w (tick s) job_name uri lang) as [e|]; run.
  { exists (Val PNone), 1%nat, [StartJob job_name uri lang].
    rewrite <- app_assoc. split; [done|]. split; [done|]. right; by eexists. }
  match goal with
  | |- context [poll w fuel job_name ?s1] =>
      destruct (poll_frame fuel job_name s1) as (r & n & evs & Hr & Hq)
  end.
  rewrite Hr.
  assert (Hs : advance n evs
                 (mkState (current_session_id s) (current_english_text s)
                    (is_recording s) (audio_frames s) (files s) (S (tick s))
                    ((trace s ++ [Enter Transcribe])
                     ++ [StartJob job_name uri lang]))
               = advance (n + 1)
                   (Enter Transcribe :: StartJob job_name uri lang :: evs) s).
  { state_eq. }
  destruct r as [v|e|]; run; rewrite Hs.
  - exists (Val v), (n + 1)%nat, (StartJob job_name uri lang :: evs).
    split; [done|]. split; [done|]. right; by eexists.
  - exists (Val PNone), (n + 1)%nat, (StartJob job_name uri lang :: evs).
    split; [done|]. split; [done|]. right; by eexists.
  - exists Timeout, (n + 1)%nat, (StartJob job_name uri lang :: evs).
    split; [done|]. split; [done|]. by left.
Qed.

(** *** [correct_and_translate] *)

Lemma correct_and_translate_spec text lang s :
  exists r n evs,
    correct_and_translate w text lang s
    = (Val r, advance n (Enter Correct :: evs) s)
    /\ stages evs = []
    /\ match read_ontology w (tick s) with
       | inl e => r = lit "Error: " ++ exc_msg e /\ evs = [OpenOntology]
       | inr onto =>
           let prompt := build_prompt onto text lang in
           evs = [OpenOntology; Generate prompt]
           /\ match generate_content w (S (tick s)) prompt with
              | inl e => r = lit "Error: " ++ exc_msg e
              | inr None => r = lit "Error: No valid translation received."
              | inr (Some answer) => r = strip answer
              end
       end.
Proof.
  unfold correct_and_translate. run.
  destruct (read_ontology w (tick s)) as [e|onto]; run.
  { eexists _, 1%nat, _. split; [f_equal; state_eq|done]. }
  destruct (generate_content w (S (tick s)) (build_prompt onto text lang))
    as [e|[answer|]]; run;
    (eexists _, 2%nat, _; split; [f_equal; state_eq|done]).
Qed.

(** *** [translate_to_target_language] *)

Lemma translate_to_target_language_spec text target s :
  exists r,
    translate_to_target_language w text target s
    = (Val r, advance 1 [Enter Translate; Post text target] s)
    /\ match requests_post w (tick s) text target with
       | inl e => r = PStr (lit "Error: " ++ exc_msg e)
       | inr response =>
           status_code response <> 200 ->
           r = PStr (lit "Error: Translation failed.")
       end.
Proof.
  unfold translate_to_target_language. run.
  destruct (requests_post w (tick s) text target) as [e|response]; run.
  { eexists. split; [f_equal; state_eq|done]. }
  destruct (Z.eqb_spec (status_code response) 200) as [Heq|Hne]; run.
  - repeat (match goal with
            | |- context [json ?a] => destruct (json a); run
            | |- context [getitem ?a ?b] => destruct (getitem a b); run
            | |- context [getitem0 ?a] => destruct (getitem0 a); run
            end);
      (eexists; split; [f_equal; state_eq|done]).
  - eexists. split; [f_equal; state_eq|done].
Qed.

(** *** [text_to_speech] *)

Lemma text_to_speech_spec text target s :
  exists r n evs,
    text_to_speech w text target s
    = (Val r, advance n (Enter Synthesize :: evs) s)
    /\ stages evs = [] /\ posted evs = []
    /\ match speech_config w (tick s),
             table_get AZURE_TTS_VOICES target (lit "en-US-Aria") with
       | None, inr voice =>
           let audio_filename :=
             lit "output_" ++ uuid4 w (S (tick s)) ++ lit ".wav" in
           let audio_path := path_join AUDIO_OUTPUT_FOLDER audio_filename in
           evs = [Speak voice audio_path text]
           /\ match speak_text w (S (S (tick s))) voice audio_path text with
              | inr SynthesizingAudioCompleted =>
                  r = Some (lit "/static/audio/" ++ audio_filename)
              | _ => r = None
              end
       | _, _ => r = None /\ evs = []
       end.
Proof.
  unfold text_to_speech. run.
  destruct (speech_config w (tick s)) as [e|]; run.
  { eexists _, 1%nat, _. split; [f_equal; state_eq|done]. }
  destruct (table_get AZURE_TTS_VOICES target (lit "en-US-Aria"))
    as [e|voice]; run.
  { eexists _, 1%nat, _. split; [f_equal; state_eq|done]. }
  match goal with
  | |- context [speak_text w ?t ?v ?p ?x] =>
      destruct (speak_text w t v p x) as [e|[| |]]; run
  end;
    (eexists _, 3%nat, _; split; [f_equal; state_eq|done]).
Qed.

(** *** [process_audio] *)

Lemma process_audio_run fuel path lang s :
  exists r s' called,
    process_audio w fuel path lang s = (r, s')
    /\ run_kind w fuel path lang s r s' called.
Proof.
  unfold process_audio. run.
  destruct (validate_wav_file path s) as [v s1] eqn:Hv.
  pose proof (validate_wav_file_eq path s) as Hv'. rewrite Hv in Hv'.
  injection Hv' as -> ->.
  destruct (validate_outcome (files s !! path) path) as [[|]|e|] eqn:Ho; run.
  2:{ eexists _, _, _. split; [reflexivity|].
      apply StopsAtValidate. rewrite Hv. done. }
  2:{ eexists _, _, _. split; [reflexivity|].
      apply StopsAtValidate. rewrite Hv. done. }
  2:{ unfold validate_outcome in Ho.
      destruct (files s !! path) as [c|]; [|done].
      destruct (Wave.initfp c) as [|e]; [done|].
      by destruct (bool_decide (exc_cls e = WaveError)). }
  match goal with
  | |- context [upload_to_s3 w path ?b ?k ?s1] =>
      assert (Hs1 : s1 = at_upload w s) by (unfold at_upload, started; state_eq);
      destruct (upload_to_s3 w path b k s1) as [u s2] eqn:Hu
  end.
  assert (Hu' := Hu). rewrite upload_to_s3_eq in Hu'. run.
  rewrite Hs1 in Hu. fold (object_key w s) in Hu.
  assert (Hup : exists n evs, stages evs = [Validate; Upload]
            /\ s2 = started (uuid4 w (tick s)) n evs s
            /\ exists b, u = Val b).
  { destruct (files s !! path) as [data|]; injection Hu' as <- <-.
    - exists 2%nat, [Enter Validate; Enter Upload;
                      PutObject (bucket_name w) (uuid4 w (tick s) ++ lit ".wav")].
      split; [done|]. split; [unfold started; state_eq|by eexists].
    - exists 1%nat, [Enter Validate; Enter Upload].
      split; [done|]. split; [unfold started; state_eq|by eexists]. }
  clear Hu'. destruct Hup as (n & evs & Hst & -> & [b ->]).
  destruct b; run.
  2:{ eexists _, _, _. split; [reflexivity|].
      apply StopsAtUpload; [by rewrite Hv|by rewrite Hu|done]. }
  match goal with
  | |- context [transcribe_audio w fuel ?j ?u ?l ?s1] =>
      destruct (transcribe_audio_frame fuel j u l s1)
        as (r & n2 & evs2 & Hr & Hq & Hres)
  end.
  rewrite Hr.
  assert (Hs3 : advance n2 (Enter Transcribe :: evs2)
                  (started (uuid4 w (tick s)) n evs s)
                = started (uuid4 w (tick s)) (n2 + n)
                    (evs ++ Enter Transcribe :: evs2) s)
    by (unfold started; state_eq).
  rewrite Hs3.
  assert (Hst3 : stages (evs ++ Enter Transcribe :: evs2)
                 = [Validate; Upload; Transcribe]).
  { by rewrite stages_app, Hst, stages_enter, Hq. }
  destruct Hres as [->|[v ->]]; run.
  { eexists _, _, _. split; [reflexivity|].
    apply StopsAtTranscribe; [by rewrite Hv|by rewrite Hu|done|by left]. }
  destruct (usable_text v) as [e|[text|]]; run.
  { eexists _, _, _. split; [reflexivity|].
    apply StopsAtTranscribe; [by rewrite Hv|by rewrite Hu|done|].
    right; right; by eexists. }
  2:{ eexists _, _, _. split; [reflexivity|].
      apply StopsAtTranscribe; [by rewrite Hv|by rewrite Hu|done|].
      right; by left. }
  match goal with
  | |- context [correct_and_translate w text lang ?s1] =>
      destruct (correct_and_translate_spec text lang s1)
        as (eng & n4 & evs4 & Hc & Hq4 & _)
  end.
  rewrite Hc.
  assert (Hst4 : stages ((evs ++ Enter Transcribe :: evs2)
                         ++ Enter Correct :: evs4)
                 = [Validate; Upload; Transcribe; Correct]).
  { by rewrite stages_app, Hst3, stages_enter, Hq4. }
  destruct (bool_decide_reflect (eng = [])) as [->|Hne]; run.
  - eexists _, _, _. split; [|apply StopsAtCorrect with
        (n := (n4 + (n2 + n))%nat)
        (evs := (evs ++ Enter Transcribe :: evs2) ++ Enter Correct :: evs4);
        [by rewrite Hv|by rewrite Hu|done]].
    f_equal. unfold started. state_eq.
  - eexists _, _, _. split; [|apply Succeeds with
        (n := (n4 + (n2 + n))%nat)
        (evs := (evs ++ Enter Transcribe :: evs2) ++ Enter Correct :: evs4);
        [by rewrite Hv|by rewrite Hu|done|exact Hne]].
    f_equal. unfold finished, started. state_eq.
Qed.

Lemma since_started sid n evs s : since s (started sid n evs s) = evs.
Proof. unfold since; cbn. by rewrite drop_app_length. Qed.

Lemma since_finished sid eng n evs s :
  since s (finished sid eng n evs s) = evs.
Proof. unfold since; cbn. by rewrite drop_app_length. Qed.

(** What a run records is the list of stages of its kind. *)
Lemma run_kind_stages fuel path lang s r s' called :
  run_kind w fuel path lang s r s' called -> stages (since s s') = called.
Proof.
  destruct 1; rewrite ?since_advance, ?since_started, ?since_finished; done.
Qed.

(** [process_audio] never raises, and never touches the files, the frame
    buffer or the recording flag. *)
Lemma run_kind_frame fuel path lang s r s' called :
  run_kind w fuel path lang s r s' called ->
  files s' = files s /\ audio_frames s' = audio_frames s
  /\ is_recording s' = is_recording s
  /\ (r = Timeout \/ exists v, r = Val v).
Proof.
  destruct 1 as [r Hr| | n evs r ? ? ? Hr | |]; repeat split; try done;
    try (right; by eexists).
  - destruct ((validate_wav_file path s).1) as [[|]|e|]; try done;
      subst r; right; by eexists.
  - destruct Hr as [->|[->|[e ->]]]; [by left|right..]; by eexists.
Qed.

(** *** [stop_recording] *)

Lemma stop_recording_eq fuel form_lang s :
  stop_recording w fuel form_lang s
  = match (recording s).1 with
    | Some e => (Val (exception_response e), recorded s)
    | None =>
        process_audio w fuel output_file (default (lit "te-IN") form_lang)
          (recorded s)
    end.
Proof.
  unfold stop_recording. run. fold output_file. fold (recording s).
  fold (recorded s).
  destruct ((recording s).1) as [e|]; run; [done|].
  destruct (process_audio_run fuel output_file
              (default (lit "te-IN") form_lang) (recorded s))
    as (r & s' & called & Hrun & Hkind).
  rewrite Hrun.
  destruct (run_kind_frame _ _ _ _ _ _ _ Hkind) as (_ & _ & _ & [->|[v ->]]);
    done.
Qed.

End Stages.

Lemma getitem_in v k x : getitem v k = inr x -> py_in k v = inr true.
Proof.
  destruct v; try discriminate. unfold getitem, py_in.
  destruct (dict_lookup k d) as [y|] eqn:Hk.
  - intros _. f_equal; apply bool_decide_eq_true; by eexists.
  - discriminate.
Qed.

Lemma getitem0_truthy v x : getitem0 v = inr x -> truthy v = true.
Proof. destruct v as [| | |[|c s]|[|y l]|]; try discriminate; done. Qed.

Lemma extract_first_transcript data text s :
  first_transcript data = inr text ->
  extract_transcript data s = (Val (if truthy text then text else PNone), s).
Proof.
  unfold first_transcript, extract_transcript. intros H.
  destruct (getitem data (lit "results")) as [|results] eqn:H1; [done|].
  destruct (getitem results (lit "transcripts")) as [|ts] eqn:H2; [done|].
  destruct (getitem0 ts) as [|first] eqn:H3; [done|].
  rewrite (getitem_in _ _ _ H1). run. rewrite ?H1. run.
  rewrite (getitem_in _ _ _ H2). run. rewrite ?H2. run.
  rewrite (getitem0_truthy _ _ H3). run. rewrite ?H3. run.
  rewrite ?H. run. by destruct (truthy text).
Qed.

Section Transcription.
Context (w : World).

(** A run of [transcribe_audio] whose job reaches a terminal status at
    poll [n]. *)
Lemma transcribe_audio_terminal fuel job_name uri lang s n j :
  start_transcription_job w (tick s) job_name uri lang = None ->
  (forall i, (i < n)%nat ->
     exists ji, get_transcription_job w (i + S (tick s)) job_name = inr ji
                /\ nonterminal (job_status ji)) ->
  get_transcription_job w (n + S (tick s)) job_name = inr j ->
  terminal (job_status j) ->
  (n < fuel)%nat ->
  exists v k tail,
    transcribe_audio w fuel job_name uri lang s
    = (Val v,
       advance k (Enter Transcribe :: StartJob job_name uri lang
                  :: waiting n job_name ++ GetJob job_name :: tail) s)
    /\ (tail = [] \/ exists u, tail = [UrlOpen u])
    /\ (job_status j = lit "FAILED" -> v = PNone /\ tail = [])
    /\ (forall u data, job_status j = lit "COMPLETED" ->
        transcript_file_uri j = Some u ->
        fetch_transcript w (S (n + S (tick s))) u = inr data ->
        forall text, first_transcript data = inr text ->
        v = (if truthy text then text else PNone)).
Proof.
  intros Hstart Hwait Hj Hterm Hfuel.
  unfold transcribe_audio. run. rewrite Hstart. run.
  replace fuel with (n + S (fuel - S n))%nat by lia.
  match goal with
  | |- context [poll w _ job_name ?s1] => set (s1' := s1)
  end.
  rewrite (poll_waiting w n (S (fuel - S n)) job_name s1') by exact Hwait.
  set (s2 := advance n (waiting n job_name) s1').
  assert (Hj2 : get_transcription_job w (tick s2) job_name = inr j) by exact Hj.
  destruct (poll_terminal w (fuel - S n) job_name s2 j Hj2 Hterm)
    as (r & k & tail & Hp & Hnt & Htail & Hfail).
  assert (Hst : forall k' tl, advance k' (GetJob job_name :: tl) s2
            = advance (k' + n + 1)
                (Enter Transcribe :: StartJob job_name uri lang
                 :: waiting n job_name ++ GetJob job_name :: tl) s).
  { intros k' tl. unfold s2, s1', advance. run. f_equal; [lia|].
    rewrite <- !app_assoc. reflexivity. }
  assert (Hcompleted : forall u data, job_status j = lit "COMPLETED" ->
        transcript_file_uri j = Some u ->
        fetch_transcript w (S (n + S (tick s))) u = inr data ->
        forall text, first_transcript data = inr text ->
        r = Val (if truthy text then text else PNone)).
  { intros u data Hs Hu Hf text Hft.
    revert Hp. cbn [poll]. run. rewrite Hj2. run. rewrite Hs.
    replace (eqb (lit "COMPLETED") (lit "COMPLETED")) with true by done.
    rewrite Hu. run.
    replace (tick s2) with (n + S (tick s))%nat by done.
    rewrite Hf. run. rewrite (extract_first_transcript _ _ _ Hft).
    by intros [= <- _]. }
  rewrite Hp, Hst.
  destruct r as [v|e|]; [| |done]; run.
  - exists v, (k + n + 1)%nat, tail. split; [done|]. split; [done|].
    split.
    + intros Hs. destruct (Hfail Hs) as [[= ->] ->]. done.
    + intros u data Hs Hu Hf text Hft.
      specialize (Hcompleted u data Hs Hu Hf text Hft). by injection Hcompleted.
  - exists PNone, (k + n + 1)%nat, tail. split; [done|]. split; [done|].
    split.
    + intros Hs. destruct (Hfail Hs) as [[=] _].
    + intros u data Hs Hu Hf text Hft.
      specialize (Hcompleted u data Hs Hu Hf text Hft). done.
Qed.

Lemma transcribe_audio_starved fuel job_name uri lang s n :
  start_transcription_job w (tick s) job_name uri lang = None ->
  (forall i, (i < n)%nat ->
     exists ji, get_transcription_job w (i + S (tick s)) job_name = inr ji
                /\ nonterminal (job_status ji)) ->
  (fuel <= n)%nat ->
  (transcribe_audio w fuel job_name uri lang s).1 = Timeout.
Proof.
  intros Hstart Hwait Hfuel.
  unfold transcribe_audio. run. rewrite Hstart. run.
  match goal with
  | |- context [poll w _ job_name ?s1] => set (s1' := s1)
  end.
  replace fuel with (fuel + 0)%nat by lia.
  rewrite (poll_waiting w fuel 0 job_name s1').
  - done.
  - intros i Hi. apply Hwait. lia.
Qed.

End Transcription.

Lemma posted_app a b : posted (a ++ b) = posted a ++ posted b.
Proof. apply omap_app. Qed.

Section Routes.
Context (w : World).

(** [/translate-to-language] changes nothing but the clock and the record
    of calls, and posts nothing but the session text. *)
Lemma translate_to_language_spec body s :
  exists r n evs,
    translate_to_language w body s = (Val r, advance n evs s)
    /\ (posted evs = []
        \/ exists text, current_english_text s = Some text
                        /\ posted evs = [text]).
Proof.
  unfold translate_to_language. run.
  destruct body as [e|data]; run.
  { exists (exception_response e), 0%nat, []. by rewrite advance_0_nil; auto. }
  destruct (get_method data (lit "target_language")) as [e|target]; run.
  { exists (exception_response e), 0%nat, []. by rewrite advance_0_nil; auto. }
  destruct (current_english_text s) as [[|c text]|] eqn:Htext; run;
    try (eexists _, 0%nat, []; rewrite advance_0_nil; by auto).
  destruct (truthy target); run;
    try (eexists _, 0%nat, []; rewrite advance_0_nil; by auto).
  destruct (translate_to_target_language_spec w (c :: text) target s)
    as (r & Hr & _).
  rewrite Hr.
  destruct (truthy r); run.
  - destruct (table_get (PStr <$> SUPPORTED_OUTPUT_LANGUAGES) target target)
      as [e|name]; run;
      (eexists _, 1%nat, _; split; [reflexivity|right; by eexists]).
  - eexists _, 1%nat, _; split; [reflexivity|right; by eexists].
Qed.

(** [/text-to-speech] likewise, and posts nothing. *)
Lemma text_to_speech_route_spec body s :
  exists r n evs,
    text_to_speech_route w body s = (Val r, advance n evs s)
    /\ posted evs = [].
Proof.
  unfold text_to_speech_route. run.
  destruct body as [e|data]; run.
  { exists (exception_response e), 0%nat, []. by rewrite advance_0_nil. }
  destruct (get_method data (lit "text")) as [e|text]; run.
  { exists (exception_response e), 0%nat, []. by rewrite advance_0_nil. }
  destruct (get_method data (lit "target_language")) as [e|target]; run.
  { exists (exception_response e), 0%nat, []. by rewrite advance_0_nil. }
  destruct (negb (truthy text) || negb (truthy target)); run.
  { eexists _, 0%nat, []. by rewrite advance_0_nil. }
  destruct (text_to_speech_spec w text target s)
    as (r & n & evs & Hr & _ & Hp & _).
  rewrite Hr. destruct r as [[|c url]|]; run;
    (eexists _, n, _; split; [reflexivity|done]).
Qed.

End Routes.

(** *** The translation route, exactly *)

Lemma translate_to_target_language_eq w text target s :
  translate_to_target_language w text target s
  = (Val (translation_of (requests_post w (tick s) text target)),
     advance 1 [Enter Translate; Post text target] s).
Proof.
  unfold translate_to_target_language, translation_of, first_translation. run.
  destruct (requests_post w (tick s) text target) as [e|response]; run.
  { f_equal; state_eq. }
  destruct (status_code response =? 200); run; [|f_equal; state_eq].
  repeat (match goal with
          | |- context [json ?a] => destruct (json a); run
          | |- context [getitem ?a ?b] => destruct (getitem a b); run
          | |- context [getitem0 ?a] => destruct (getitem0 a); run
          end);
    (f_equal; state_eq).
Qed.

Lemma display_name_get target :
  table_get (PStr <$> SUPPORTED_OUTPUT_LANGUAGES) (PStr target) (PStr target)
  = inr (PStr (default target (SUPPORTED_OUTPUT_LANGUAGES !! target))).
Proof.
  unfold table_get. rewrite lookup_fmap.
  by destruct (SUPPORTED_OUTPUT_LANGUAGES !! target).
Qed.

Lemma truthy_PStr s : truthy (PStr s) = true <-> s <> [].
Proof.
  cbn. destruct (bool_decide_reflect (s = [])); cbn; split; congruence.
Qed.

(** The route, once the body, the target and the session text are there. *)
Lemma translate_to_language_eq w data target text s :
  get_method data (lit "target_language") = inr (PStr target) ->
  target <> [] ->
  current_english_text s = Some text ->
  text <> [] ->
  let translated :=
    translation_of (requests_post w (tick s) text (PStr target)) in
  translate_to_language w (inr data) s
  = (Val (if truthy translated then
            translated_response translated
              (default target (SUPPORTED_OUTPUT_LANGUAGES !! target))
          else error_response (lit "Translation failed")),
     advance 1 [Enter Translate; Post text (PStr target)] s).
Proof.
  intros Hget Htarget Htext Hne translated. subst translated.
  unfold translate_to_language. run. rewrite Hget. run. rewrite Htext.
  destruct text as [|c text]; [done|].
  apply truthy_PStr in Htarget. rewrite Htarget. run.
  rewrite translate_to_target_language_eq.
  destruct (truthy (translation_of _)); run; [|done].
  rewrite display_name_get. run. done.
Qed.

(** ** The pipeline at work *)

Example demo_recording :
  (stop_recording Demo.fair 3 (Some (lit "ta-IN")) initial_state).1
  = Val (success_response (lit "vanakkam") (lit "Water the tomato plants.")).
Proof. vm_compute. reflexivity. Qed.

Example demo_translate :
  (translate_to_language Demo.fair Demo.to_hindi Demo.ready).1
  = Val (PDict [ (lit "status", PStr (lit "success"));
                 (lit "translated_text", PStr (lit "namaste"));
                 (lit "target_language", PStr (lit "Hindi")) ]).
Proof. vm_compute. reflexivity. Qed.

Example demo_speech :
  (text_to_speech_route Demo.fair Demo.say_hello Demo.ready).1
  = Val (PDict [ (lit "status", PStr (lit "success"));
                 (lit "audio_url",
                  PStr (lit "/static/audio/output_6fa459ea-ee8a-3ca4-894e-db77e160355e.wav")) ]).
Proof. vm_compute. reflexivity. Qed.

(** ** Properties of the specification *)

(** C4.  In every execution of [transcribe_audio] whose job is started, is in
    a non-terminal status at the first [n] polls and is [COMPLETED] or
    [FAILED] at the next one, the loop returns at exactly that poll: with
    fuel for at most [n] polls the run has not returned, and with more it
    returns a value after [n + 1] polls and [n] sleeps of 5 seconds, a
    sleep and a new poll following each non-terminal status and nothing but
    the fetch of the transcript following the terminal one. *)
Theorem transcribe_audio_polls_until_terminal w job_name uri lang s n j :
  start_transcription_job w (tick s) job_name uri lang = None ->
  (forall i, (i < n)%nat ->
     exists ji, get_transcription_job w (i + S (tick s)) job_name = inr ji
                /\ nonterminal (job_status ji)) ->
  get_transcription_job w (n + S (tick s)) job_name = inr j ->
  terminal (job_status j) ->
  (forall fuel, (fuel <= n)%nat ->
     (transcribe_audio w fuel job_name uri lang s).1 = Timeout)
  /\ (forall fuel, (n < fuel)%nat ->
      exists v s' tail,
        transcribe_audio w fuel job_name uri lang s = (Val v, s')
        /\ since s s'
           = Enter Transcribe :: StartJob job_name uri lang
             :: waiting n job_name ++ GetJob job_name :: tail
        /\ (tail = [] \/ exists u, tail = [UrlOpen u])
        /\ count is_poll (since s s') = S n
        /\ count is_sleep (since s s') = n).
Proof.
  intros Hstart Hwait Hj Hterm. split.
  - intros fuel Hfuel.
    by apply (transcribe_audio_starved w fuel job_name uri lang s n).
  - intros fuel Hfuel.
    destruct (transcribe_audio_terminal w fuel job_name uri lang s n j
                Hstart Hwait Hj Hterm Hfuel)
      as (v & k & tail & Hrun & Htail & _).
    eexists v, _, tail. split; [exact Hrun|].
    rewrite since_advance. split; [done|]. split; [done|].
    destruct (count_waiting n job_name) as (Hp & Hs & _).
    change (Enter Transcribe :: StartJob job_name uri lang
            :: waiting n job_name ++ GetJob job_name :: tail)
      with ([Enter Transcribe; StartJob job_name uri lang]
            ++ waiting n job_name ++ GetJob job_name :: tail).
    rewrite !count_app, Hp, Hs.
    destruct Htail as [->|[u ->]]; cbn; lia.
Qed.

Lemma transcribe_audio_polls_until_terminal_witness :
  (transcribe_audio Demo.fair 4 (lit "job") (lit "s3://b/job.wav")
     (lit "ta-IN") initial_state).1 = Timeout
  /\ count is_poll
       (trace (transcribe_audio Demo.fair 5 (lit "job") (lit "s3://b/job.wav")
                 (lit "ta-IN") initial_state).2) = 5%nat.
Proof.
  assert (Hwait : forall i, (i < 4)%nat ->
     exists ji, get_transcription_job Demo.fair (i + S (tick initial_state))
                  (lit "job") = inr ji
                /\ nonterminal (job_status ji)).
  { intros i Hi. destruct i as [|[|[|[|i]]]]; [| | | |lia];
      (eexists; split; [reflexivity|split; reflexivity]). }
  destruct (transcribe_audio_polls_until_terminal Demo.fair (lit "job")
              (lit "s3://b/job.wav") (lit "ta-IN") initial_state 4
              (Job (lit "COMPLETED")
                   (Some (lit "https://s3.amazonaws.com/transcript.json")) None)
              eq_refl Hwait eq_refl (or_introl eq_refl))
    as [Hstarved Hdone].
  split.
  - apply Hstarved. lia.
  - destruct (Hdone 5%nat ltac:(lia)) as (v & s' & tail & Hrun & _ & _ & Hp & _).
    rewrite Hrun. exact Hp.
Defined.

Ltac not_called :=
  rewrite ?elem_of_cons, elem_of_nil; intuition discriminate.

(** C2.  Every run of [process_audio] enters its stages in the order
    validate, upload, transcribe, correct-translate and stops at the first
    failure: when [validate_wav_file] returns false only the validation was
    entered and the result is the error "Invalid WAV file"; when
    [upload_to_s3] returns false neither [transcribe_audio] nor
    [correct_and_translate] is entered and the result is an error, namely
    "Failed to upload to S3" when the validation passed. *)
Theorem process_audio_fail_fast w fuel path lang s :
  let run := process_audio w fuel path lang s in
  let called := stages (since s run.2) in
  (called `prefix_of` [Validate; Upload; Transcribe; Correct])
  /\ ((validate_wav_file path s).1 = Val false ->
      called = [Validate]
      /\ run.1 = Val (error_response (lit "Invalid WAV file")))
  /\ ((upload_to_s3 w path (bucket_name w) (object_key w s) (at_upload w s)).1
      = Val false ->
      (Transcribe ∉ called) /\ (Correct ∉ called)
      /\ (exists message, run.1 = Val (error_response message))
      /\ ((validate_wav_file path s).1 = Val true ->
          called = [Validate; Upload]
          /\ run.1 = Val (error_response (lit "Failed to upload to S3")))).
Proof.
  intros run called. subst run called.
  destruct (process_audio_run w fuel path lang s)
    as (r & s' & called & Hrun & Hkind).
  rewrite Hrun. cbn [fst snd].
  rewrite (run_kind_stages _ _ _ _ _ _ _ _ Hkind).
  destruct Hkind as [r Hv|n evs Hv Hu Hst|n evs r Hv Hu Hst Hr
                    |n evs Hv Hu Hst|n evs src eng Hv Hu Hst Hne].
  - split; [by exists [Upload; Transcribe; Correct]|].
    split.
    + intros Hf. rewrite Hf in Hv. done.
    + intros _. split; [not_called|]. split; [not_called|].
      split; [|intros Ht; by rewrite Ht in Hv].
      destruct ((validate_wav_file path s).1) as [[|]|e|]; try done;
        subst r; by eexists.
  - split; [by exists [Transcribe; Correct]|].
    split; [intros Hf; congruence|].
    intros _. split; [not_called|]. split; [not_called|].
    split; [by eexists|done].
  - split; [by exists [Correct]|].
    split; [intros Hf; congruence|]. intros Hf; congruence.
  - split; [by exists []|].
    split; [intros Hf; congruence|]. intros Hf; congruence.
  - split; [by exists []|].
    split; [intros Hf; congruence|]. intros Hf; congruence.
Qed.

Lemma process_audio_fail_fast_witness :
  (process_audio Demo.fair 3 output_file (lit "ta-IN") Demo.garbage).1
  = Val (error_response (lit "Invalid WAV file"))
  /\ (process_audio Demo.no_upload 3 output_file (lit "ta-IN") Demo.empty_wav).1
     = Val (error_response (lit "Failed to upload to S3")).
Proof.
  split.
  - destruct (process_audio_fail_fast Demo.fair 3 output_file (lit "ta-IN")
                Demo.garbage) as (_ & Hinvalid & _).
    apply Hinvalid. vm_compute. reflexivity.
  - destruct (process_audio_fail_fast Demo.no_upload 3 output_file
                (lit "ta-IN") Demo.empty_wav) as (_ & _ & Hupload).
    destruct Hupload as (_ & _ & _ & Hmsg); [vm_compute; reflexivity|].
    apply Hmsg. vm_compute. reflexivity.
Defined.

(** Whenever [process_audio] returns an error result, the session text is
    what it was before the call. *)
Lemma error_result_keeps_english_text w fuel path lang s r s' :
  process_audio w fuel path lang s = (Val r, s') ->
  status_of r = Some (PStr (lit "error")) ->
  current_english_text s' = current_english_text s.
Proof.
  intros Hrun Hstatus.
  destruct (process_audio_run w fuel path lang s)
    as (r0 & s0 & called & Hrun0 & Hkind).
  rewrite Hrun in Hrun0. injection Hrun0 as <- <-.
  inversion Hkind; subst; try reflexivity.
  vm_compute in Hstatus. discriminate.
Qed.

(** A run whose upload succeeds and whose transcription is unusable. *)
Lemma process_audio_transcription_failed w fuel path lang s v s3 :
  (validate_wav_file path s).1 = Val true ->
  (upload_to_s3 w path (bucket_name w) (object_key w s) (at_upload w s)).1
  = Val true ->
  transcribe_audio w fuel (uuid4 w (tick s)) (s3_uri w s) lang
    (at_transcribe w s) = (Val v, s3) ->
  usable_text v = inr None ->
  process_audio w fuel path lang s
  = (Val (error_response (lit "Transcription failed")), s3).
Proof.
  intros Hvalid Hupload Htranscribe Husable.
  rewrite validate_wav_file_eq in Hvalid. cbn [fst] in Hvalid.
  rewrite upload_to_s3_eq in Hupload.
  unfold at_upload at 1 in Hupload. cbn [files started] in Hupload.
  destruct (files s !! path) as [data|] eqn:Hfile; [|done].
  cbn [fst tick at_upload started] in Hupload.
  unfold process_audio. run. rewrite validate_wav_file_eq. cbn [fst snd].
  rewrite Hfile in *. rewrite Hvalid. run.
  rewrite upload_to_s3_eq. cbn [files tick]. rewrite Hfile.
  fold (object_key w s) in *.
  injection Hupload as ->. run.
  match goal with
  | |- context [transcribe_audio w fuel ?a ?b ?c ?s1] =>
      replace (transcribe_audio w fuel a b c s1)
        with (transcribe_audio w fuel (uuid4 w (tick s)) (s3_uri w s) lang
                (at_transcribe w s))
  end.
  - rewrite Htranscribe. run. rewrite Husable. run. done.
  - f_equal. unfold at_transcribe, started, object_key. state_eq.
Qed.

(** C5, as amended.  When the upload stage fails, and when the
    transcription stage fails, [process_audio] returns the error result of
    that stage and [current_english_text] is what it was before the call;
    [current_session_id], however, is not restored: it holds the UUID of
    the failed run, assigned before the upload.  Whenever [process_audio]
    returns an error result, [current_english_text] is what it was before
    the call. *)
Theorem failed_stage_keeps_text_not_session_id w fuel path lang s :
  let run := process_audio w fuel path lang s in
  let sid := uuid4 w (tick s) in
  let uploaded :=
    (upload_to_s3 w path (bucket_name w) (object_key w s) (at_upload w s)).1 in
  ((validate_wav_file path s).1 = Val true ->
   uploaded = Val false ->
   run.1 = Val (error_response (lit "Failed to upload to S3"))
   /\ current_english_text run.2 = current_english_text s
   /\ current_session_id run.2 = Some sid)
  /\ ((validate_wav_file path s).1 = Val true ->
      uploaded = Val true ->
      forall v,
        (transcribe_audio w fuel sid (s3_uri w s) lang (at_transcribe w s)).1
        = Val v ->
        usable_text v = inr None ->
        run.1 = Val (error_response (lit "Transcription failed"))
        /\ current_english_text run.2 = current_english_text s
        /\ current_session_id run.2 = Some sid)
  /\ (forall r,
        run.1 = Val r ->
        status_of r = Some (PStr (lit "error")) ->
        current_english_text run.2 = current_english_text s).
Proof.
  intros run sid uploaded. subst run sid uploaded. split; [|split].
  - intros Hvalid Hupload.
    destruct (process_audio_run w fuel path lang s)
      as (r & s' & called & Hrun & Hkind).
    rewrite Hrun. cbn [fst snd].
    inversion Hkind as [r1 Hv|n evs Hv Hu Hst|n evs r1 Hv Hu Hst Hr
                       |n evs Hv Hu Hst|n evs src eng Hv Hu Hst Hne];
      subst; try congruence.
    + rewrite Hvalid in Hv. done.
    + done.
  - intros Hvalid Hupload v Htranscribe Husable.
    destruct (transcribe_audio_frame w fuel (uuid4 w (tick s)) (s3_uri w s)
                lang (at_transcribe w s)) as (r & n & evs & Hrun & _ & _).
    rewrite Hrun in Htranscribe. cbn [fst] in Htranscribe. subst r.
    rewrite (process_audio_transcription_failed w fuel path lang s v _
               Hvalid Hupload Hrun Husable).
    done.
  - intros r Hr Hstatus.
    destruct (process_audio w fuel path lang s) as [r0 s'] eqn:Hrun.
    cbn [fst snd] in *. subst r0.
    exact (error_result_keeps_english_text w fuel path lang s r s' Hrun Hstatus).
Qed.

Lemma failed_stage_keeps_text_not_session_id_witness :
  let run := process_audio Demo.no_upload 3 output_file (lit "ta-IN")
               Demo.empty_wav in
  let silent := process_audio Demo.silent 3 output_file (lit "ta-IN")
                  Demo.empty_wav in
  (run.1 = Val (error_response (lit "Failed to upload to S3"))
   /\ current_english_text run.2 = None
   /\ current_session_id run.2
      = Some (lit "6fa459ea-ee8a-3ca4-894e-db77e160355e"))
  /\ (silent.1 = Val (error_response (lit "Transcription failed"))
      /\ current_english_text silent.2 = None
      /\ current_session_id silent.2
         = Some (lit "6fa459ea-ee8a-3ca4-894e-db77e160355e")).
Proof.
  intros run silent. split.
  - destruct (failed_stage_keeps_text_not_session_id Demo.no_upload 3
                output_file (lit "ta-IN") Demo.empty_wav) as (Hupload & _).
    apply Hupload; vm_compute; reflexivity.
  - destruct (failed_stage_keeps_text_not_session_id Demo.silent 3
                output_file (lit "ta-IN") Demo.empty_wav) as (_ & Hsilent & _).
    apply (Hsilent eq_refl eq_refl PNone); vm_compute; reflexivity.
Defined.

(** C5, as stated, fails: with an upload that is refused, [process_audio]
    returns the error of the upload stage and [current_session_id], unset
    before the call, is the UUID of the failed run after it. *)
Lemma upload_failure_overwrites_session_id :
  let s := Demo.empty_wav in
  let run := process_audio Demo.no_upload 3 output_file (lit "ta-IN") s in
  (upload_to_s3 Demo.no_upload output_file (bucket_name Demo.no_upload)
     (object_key Demo.no_upload s) (at_upload Demo.no_upload s)).1 = Val false
  /\ run.1 = Val (error_response (lit "Failed to upload to S3"))
  /\ current_session_id s = None
  /\ current_session_id run.2
     = Some (lit "6fa459ea-ee8a-3ca4-894e-db77e160355e")
  /\ current_session_id run.2 <> current_session_id s.
Proof. vm_compute. repeat split; discriminate. Qed.

Lemma serve_follow_ups w fuel rs : forall s,
  Forall follow_up rs ->
  exists n evs,
    serve w fuel rs s = advance n evs s
    /\ forall text, text ∈ posted evs -> current_english_text s = Some text.
Proof.
  induction rs as [|r rs IH]; intros s Hrs.
  - exists 0%nat, []. rewrite advance_0_nil. split; [done|].
    intros text Hin. by apply elem_of_nil in Hin.
  - apply Forall_cons in Hrs as [Hr Hrs]. cbn [serve].
    assert (Hstep : exists n evs,
              (handle w fuel r s).2 = advance n evs s
              /\ forall text, text ∈ posted evs ->
                              current_english_text s = Some text).
    { destruct r as [lang|body|body]; [done| |]; cbn [handle].
      - destruct (translate_to_language_spec w body s)
          as (v & n & evs & Hrun & Hposted).
        exists n, evs. rewrite Hrun. split; [done|].
        intros text Hin. destruct Hposted as [Hp|(t & Ht & Hp)];
          rewrite Hp in Hin.
        + by apply elem_of_nil in Hin.
        + apply list_elem_of_singleton in Hin as ->. done.
      - destruct (text_to_speech_route_spec w body s)
          as (v & n & evs & Hrun & Hposted).
        exists n, evs. rewrite Hrun. split; [done|].
        intros text Hin. rewrite Hposted in Hin.
        by apply elem_of_nil in Hin. }
    destruct Hstep as (n & evs & Hs1 & Hp1). rewrite Hs1.
    destruct (IH (advance n evs s) Hrs) as (m & evs' & Hs2 & Hp2).
    exists (m + n)%nat, (evs ++ evs'). rewrite Hs2, advance_advance.
    split; [done|]. intros text Hin.
    rewrite posted_app in Hin. apply elem_of_app in Hin as [Hin|Hin]; auto.
Qed.

(** C3.  No sequence of [/translate-to-language] and [/text-to-speech]
    requests changes [current_english_text], and every text such a sequence
    hands to the translation service is that session text.  After any such
    sequence, a [/translate-to-language] request that names a target
    language posts exactly the session text, once, and answers with what
    the translation service made of it.  A [/stop-recording] call that
    answers with status "success" sets the session text to the
    [english_text] of its answer, which is not empty; one that answers
    otherwise leaves the session text as it was. *)
Theorem session_text_persists w fuel s :
  (forall rs, Forall follow_up rs ->
     let s' := serve w fuel rs s in
     current_english_text s' = current_english_text s
     /\ forall text, text ∈ posted (since s s') ->
                     current_english_text s = Some text)
  /\ (forall rs data target text,
        Forall follow_up rs ->
        current_english_text s = Some text ->
        text <> [] ->
        get_method data (lit "target_language") = inr (PStr target) ->
        target <> [] ->
        let s1 := serve w fuel rs s in
        let translated :=
          translation_of (requests_post w (tick s1) text (PStr target)) in
        translate_to_language w (inr data) s1
        = (Val (if truthy translated then
                  translated_response translated
                    (default target (SUPPORTED_OUTPUT_LANGUAGES !! target))
                else error_response (lit "Translation failed")),
           advance 1 [Enter Translate; Post text (PStr target)] s1))
  /\ (forall lang r s', stop_recording w fuel lang s = (Val r, s') ->
      (status_of r = Some (PStr (lit "success")) ->
       exists source_text english_text,
         r = success_response source_text english_text
         /\ english_text <> []
         /\ current_english_text s' = Some english_text)
      /\ (status_of r <> Some (PStr (lit "success")) ->
          current_english_text s' = current_english_text s)).
Proof.
  split; [|split].
  - intros rs Hrs s'. subst s'.
    destruct (serve_follow_ups w fuel rs s Hrs) as (n & evs & -> & Hposted).
    rewrite since_advance. done.
  - intros rs data target text Hrs Htext Hne Hget Htarget s1 translated.
    subst s1 translated.
    apply translate_to_language_eq; try done.
    destruct (serve_follow_ups w fuel rs s Hrs) as (n & evs & -> & _).
    exact Htext.
  - intros lang r s' Hstop. rewrite stop_recording_eq in Hstop.
    destruct ((recording s).1) as [e|].
    { injection Hstop as <- <-. split; [|done].
      intros Hs. vm_compute in Hs. discriminate. }
    destruct (process_audio_run w fuel output_file
                (default (lit "te-IN") lang) (recorded s))
      as (r0 & s0 & called & Hrun0 & Hkind).
    rewrite Hstop in Hrun0. injection Hrun0 as <- <-.
    inversion Hkind as [r1 Hv|n evs Hv Hu Hst|n evs r1 Hv Hu Hst Hr
                       |n evs Hv Hu Hst|n evs src eng Hv Hu Hst Hne];
      subst; try (split; [intros Hs; vm_compute in Hs; discriminate|done]).
    + split; [|done]. intros Hs.
      destruct ((validate_wav_file output_file (recorded s)).1)
        as [[|]|e|]; try done; injection Hv as ->;
        vm_compute in Hs; discriminate.
    + split; [|done]. intros Hs.
      destruct Hr as [Hr|[Hr|[e Hr]]]; try discriminate;
        injection Hr as ->; vm_compute in Hs; discriminate.
    + split; [intros _; by exists src, eng|].
      intros Hs. exfalso. apply Hs. reflexivity.
Qed.

Lemma session_text_persists_witness :
  let rs := [ TranslateToLanguage Demo.to_hindi; TextToSpeech Demo.say_hello;
              TranslateToLanguage Demo.to_hindi ] in
  let s1 := serve Demo.fair 3 rs Demo.ready in
  current_english_text s1 = Some (lit "Water the tomato plants.")
  /\ translate_to_language Demo.fair Demo.to_hindi s1
     = (Val (translated_response (PStr (lit "namaste")) (lit "Hindi")),
        advance 1 [Enter Translate;
                   Post (lit "Water the tomato plants.") (PStr (lit "hi"))]
          s1).
Proof.
  intros rs s1.
  destruct (session_text_persists Demo.fair 3 Demo.ready)
    as (Hkeep & Huse & _).
  split.
  - destruct (Hkeep rs) as [Htext _].
    + repeat constructor.
    + subst s1. rewrite Htext. vm_compute. reflexivity.
  - apply (Huse rs (PDict [ (lit "target_language", PStr (lit "hi")) ])
             (lit "hi") (lit "Water the tomato plants."));
      [repeat constructor|vm_compute; reflexivity|done|reflexivity|done].
Defined.

Lemma recording_fits s :
  36 + Z.of_nat (length (concat (audio_frames s))) <= 4294967295 ->
  (recording s).1 = None
  /\ validate_outcome (files (recorded s) !! output_file) output_file = Val true.
Proof.
  intros Hfit. destruct (write_read _ Hfit) as [Hw Hr].
  unfold recording. split; [by rewrite Hw|].
  unfold recorded; cbn [files]. rewrite lookup_insert_eq.
  unfold validate_outcome, recording. by rewrite Hr.
Qed.

(** C6.  Let the recording fit a WAV file, the upload succeed, the job be
    started, be in a non-terminal status for [n] polls and then
    [COMPLETED], and let the first transcript of the payload be a string
    that is empty or only whitespace.  Then [/stop-recording] answers
    exactly [{"status": "error", "message": "Transcription failed"}], and
    when the string is empty [transcribe_audio] has returned [None]. *)
Theorem empty_transcript_is_transcription_failure
    w fuel lang s n j uri data text :
  let sid := uuid4 w (tick s) in
  let input := default (lit "te-IN") lang in
  let t := S (S (S (tick s))) in
  36 + Z.of_nat (length (concat (audio_frames s))) <= 4294967295 ->
  upload_fileobj w (S (tick s)) (recording s).2 (bucket_name w)
    (object_key w (recorded s)) = None ->
  start_transcription_job w (S (S (tick s))) sid (s3_uri w (recorded s)) input
  = None ->
  (forall i, (i < n)%nat ->
     exists ji, get_transcription_job w (i + t) sid = inr ji
                /\ nonterminal (job_status ji)) ->
  get_transcription_job w (n + t) sid = inr j ->
  job_status j = lit "COMPLETED" ->
  transcript_file_uri j = Some uri ->
  fetch_transcript w (S (n + t)) uri = inr data ->
  first_transcript data = inr (PStr text) ->
  strip text = [] ->
  (n < fuel)%nat ->
  (text = [] ->
   (transcribe_audio w fuel sid (s3_uri w (recorded s)) input
      (at_transcribe w (recorded s))).1 = Val PNone)
  /\ (stop_recording w fuel lang s).1
     = Val (error_response (lit "Transcription failed")).
Proof.
  intros sid input t Hfit Hupload Hstart Hwait Hj Hstatus Huri Hfetch
    Hfirst Hblank Hfuel.
  destruct (recording_fits s Hfit) as [Hrec Hvalid].
  assert (Hterm : terminal (job_status j)) by (by left).
  destruct (transcribe_audio_terminal w fuel sid (s3_uri w (recorded s)) input
              (at_transcribe w (recorded s)) n j Hstart Hwait Hj Hterm Hfuel)
    as (v & k & tail & Hrun & _ & _ & Hcompleted).
  specialize (Hcompleted uri data Hstatus Huri Hfetch _ Hfirst).
  assert (Husable : usable_text v = inr None).
  { subst v. unfold usable_text. cbn [truthy].
    destruct (bool_decide_reflect (text = [])) as [->|Hne]; cbn [negb].
    - done.
    - cbn [truthy]. rewrite bool_decide_eq_false_2 by done. cbn [negb].
      by rewrite bool_decide_eq_true_2. }
  split.
  { intros ->. rewrite Hrun. by subst v. }
  rewrite stop_recording_eq, Hrec. fold input.
  unfold process_audio. run. rewrite validate_wav_file_eq. cbn [fst snd].
  rewrite Hvalid. run. rewrite upload_to_s3_eq. cbn [files recorded].
  rewrite lookup_insert_eq. cbn [tick]. fold (object_key w (recorded s)) in *.
  unfold object_key in Hupload |- *. cbn [tick recorded] in Hupload |- *.
  rewrite Hupload.
  replace (bool_decide (None = None)) with true by done. run.
  match goal with
  | |- context [transcribe_audio w fuel ?a ?b ?c ?s1] =>
      replace (transcribe_audio w fuel a b c s1)
        with (transcribe_audio w fuel sid (s3_uri w (recorded s)) input
                (at_transcribe w (recorded s)))
  end.
  - rewrite Hrun. run. rewrite Husable. run. done.
  - f_equal. unfold at_transcribe, started, object_key, recorded. state_eq.
Qed.

Lemma empty_transcript_is_transcription_failure_witness :
  (stop_recording Demo.silent 3 (Some (lit "ta-IN")) initial_state).1
  = Val (error_response (lit "Transcription failed"))
  /\ (stop_recording Demo.blank 3 (Some (lit "ta-IN")) initial_state).1
     = Val (error_response (lit "Transcription failed")).
Proof.
  assert (Hwait : forall w,
     get_transcription_job w = get_transcription_job Demo.silent ->
     uuid4 w = uuid4 Demo.silent ->
     forall i, (i < 2)%nat ->
     exists ji, get_transcription_job w
                  (i + S (S (S (tick initial_state))))
                  (uuid4 w (tick initial_state)) = inr ji
                /\ nonterminal (job_status ji)).
  { intros w -> -> i Hi. destruct i as [|[|i]]; [| |lia];
      (eexists; split; [reflexivity|split; reflexivity]). }
  split.
  - apply (empty_transcript_is_transcription_failure Demo.silent 3
             (Some (lit "ta-IN")) initial_state 2
             (Job (lit "COMPLETED")
                  (Some (lit "https://s3.amazonaws.com/transcript.json")) None)
             (lit "https://s3.amazonaws.com/transcript.json")
             (Demo.payload []) []);
      try reflexivity; try (by apply Hwait).
    + vm_compute. discriminate.
    + lia.
  - apply (empty_transcript_is_transcription_failure Demo.blank 3
             (Some (lit "ta-IN")) initial_state 2
             (Job (lit "COMPLETED")
                  (Some (lit "https://s3.amazonaws.com/transcript.json")) None)
             (lit "https://s3.amazonaws.com/transcript.json")
             (Demo.payload (lit "  ")) (lit "  "));
      try reflexivity; try (by apply Hwait).
    + vm_compute. discriminate.
    + lia.
Defined.

(** C7, as amended.  For every [/translate-to-language] request whose body
    is a JSON object, made while [current_english_text] is unset, the
    answer is the error "No English text available for translation" and
    the state, hence the record of calls, is unchanged: the check comes
    before the check of the target language and before any call of the
    translation service. *)
Theorem no_english_text_no_translation w d s :
  current_english_text s = None ->
  translate_to_language w (inr (PDict d)) s
  = (Val (error_response (lit "No English text available for translation")), s).
Proof.
  intros Hnone. unfold translate_to_language, get_method. run.
  rewrite Hnone. done.
Qed.

Lemma no_english_text_no_translation_witness :
  translate_to_language Demo.fair (inr (PDict [])) initial_state
  = (Val (error_response (lit "No English text available for translation")),
     initial_state)
  /\ translate_to_language Demo.fair Demo.to_hindi initial_state
     = (Val (error_response (lit "No English text available for translation")),
        initial_state).
Proof.
  split; apply no_english_text_no_translation; reflexivity.
Defined.

(** C7, as stated, fails for a request whose body is the JSON value
    [null]: [data.get] raises before the session text is looked at, and the
    answer carries the message of that exception. *)
Lemma translate_without_json_object :
  current_english_text initial_state = None
  /\ (translate_to_language Demo.fair (inr PNone) initial_state).1
     = Val (error_response
              (lit "Error: 'NoneType' object has no attribute 'get'"))
  /\ (translate_to_language Demo.fair (inr PNone) initial_state).1
     <> Val (error_response (lit "No English text available for translation")).
Proof. vm_compute. repeat split; discriminate. Qed.

Lemma startswith_app p s : startswith p (p ++ s) = true.
Proof. induction p as [|c p IH]; [done|]. cbn. by rewrite N.eqb_refl. Qed.

Lemma startswith_peel a p s : startswith (a ++ p) (a ++ s) = startswith p s.
Proof. induction a as [|c a IH]; [done|]. cbn. by rewrite N.eqb_refl. Qed.

Lemma contains_here p s : startswith p s = true -> contains p s = true.
Proof. intros H. destruct s; cbn [contains]; by rewrite H. Qed.

Lemma contains_skip a p s : contains p s = true -> contains p (a ++ s) = true.
Proof.
  intros H. induction a as [|c a IH]; [done|].
  cbn [app contains]. rewrite IH. by destruct (startswith p (c :: a ++ s)).
Qed.

(** [p] is a run of consecutive pieces of a concatenation. *)
Ltac find_pieces :=
  first [ apply contains_here; rewrite ?startswith_peel; apply startswith_app
        | apply contains_skip; find_pieces ].

Ltac find_suffix :=
  first [ apply suffix_app_r; find_suffix | reflexivity ].

(** C8.  For every source language code, the prompt of
    [correct_and_translate] holds the ontology content under "Ontology
    file:", the display name of the language, or "unknown language" for a
    code that is not in the table, in its first and third sentences, the
    instruction to return only the corrected English translation, and it
    ends with the source text under the label "Tamil text: ", whatever the
    language; this prompt is what the model is called with. *)
Theorem prompt_labels_source_text_tamil onto source_text source_lang :
  let name :=
    default (lit "unknown language") (SUPPORTED_INPUT_LANGUAGES !! source_lang) in
  let prompt := build_prompt onto source_text source_lang in
  (lit "Tamil text: " ++ source_text ++ nl ++ indent) `suffix_of` prompt
  /\ contains (lit "Ontology file:" ++ nl ++ indent ++ onto ++ nl) prompt = true
  /\ contains
       (lit "I'll give you an ontology file and a " ++ name ++ lit " text. The "
        ++ name
        ++ lit " text might have errors related to specific terms in the ontology.")
       prompt = true
  /\ contains
       (lit "Then, examine the " ++ name
        ++ lit " text for words that might be misused or misspelled based on context.")
       prompt = true
  /\ contains
       (lit "Finally, return ONLY the corrected English translation. Don't include any explanations or additional text.")
       prompt = true
  /\ (forall w s,
        read_ontology w (tick s) = inr onto ->
        Generate prompt
        ∈ since s (correct_and_translate w source_text source_lang s).2).
Proof.
  intros name prompt. subst prompt. unfold build_prompt, input_language_name.
  fold name.
  split; [find_suffix|].
  split; [find_pieces|]. split; [find_pieces|]. split; [find_pieces|].
  split; [find_pieces|].
  intros w s Honto.
  destruct (correct_and_translate_spec w source_text source_lang s)
    as (r & n & evs & Hrun & _ & Hcase).
  rewrite Hrun. rewrite Honto in Hcase. cbn [snd]. rewrite since_advance.
  destruct Hcase as [-> _]. unfold build_prompt, input_language_name.
  fold name. rewrite !elem_of_cons. auto.
Qed.

Lemma prompt_labels_source_text_tamil_witness :
  input_language_name (lit "hi-IN") = lit "Hindi"
  /\ Generate (build_prompt (lit "@prefix : <#> .") (lit "namaste") (lit "hi-IN"))
     ∈ since initial_state
         (correct_and_translate Demo.fair (lit "namaste") (lit "hi-IN")
            initial_state).2.
Proof.
  split; [reflexivity|].
  apply (prompt_labels_source_text_tamil (lit "@prefix : <#> .")
           (lit "namaste") (lit "hi-IN")).
  reflexivity.
Defined.

(** C9.  For every input [text_to_speech] returns, and never raises: the
    result is [None] or the path [/static/audio/output_<uuid>.wav] for the
    UUID it drew, and it is the path exactly when the synthesis completes;
    a refused configuration, an unhashable target, an exception, a
    cancellation or another reason give [None].  The voice handed to the
    synthesizer is the one of [AZURE_TTS_VOICES] for the target language,
    and ["en-US-Aria"] when the target is not in the table. *)
Theorem text_to_speech_returns_url_or_none w text target_lang s :
  exists r s',
    text_to_speech w text target_lang s = (Val r, s')
    /\ (r = None
        \/ r = Some (lit "/static/audio/output_" ++ uuid4 w (S (tick s))
                     ++ lit ".wav"))
    /\ (synthesis_completes w text target_lang s <-> r <> None)
    /\ (forall voice, voice ∈ voices (since s s') ->
                      voice = voice_for target_lang).
Proof.
  destruct (text_to_speech_spec w text target_lang s)
    as (r & n & evs & Hrun & _ & _ & Hcase).
  exists r, (advance n (Enter Synthesize :: evs) s).
  split; [exact Hrun|]. rewrite since_advance.
  unfold synthesis_completes.
  destruct (speech_config w (tick s)) as [e|].
  { destruct Hcase as [-> ->]. split; [by left|]. split; [|by intros v Hv; apply elem_of_nil in Hv].
    split; [by intros [? _]|done]. }
  destruct (table_get AZURE_TTS_VOICES target_lang (lit "en-US-Aria"))
    as [e|voice] eqn:Hvoice.
  { destruct Hcase as [-> ->]. split; [by left|]. split; [|by intros v Hv; apply elem_of_nil in Hv].
    split; [by intros (_ & v & ? & _)|done]. }
  cbv zeta in Hcase. destruct Hcase as [-> Hr].
  assert (Hv : voice = voice_for target_lang).
  { unfold table_get in Hvoice. unfold voice_for.
    destruct target_lang; congruence. }
  split; [|split].
  - destruct (speak_text _ _ _ _ _) as [e|[| |]]; auto.
  - split.
    + intros (_ & v & [= <-] & Hspeak). rewrite Hspeak in Hr. by subst r.
    + intros Hsome. split; [done|]. exists voice. split; [done|].
      destruct (speak_text _ _ _ _ _) as [e|[| |]]; done.
  - intros v Hin. cbn in Hin. apply list_elem_of_singleton in Hin. congruence.
Qed.

Example voice_for_hindi : voice_for (PStr (lit "hi")) = lit "hi-IN-Kalpana".
Proof. reflexivity. Qed.

Example voice_for_unknown : voice_for (PStr (lit "fr")) = lit "en-US-Aria".
Proof. reflexivity. Qed.

Lemma run_kind_trace w fuel path lang s r s' called :
  run_kind w fuel path lang s r s' called ->
  exists evs, trace s' = trace s ++ evs.
Proof. destruct 1; eexists; reflexivity. Qed.

Lemma since_recorded s s1 evs :
  trace s1 = trace (recorded s) ++ evs ->
  since s s1 = WriteFile output_file :: evs /\ since (recorded s) s1 = evs.
Proof.
  intros Htrace. unfold since. rewrite Htrace. split.
  - unfold recorded; cbn [trace]. by rewrite <- app_assoc, drop_app_length.
  - by rewrite drop_app_length.
Qed.

(** C10.  A [/stop-recording] request made with an empty frame buffer
    leaves at [uploads/recorded_audio.wav], whatever was there, the 44-byte
    header of a WAV file with no frames; [validate_wav_file] accepts that
    file, [upload_to_s3] ships it, and the run of the pipeline enters the
    upload stage. *)
Theorem empty_recording_enters_pipeline w fuel lang s :
  audio_frames s = [] ->
  let s' := (stop_recording w fuel lang s).2 in
  files s' !! output_file = Some (Wave.header 1 2 44100 0)
  /\ Wave.initfp (Wave.header 1 2 44100 0)
     = Wave.Opened (Wave.Params 1 2 44100 0)
  /\ (validate_wav_file output_file (recorded s)).1 = Val true
  /\ since (at_upload w (recorded s))
       (upload_to_s3 w output_file (bucket_name w) (object_key w (recorded s))
          (at_upload w (recorded s))).2
     = [Enter Upload; PutObject (bucket_name w) (object_key w (recorded s))]
  /\ ([Validate; Upload] `prefix_of` stages (since s s')).
Proof.
  intros Hempty s'. subst s'.
  assert (Hrec : recording s = (None, Wave.header 1 2 44100 0)).
  { unfold recording. rewrite Hempty. reflexivity. }
  assert (Hfile : files (recorded s) !! output_file
                  = Some (Wave.header 1 2 44100 0)).
  { unfold recorded; cbn [files]. by rewrite lookup_insert_eq, Hrec. }
  assert (Hvalid : (validate_wav_file output_file (recorded s)).1 = Val true).
  { rewrite validate_wav_file_eq. cbn [fst]. rewrite Hfile. reflexivity. }
  rewrite stop_recording_eq, Hrec. cbn [fst].
  destruct (process_audio_run w fuel output_file (default (lit "te-IN") lang)
              (recorded s)) as (r & s1 & called & Hrun & Hkind).
  rewrite Hrun. cbn [snd].
  destruct (run_kind_frame _ _ _ _ _ _ _ _ Hkind) as (Hfiles & _).
  split; [by rewrite Hfiles|]. split; [reflexivity|]. split; [exact Hvalid|].
  split.
  { assert (Hfile' : files (at_upload w (recorded s)) !! output_file
                     = Some (Wave.header 1 2 44100 0)) by exact Hfile.
    rewrite upload_to_s3_eq, Hfile'. cbn [snd]. by rewrite since_advance. }
  assert (Hsince : since s s1 = WriteFile output_file :: since (recorded s) s1).
  { destruct (run_kind_trace _ _ _ _ _ _ _ _ Hkind) as [evs Hevs].
    destruct (since_recorded s s1 evs Hevs) as [-> ->]. done. }
  rewrite Hsince. change (stages (WriteFile output_file :: ?l)) with (stages l).
  rewrite (run_kind_stages _ _ _ _ _ _ _ _ Hkind).
  inversion Hkind as [r1 Hv| | | |]; subst.
  - rewrite Hvalid in Hv. done.
  - by exists [].
  - by exists [Transcribe].
  - by exists [Transcribe; Correct].
  - by exists [Transcribe; Correct].
Qed.

Lemma empty_recording_enters_pipeline_witness :
  files (stop_recording Demo.fair 3 None initial_state).2 !! output_file
  = Some (Wave.header 1 2 44100 0)
  /\ (stop_recording Demo.fair 3 None initial_state).1
     = Val (success_response (lit "vanakkam") (lit "Water the tomato plants.")).
Proof.
  split.
  - apply (empty_recording_enters_pipeline Demo.fair 3 None initial_state).
    reflexivity.
  - vm_compute. reflexivity.
Defined.

(** C1 fails on the code.  When the ontology file cannot be opened,
    [correct_and_translate] returns a string that begins with "Error:";
    [/stop-recording] answers with status "success", that string as
    [english_text], and keeps it as the session text.  When the translation
    service answers 401, [/translate-to-language] answers with status
    "success" and "Error: Translation failed." as [translated_text]. *)
Lemma error_sentinel_reported_as_success :
  let recorded := stop_recording Demo.failing 3 (Some (lit "ta-IN")) initial_state in
  let sentinel :=
    lit "Error: [Errno 2] No such file or directory: './Polyhouse Ontology.ttl'" in
  recorded.1 = Val (success_response (lit "vanakkam") sentinel)
  /\ startswith (lit "Error:") sentinel = true
  /\ current_english_text recorded.2 = Some sentinel
  /\ (translate_to_language Demo.failing Demo.to_hindi Demo.ready).1
     = Val (PDict [ (lit "status", PStr (lit "success"));
                    (lit "translated_text", PStr (lit "Error: Translation failed."));
                    (lit "target_language", PStr (lit "Hindi")) ]).
Proof. vm_compute. repeat split. Qed.

(** * Further properties of the code *)

(** ** The recording and its validation *)

(** X1.  [/stop-recording] leaves a valid WAV file.  When the recorded
    bytes fit a WAV file (36 bytes of header and the data within 2^32 - 1),
    the file at [uploads/recorded_audio.wav] after the request is the
    44-byte PCM header for mono, 16 bit, 44100 Hz followed by the joined
    frames; [wave.open] reads it back with these parameters and half as
    many frames as there are bytes; and the request never answers
    "Invalid WAV file". *)
Theorem recording_is_a_valid_wav w fuel lang s :
  let data := concat (audio_frames s) in
  let len := Z.of_nat (length data) in
  36 + len <= 4294967295 ->
  files (stop_recording w fuel lang s).2 !! output_file
  = Some (Wave.header 1 2 44100 len ++ data)
  /\ Wave.initfp (Wave.header 1 2 44100 len ++ data)
     = Wave.Opened (Wave.Params 1 2 44100 (len / 2))
  /\ (stop_recording w fuel lang s).1
     <> Val (error_response (lit "Invalid WAV file")).
Proof.
  intros data len Hfit. subst data len.
  destruct (write_read _ Hfit) as [Hw Hr].
  destruct (recording_fits s Hfit) as [Hrec Hvalid].
  assert (Hcontent : (recording s).2
            = Wave.header 1 2 44100
                (Z.of_nat (length (concat (audio_frames s))))
              ++ concat (audio_frames s)).
  { unfold recording. by rewrite Hw. }
  rewrite stop_recording_eq, Hrec.
  destruct (process_audio_run w fuel output_file (default (lit "te-IN") lang)
              (recorded s)) as (r & s' & called & Hrun & Hkind).
  rewrite Hrun. cbn [fst snd].
  destruct (run_kind_frame _ _ _ _ _ _ _ _ Hkind) as (Hfiles & _).
  split; [|split].
  - rewrite Hfiles. unfold recorded; cbn [files].
    by rewrite lookup_insert_eq, Hcontent.
  - rewrite Hw in Hr. exact Hr.
  - assert (Hv : (validate_wav_file output_file (recorded s)).1 = Val true).
    { rewrite validate_wav_file_eq. exact Hvalid. }
    inversion Hkind as [r1 Hv1| | n evs r1 ? ? ? Hr1 | |]; subst;
      try (intros [=]; fail).
    + rewrite Hv in Hv1. done.
    + destruct Hr1 as [->|[->|[e ->]]]; intros [= Hm];
        vm_compute in Hm; discriminate.
Qed.

Lemma recording_is_a_valid_wav_witness :
  let s := mkState None None true
             [Wave.ascii_bytes "abcd"; Wave.ascii_bytes "ef"] ∅ 0 [] in
  files (stop_recording Demo.fair 3 None s).2 !! output_file
  = Some (Wave.header 1 2 44100 6 ++ Wave.ascii_bytes "abcdef").
Proof.
  intros s.
  apply (recording_is_a_valid_wav Demo.fair 3 None s). vm_compute. discriminate.
Defined.


(** What [process_audio] does when the validation does not pass. *)
Lemma process_audio_not_valid w fuel path lang s :
  validate_outcome (files s !! path) path <> Val true ->
  process_audio w fuel path lang s
  = (match validate_outcome (files s !! path) path with
     | Raise e => Val (exception_response e)
     | _ => Val (error_response (lit "Invalid WAV file"))
     end, advance 0 [Enter Validate] s).
Proof.
  intros Hnot. unfold process_audio. run. rewrite validate_wav_file_eq.
  cbn [fst snd].
  destruct (validate_outcome (files s !! path) path) as [[|]|e|] eqn:Ho;
    run; try done.
  unfold validate_outcome in Ho.
  destruct (files s !! path) as [c|]; [|done].
  destruct (Wave.initfp c) as [|e]; [done|].
  by destruct (bool_decide (exc_cls e = WaveError)).
Qed.

Lemma initfp_truncated content :
  (length content < 8)%nat -> Wave.initfp content = Wave.eof_error.
Proof.
  intros Hlen. unfold Wave.initfp.
  destruct (Nat.ltb_spec (length (take 4 content)) 4) as [|H4]; [done|].
  destruct (Nat.ltb_spec (length (take 4 (drop 4 content))) 4) as [|H8];
    [done|].
  rewrite length_take, length_drop in H8. lia.
Qed.

(** X2.  A file shorter than the eight bytes of a RIFF chunk header makes
    [wave.open] raise [EOFError], which is not a [wave.Error]:
    [validate_wav_file] raises instead of returning [False], and
    [process_audio] answers with the message ["Error: "] (the exception has
    an empty text), not ["Invalid WAV file"], before anything is
    uploaded. *)
Theorem truncated_file_is_not_reported_invalid w fuel path lang s content :
  files s !! path = Some content ->
  (length content < 8)%nat ->
  validate_wav_file path s
  = (Raise (Exc EOFError []), advance 0 [Enter Validate] s)
  /\ process_audio w fuel path lang s
     = (Val (error_response (lit "Error: ")), advance 0 [Enter Validate] s).
Proof.
  intros Hfile Hlen.
  assert (Ho : validate_outcome (files s !! path) path
               = Raise (Exc EOFError [])).
  { unfold validate_outcome. rewrite Hfile, (initfp_truncated _ Hlen). done. }
  split.
  - by rewrite validate_wav_file_eq, Ho.
  - rewrite process_audio_not_valid by (rewrite Ho; discriminate).
    rewrite Ho. unfold exception_response. cbn [exc_msg].
    by rewrite app_nil_r.
Qed.

Lemma truncated_file_is_not_reported_invalid_witness :
  (process_audio Demo.fair 3 output_file (lit "ta-IN")
     (Demo.with_file (Wave.ascii_bytes "RIFF"))).1
  = Val (error_response (lit "Error: ")).
Proof.
  destruct (truncated_file_is_not_reported_invalid Demo.fair 3 output_file
              (lit "ta-IN") (Demo.with_file (Wave.ascii_bytes "RIFF"))
              (Wave.ascii_bytes "RIFF")) as [_ Hrun].
  - reflexivity.
  - vm_compute. lia.
  - rewrite Hrun. reflexivity.
Defined.

(** X3.  A file of at least eight bytes that does not begin with [RIFF] is
    rejected: [validate_wav_file] returns [False] and [process_audio]
    answers ["Invalid WAV file"] having entered no other stage, drawn no
    session id and called no service. *)
Theorem file_without_riff_id_is_invalid w fuel path lang s content :
  files s !! path = Some content ->
  (8 <= length content)%nat ->
  Wave.bytes_eqb (take 4 content) (Wave.ascii_bytes "RIFF") = false ->
  validate_wav_file path s = (Val false, advance 0 [Enter Validate] s)
  /\ process_audio w fuel path lang s
     = (Val (error_response (lit "Invalid WAV file")),
        advance 0 [Enter Validate] s).
Proof.
  intros Hfile Hlen Hriff.
  assert (Ho : validate_outcome (files s !! path) path = Val false).
  { unfold validate_outcome, Wave.initfp. rewrite Hfile.
    destruct (Nat.ltb_spec (length (take 4 content)) 4) as [H4|_].
    { rewrite length_take in H4. lia. }
    destruct (Nat.ltb_spec (length (take 4 (drop 4 content))) 4) as [H8|_].
    { rewrite length_take, length_drop in H8. lia. }
    rewrite Hriff. done. }
  split.
  - by rewrite validate_wav_file_eq, Ho.
  - rewrite process_audio_not_valid by (rewrite Ho; discriminate).
    by rewrite Ho.
Qed.

Lemma file_without_riff_id_is_invalid_witness :
  let s := Demo.with_file (Wave.ascii_bytes "ID3.....mp3 data") in
  (process_audio Demo.fair 3 output_file (lit "ta-IN") s).1
  = Val (error_response (lit "Invalid WAV file"))
  /\ current_session_id (process_audio Demo.fair 3 output_file (lit "ta-IN") s).2
     = None.
Proof.
  intros s.
  destruct (file_without_riff_id_is_invalid Demo.fair 3 output_file
              (lit "ta-IN") s (Wave.ascii_bytes "ID3.....mp3 data"))
    as [_ Hrun].
  - reflexivity.
  - vm_compute. lia.
  - reflexivity.
  - rewrite Hrun. split; reflexivity.
Defined.

(** X4.  For a path with no file, [process_audio] answers with the text of
    the [FileNotFoundError] raised inside [validate_wav_file] (only
    [wave.Error] is caught there), and [upload_to_s3] returns [False]
    without consulting S3. *)
Theorem missing_file_is_an_exception_and_no_upload w fuel path lang bucket key s :
  files s !! path = None ->
  process_audio w fuel path lang s
  = (Val (error_response
            (lit "Error: [Errno 2] No such file or directory: '" ++ path
             ++ lit "'")),
     advance 0 [Enter Validate] s)
  /\ upload_to_s3 w path bucket key s
     = (Val false, advance 0 [Enter Upload] s).
Proof.
  intros Hfile. split.
  - rewrite process_audio_not_valid by (rewrite Hfile; discriminate).
    rewrite Hfile. cbn [validate_outcome]. unfold exception_response.
    cbn [exc_msg]. reflexivity.
  - by rewrite upload_to_s3_eq, Hfile.
Qed.

Lemma missing_file_is_an_exception_and_no_upload_witness :
  (upload_to_s3 Demo.fair output_file None (lit "k.wav") initial_state).1
  = Val false
  /\ tick (upload_to_s3 Demo.fair output_file None (lit "k.wav")
             initial_state).2 = 0%nat.
Proof.
  destruct (missing_file_is_an_exception_and_no_upload Demo.fair 3 output_file
              (lit "ta-IN") None (lit "k.wav") initial_state eq_refl)
    as [_ Hup].
  rewrite Hup. split; reflexivity.
Defined.

(** X5.  [upload_to_s3] never raises: it returns [True] exactly when the
    file exists and [upload_fileobj] accepted it, and [False] otherwise; it
    sends at most one object, and none when the file cannot be opened. *)
Theorem upload_to_s3_never_raises w path bucket key s :
  exists uploaded n evs,
    upload_to_s3 w path bucket key s = (Val uploaded, advance n evs s)
    /\ (uploaded = true <->
        exists data, files s !! path = Some data
                     /\ upload_fileobj w (tick s) data bucket key = None)
    /\ (count is_put evs <= 1)%nat
    /\ (files s !! path = None -> count is_put evs = 0%nat).
Proof.
  rewrite upload_to_s3_eq.
  destruct (files s !! path) as [data|] eqn:Hfile.
  - eexists _, _, _. split; [reflexivity|]. split; [|split; [cbn; lia|done]].
    split.
    + intros Hb. apply bool_decide_eq_true in Hb. by exists data.
    + intros (d & [= <-] & Hok). by apply bool_decide_eq_true.
  - eexists _, _, _. split; [reflexivity|]. split; [|split; [cbn; lia|done]].
    split; [done|]. by intros (d & Hd & _).
Qed.


(** ** [transcribe_audio] *)

Lemma extract_transcript_extracted data s :
  extract_transcript data s = (extracted data, s).
Proof.
  unfold extracted, extract_transcript. run.
  repeat (match goal with
          | |- context [py_in ?a ?b] => destruct (py_in a b); run
          | |- context [getitem ?a ?b] => destruct (getitem a b); run
          | |- context [getitem0 ?a] => destruct (getitem0 a); run
          | |- context [truthy ?a] => destruct (truthy a); run
          | |- context [negb ?b] => destruct b; run
          end); reflexivity.
Qed.

Section Transcribe.
Context (w : World).

(** The result of [transcribe_audio] for a job that completes at poll [n]
    and whose transcript can be fetched. *)
Lemma transcribe_audio_completed fuel job_name uri lang s n j u data :
  start_transcription_job w (tick s) job_name uri lang = None ->
  (forall i, (i < n)%nat ->
     exists ji, get_transcription_job w (i + S (tick s)) job_name = inr ji
                /\ nonterminal (job_status ji)) ->
  get_transcription_job w (n + S (tick s)) job_name = inr j ->
  job_status j = lit "COMPLETED" ->
  transcript_file_uri j = Some u ->
  fetch_transcript w (S (n + S (tick s))) u = inr data ->
  (n < fuel)%nat ->
  transcribe_audio w fuel job_name uri lang s
  = (Val (match extracted data with Val v => v | _ => PNone end),
     advance (n + 3)
       (Enter Transcribe :: StartJob job_name uri lang
        :: waiting n job_name ++ [GetJob job_name; UrlOpen u]) s).
Proof.
  intros Hstart Hwait Hj Hstatus Hu Hfetch Hfuel.
  unfold transcribe_audio. run. rewrite Hstart. run.
  replace fuel with (n + S (fuel - S n))%nat by lia.
  match goal with
  | |- context [poll w _ job_name ?s1] => set (s1' := s1)
  end.
  rewrite (poll_waiting w n (S (fuel - S n)) job_name s1') by exact Hwait.
  set (s2 := advance n (waiting n job_name) s1').
  assert (Hj2 : get_transcription_job w (tick s2) job_name = inr j) by exact Hj.
  assert (Hf2 : fetch_transcript w (S (tick s2)) u = inr data) by exact Hfetch.
  cbn [poll]. run. rewrite Hj2. run. rewrite Hstatus.
  replace (eqb (lit "COMPLETED") (lit "COMPLETED")) with true by done.
  rewrite Hu. run. rewrite Hf2. run.
  rewrite extract_transcript_extracted.
  assert (Hs : forall r : outcome pyval, (r,
     mkState (current_session_id s2) (current_english_text s2)
       (is_recording s2) (audio_frames s2) (files s2) (S (S (tick s2)))
       ((trace s2 ++ [GetJob job_name]) ++ [UrlOpen u]))
     = (r, advance (n + 3)
       (Enter Transcribe :: StartJob job_name uri lang
        :: waiting n job_name ++ [GetJob job_name; UrlOpen u]) s)).
  { intros r. f_equal. unfold s2, s1', advance. run. f_equal; [lia|].
    rewrite <- !app_assoc. reflexivity. }
  assert (Hnt : extracted data <> Timeout).
  { unfold extracted.
    destruct (extract_transcript_pure data initial_state) as (r & -> & Hr).
    exact Hr. }
  destruct (extracted data) as [v|e|]; run; [apply Hs..|done].
Qed.

(** The same for a poll that raises. *)
Lemma transcribe_audio_poll_raises fuel job_name uri lang s n e :
  start_transcription_job w (tick s) job_name uri lang = None ->
  (forall i, (i < n)%nat ->
     exists ji, get_transcription_job w (i + S (tick s)) job_name = inr ji
                /\ nonterminal (job_status ji)) ->
  get_transcription_job w (n + S (tick s)) job_name = inl e ->
  (n < fuel)%nat ->
  transcribe_audio w fuel job_name uri lang s
  = (Val PNone,
     advance (n + 2)
       (Enter Transcribe :: StartJob job_name uri lang
        :: waiting n job_name ++ [GetJob job_name]) s).
Proof.
  intros Hstart Hwait Hj Hfuel.
  unfold transcribe_audio. run. rewrite Hstart. run.
  replace fuel with (n + S (fuel - S n))%nat by lia.
  match goal with
  | |- context [poll w _ job_name ?s1] => set (s1' := s1)
  end.
  rewrite (poll_waiting w n (S (fuel - S n)) job_name s1') by exact Hwait.
  set (s2 := advance n (waiting n job_name) s1').
  assert (Hj2 : get_transcription_job w (tick s2) job_name = inl e) by exact Hj.
  cbn [poll]. run. rewrite Hj2. run.
  f_equal. unfold s2, s1', advance. run. f_equal; [lia|].
  rewrite <- !app_assoc. reflexivity.
Qed.

End Transcribe.

(** X6.  [transcribe_audio] never raises: a run ends with a value or is
    still polling when the fuel is spent.  When the job cannot be started
    the result is [None] and the status of the job is never requested. *)
Theorem transcribe_audio_never_raises w fuel job_name uri lang s :
  ((transcribe_audio w fuel job_name uri lang s).1 = Timeout
   \/ exists v, (transcribe_audio w fuel job_name uri lang s).1 = Val v)
  /\ (forall e,
        start_transcription_job w (tick s) job_name uri lang = Some e ->
        transcribe_audio w fuel job_name uri lang s
        = (Val PNone,
           advance 1 [Enter Transcribe; StartJob job_name uri lang] s)).
Proof.
  split.
  - destruct (transcribe_audio_frame w fuel job_name uri lang s)
      as (r & n & evs & Hrun & _ & Hr).
    rewrite Hrun. cbn [fst]. destruct Hr as [->|[v ->]]; eauto.
  - intros e Hstart. unfold transcribe_audio. run. rewrite Hstart. run.
    f_equal. state_eq.
Qed.

(** X7.  An exception of [get_transcription_job] ends the polling: after
    [n] polls that found the job in a non-terminal status, a poll that
    raises makes [transcribe_audio] return [None], after [n + 1] status
    requests and [n] sleeps, without fetching any transcript. *)
Theorem poll_exception_ends_transcription w fuel job_name uri lang s n e :
  start_transcription_job w (tick s) job_name uri lang = None ->
  (forall i, (i < n)%nat ->
     exists ji, get_transcription_job w (i + S (tick s)) job_name = inr ji
                /\ nonterminal (job_status ji)) ->
  get_transcription_job w (n + S (tick s)) job_name = inl e ->
  (n < fuel)%nat ->
  let run := transcribe_audio w fuel job_name uri lang s in
  run.1 = Val PNone
  /\ count is_poll (since s run.2) = S n
  /\ count is_sleep (since s run.2) = n
  /\ count is_fetch (since s run.2) = 0%nat.
Proof.
  intros Hstart Hwait Hj Hfuel run. subst run.
  rewrite (transcribe_audio_poll_raises w fuel job_name uri lang s n e)
    by assumption.
  cbn [fst snd]. rewrite since_advance. split; [done|].
  change (Enter Transcribe :: StartJob job_name uri lang
          :: waiting n job_name ++ [GetJob job_name])
    with ([Enter Transcribe; StartJob job_name uri lang]
          ++ waiting n job_name ++ [GetJob job_name]).
  destruct (count_waiting n job_name) as (Hp & Hs & _).
  rewrite !count_app, Hp, Hs.
  assert (Hfetch : count is_fetch (waiting n job_name) = 0%nat).
  { clear. induction n as [|n IH]; [done|]. exact IH. }
  rewrite Hfetch. cbn. lia.
Qed.


Lemma waits_two final i :
  (i < 2)%nat ->
  exists ji, Scenario.after_two final (i + 1) = inr ji
             /\ nonterminal (job_status ji).
Proof.
  intros Hi. destruct i as [|[|i]]; [| |lia];
    (eexists; split; [reflexivity|split; reflexivity]).
Qed.

Lemma poll_exception_ends_transcription_witness :
  (transcribe_audio Scenario.throttled 5 (lit "job") (lit "s3://b/job.wav")
     (lit "ta-IN") initial_state).1 = Val PNone.
Proof.
  apply (poll_exception_ends_transcription Scenario.throttled 5 (lit "job")
           (lit "s3://b/job.wav") (lit "ta-IN") initial_state 2
           (Exc ServiceError (lit "ThrottlingException")));
    [reflexivity|apply waits_two|reflexivity|lia].
Defined.

(** X8.  A job that ends in the status [FAILED] makes [transcribe_audio]
    return [None]: the calls are the start of the job, one status request
    and one sleep for each poll that found it unfinished, and the request
    that found it failed; the transcript is not fetched. *)
Theorem failed_job_returns_none_without_fetch w fuel job_name uri lang s n j :
  start_transcription_job w (tick s) job_name uri lang = None ->
  (forall i, (i < n)%nat ->
     exists ji, get_transcription_job w (i + S (tick s)) job_name = inr ji
                /\ nonterminal (job_status ji)) ->
  get_transcription_job w (n + S (tick s)) job_name = inr j ->
  job_status j = lit "FAILED" ->
  (n < fuel)%nat ->
  let run := transcribe_audio w fuel job_name uri lang s in
  run.1 = Val PNone
  /\ since s run.2
     = Enter Transcribe :: StartJob job_name uri lang
       :: waiting n job_name ++ [GetJob job_name]
  /\ count is_fetch (since s run.2) = 0%nat.
Proof.
  intros Hstart Hwait Hj Hstatus Hfuel run. subst run.
  destruct (transcribe_audio_terminal w fuel job_name uri lang s n j
              Hstart Hwait Hj (or_intror Hstatus) Hfuel)
    as (v & k & tail & Hrun & _ & Hfailed & _).
  destruct (Hfailed Hstatus) as [-> ->].
  rewrite Hrun. cbn [fst snd]. rewrite since_advance.
  split; [done|]. split; [done|].
  change (Enter Transcribe :: StartJob job_name uri lang
          :: waiting n job_name ++ [GetJob job_name])
    with ([Enter Transcribe; StartJob job_name uri lang]
          ++ waiting n job_name ++ [GetJob job_name]).
  rewrite !count_app.
  assert (Hfetch : count is_fetch (waiting n job_name) = 0%nat).
  { clear. induction n as [|n IH]; [done|]. exact IH. }
  rewrite Hfetch. reflexivity.
Qed.

Lemma failed_job_returns_none_without_fetch_witness :
  (transcribe_audio Scenario.failed_job 5 (lit "job") (lit "s3://b/job.wav")
     (lit "ta-IN") initial_state).1 = Val PNone.
Proof.
  apply (failed_job_returns_none_without_fetch Scenario.failed_job 5
           (lit "job") (lit "s3://b/job.wav") (lit "ta-IN") initial_state 2
           (Job (lit "FAILED")
                (Some (lit "https://s3.amazonaws.com/transcript.json")) None));
    [reflexivity|apply waits_two|reflexivity|reflexivity|lia].
Defined.

(** X9.  A job that ends in the status [COMPLETED] makes
    [transcribe_audio] fetch the transcript file once and return the first
    transcript of the payload as it is (not stripped), when that is a
    non-empty string. *)
Theorem completed_job_returns_first_transcript
    w fuel job_name uri lang s n j u data text :
  start_transcription_job w (tick s) job_name uri lang = None ->
  (forall i, (i < n)%nat ->
     exists ji, get_transcription_job w (i + S (tick s)) job_name = inr ji
                /\ nonterminal (job_status ji)) ->
  get_transcription_job w (n + S (tick s)) job_name = inr j ->
  job_status j = lit "COMPLETED" ->
  transcript_file_uri j = Some u ->
  fetch_transcript w (S (n + S (tick s))) u = inr data ->
  first_transcript data = inr (PStr text) ->
  text <> [] ->
  (n < fuel)%nat ->
  let run := transcribe_audio w fuel job_name uri lang s in
  run.1 = Val (PStr text)
  /\ since s run.2
     = Enter Transcribe :: StartJob job_name uri lang
       :: waiting n job_name ++ [GetJob job_name; UrlOpen u].
Proof.
  intros Hstart Hwait Hj Hstatus Hu Hfetch Hfirst Htext Hfuel run. subst run.
  rewrite (transcribe_audio_completed w fuel job_name uri lang s n j u data)
    by assumption.
  cbn [fst snd]. rewrite since_advance. split; [|done].
  unfold extracted. rewrite (extract_first_transcript _ _ _ Hfirst).
  cbn [fst truthy]. by rewrite bool_decide_eq_false_2.
Qed.

Lemma completed_job_returns_first_transcript_witness :
  (transcribe_audio Scenario.two_transcripts 5 (lit "job")
     (lit "s3://b/job.wav") (lit "ta-IN") initial_state).1
  = Val (PStr (lit " vanakkam ")).
Proof.
  apply (completed_job_returns_first_transcript Scenario.two_transcripts 5
           (lit "job") (lit "s3://b/job.wav") (lit "ta-IN") initial_state 2
           (Job (lit "COMPLETED")
                (Some (lit "https://s3.amazonaws.com/transcript.json")) None)
           (lit "https://s3.amazonaws.com/transcript.json")
           Scenario.padded_payload (lit " vanakkam "));
    [reflexivity|apply waits_two|reflexivity|reflexivity|reflexivity
    |reflexivity|reflexivity|vm_compute; discriminate|lia].
Defined.

(** X10.  A completed job whose payload has no ["results"], or whose
    results have no ["transcripts"] or an empty list of them, makes
    [transcribe_audio] return [None] rather than raise. *)
Theorem payload_without_results_returns_none
    w fuel job_name uri lang s n j u data :
  start_transcription_job w (tick s) job_name uri lang = None ->
  (forall i, (i < n)%nat ->
     exists ji, get_transcription_job w (i + S (tick s)) job_name = inr ji
                /\ nonterminal (job_status ji)) ->
  get_transcription_job w (n + S (tick s)) job_name = inr j ->
  job_status j = lit "COMPLETED" ->
  transcript_file_uri j = Some u ->
  fetch_transcript w (S (n + S (tick s))) u = inr data ->
  (py_in (lit "results") data <> inr true
   \/ (exists results,
         getitem data (lit "results") = inr results
         /\ (py_in (lit "transcripts") results <> inr true
             \/ getitem results (lit "transcripts") = inr (PList [])))) ->
  (n < fuel)%nat ->
  (transcribe_audio w fuel job_name uri lang s).1 = Val PNone.
Proof.
  intros Hstart Hwait Hj Hstatus Hu Hfetch Hshape Hfuel.
  rewrite (transcribe_audio_completed w fuel job_name uri lang s n j u data)
    by assumption.
  cbn [fst]. f_equal. unfold extracted, extract_transcript. run.
  destruct Hshape as [Hno|(results & Hres & Hshape)].
  - destruct (py_in (lit "results") data) as [e|[|]]; run; done.
  - rewrite (getitem_in _ _ _ Hres). run. rewrite Hres. run.
    destruct Hshape as [Hno|Hempty].
    + destruct (py_in (lit "transcripts") results) as [e|[|]]; run; done.
    + rewrite (getitem_in _ _ _ Hempty). run. rewrite Hempty. run. done.
Qed.

Lemma payload_without_results_returns_none_witness :
  (transcribe_audio Scenario.no_results 5 (lit "job") (lit "s3://b/job.wav")
     (lit "ta-IN") initial_state).1 = Val PNone.
Proof.
  apply (payload_without_results_returns_none Scenario.no_results 5
           (lit "job") (lit "s3://b/job.wav") (lit "ta-IN") initial_state 2
           (Job (lit "COMPLETED")
                (Some (lit "https://s3.amazonaws.com/transcript.json")) None)
           (lit "https://s3.amazonaws.com/transcript.json")
           (PDict [ (lit "jobName", PStr (lit "job")) ]));
    [reflexivity|apply waits_two|reflexivity|reflexivity|reflexivity
    |reflexivity|left; vm_compute; discriminate|lia].
Defined.


(** ** [correct_and_translate] *)

(** *** [str.strip] *)

Lemma lstrip_split s : exists sp, s = sp ++ lstrip s /\ only_spaces sp.
Proof.
  induction s as [|c s (sp & Hs & Hsp)].
  - exists []. split; [done|constructor].
  - cbn [lstrip]. destruct (is_space c) eqn:Hc.
    + exists (c :: sp). split; [cbn; by rewrite <- Hs|by constructor].
    + exists []. split; [done|constructor].
Qed.

Lemma lstrip_head s c rest : lstrip s = c :: rest -> is_space c = false.
Proof.
  induction s as [|d s IH]; [done|]. cbn [lstrip].
  destruct (is_space d) eqn:Hd; [exact IH|]. by intros [= <- _].
Qed.

Lemma lstrip_blank s : only_spaces s -> lstrip s = [].
Proof.
  induction 1 as [|c s Hc _ IH]; [done|]. cbn [lstrip]. by rewrite Hc.
Qed.

Lemma lstrip_id s c rest : s = c :: rest -> is_space c = false -> lstrip s = s.
Proof. intros -> Hc. cbn [lstrip]. by rewrite Hc. Qed.

Lemma rstrip_split s : exists sp, s = rstrip s ++ sp /\ only_spaces sp.
Proof.
  unfold rstrip. destruct (lstrip_split (reverse s)) as (sp & Hs & Hsp).
  exists (reverse sp). split.
  - rewrite <- reverse_app, <- Hs. by rewrite reverse_involutive.
  - unfold only_spaces. by apply Forall_reverse.
Qed.

Lemma rstrip_last s c : last (rstrip s) = Some c -> is_space c = false.
Proof.
  unfold rstrip. rewrite last_reverse.
  destruct (lstrip (reverse s)) as [|d rest] eqn:Hl; [done|].
  intros [= <-]. by apply (lstrip_head _ _ _ Hl).
Qed.

Lemma rstrip_head s c rest :
  s = c :: rest -> is_space c = false ->
  exists rest', rstrip s = c :: rest'.
Proof.
  intros -> Hc. destruct (rstrip_split (c :: rest)) as (sp & Hs & Hsp).
  destruct (rstrip (c :: rest)) as [|d rest'] eqn:Hr.
  - cbn in Hs. subst sp. apply Forall_cons in Hsp as [Hc' _]. congruence.
  - injection Hs as -> _. by exists rest'.
Qed.

Lemma rstrip_id s c : last s = Some c -> is_space c = false -> rstrip s = s.
Proof.
  intros Hlast Hc. unfold rstrip.
  destruct (reverse s) as [|d r] eqn:Hr.
  - apply (f_equal reverse) in Hr. rewrite reverse_involutive in Hr.
    by subst s.
  - assert (d = c) as ->.
    { rewrite <- (reverse_involutive s), Hr, last_reverse in Hlast.
      by injection Hlast. }
    rewrite (lstrip_id _ c r eq_refl Hc), <- Hr. apply reverse_involutive.
Qed.

(** The result of [strip] has no whitespace at either end, and is left
    alone by another [strip]. *)
Lemma strip_trimmed s :
  (forall c rest, strip s = c :: rest -> is_space c = false)
  /\ (forall c, last (strip s) = Some c -> is_space c = false)
  /\ strip (strip s) = strip s.
Proof.
  assert (Hhead : forall c rest, strip s = c :: rest -> is_space c = false).
  { intros c rest Hs. unfold strip in Hs.
    destruct (lstrip s) as [|d r] eqn:Hl.
    - done.
    - pose proof (lstrip_head _ _ _ Hl) as Hd.
      destruct (rstrip_head (d :: r) d r eq_refl Hd) as (r' & Hr').
      rewrite Hr' in Hs. by injection Hs as <- _. }
  assert (Hlast : forall c, last (strip s) = Some c -> is_space c = false).
  { intros c. apply rstrip_last. }
  split; [exact Hhead|]. split; [exact Hlast|].
  destruct (strip s) as [|c rest] eqn:Hs; [done|].
  unfold strip at 1. rewrite (lstrip_id _ c rest eq_refl (Hhead _ _ eq_refl)).
  destruct (last (c :: rest)) as [d|] eqn:Hd.
  - by apply (rstrip_id _ d Hd), Hlast.
  - by apply last_None in Hd.
Qed.

Lemma strip_blank s : only_spaces s -> strip s = [].
Proof. intros Hs. unfold strip. by rewrite (lstrip_blank _ Hs). Qed.

(** X11.  [correct_and_translate] never raises and asks the model at most
    once.  When the ontology file cannot be read the model is not asked and
    the result is ["Error: "] followed by the text of the exception.
    Otherwise the model is asked once, with the prompt built from the
    ontology, the text and the language, and the result is the stripped
    answer, ["Error: No valid translation received."] when the response
    has no text, or ["Error: "] followed by the text of the exception the
    model raised. *)
Theorem correct_and_translate_calls_model_once w text lang s :
  exists english s',
    correct_and_translate w text lang s = (Val english, s')
    /\ (count is_generate (since s s') <= 1)%nat
    /\ (forall e, read_ontology w (tick s) = inl e ->
        english = lit "Error: " ++ exc_msg e
        /\ count is_generate (since s s') = 0%nat)
    /\ (forall onto, read_ontology w (tick s) = inr onto ->
        since s s'
        = [Enter Correct; OpenOntology; Generate (build_prompt onto text lang)]
        /\ match generate_content w (S (tick s)) (build_prompt onto text lang)
           with
           | inl e => english = lit "Error: " ++ exc_msg e
           | inr None => english = lit "Error: No valid translation received."
           | inr (Some answer) => english = strip answer
           end).
Proof.
  destruct (correct_and_translate_spec w text lang s)
    as (r & n & evs & Hrun & _ & Hcase).
  exists r, (advance n (Enter Correct :: evs) s). split; [exact Hrun|].
  rewrite since_advance.
  destruct (read_ontology w (tick s)) as [e|onto].
  - destruct Hcase as [-> ->]. split; [cbn; lia|]. split; [|done].
    by intros e' [= <-].
  - cbv zeta in Hcase. destruct Hcase as [-> Hr].
    split; [cbn; lia|]. split; [done|]. by intros onto' [= <-].
Qed.

(** X12.  The text [correct_and_translate] returns for an answer of the
    model is the answer without the whitespace around it: it neither
    begins nor ends with whitespace, stripping it again changes nothing,
    and an answer of whitespace only gives the empty string. *)
Theorem corrected_text_is_trimmed w text lang s onto answer :
  read_ontology w (tick s) = inr onto ->
  generate_content w (S (tick s)) (build_prompt onto text lang)
  = inr (Some answer) ->
  let english := strip answer in
  (correct_and_translate w text lang s).1 = Val english
  /\ (forall c rest, english = c :: rest -> is_space c = false)
  /\ (forall c, last english = Some c -> is_space c = false)
  /\ strip english = english
  /\ (only_spaces answer -> english = []).
Proof.
  intros Honto Hanswer english. subst english.
  destruct (correct_and_translate_spec w text lang s)
    as (r & n & evs & Hrun & _ & Hcase).
  rewrite Honto in Hcase. cbv zeta in Hcase. rewrite Hanswer in Hcase.
  destruct Hcase as [_ ->]. rewrite Hrun.
  destruct (strip_trimmed answer) as (Hhead & Hlast & Hidem).
  split; [done|]. split; [exact Hhead|]. split; [exact Hlast|].
  split; [exact Hidem|]. apply strip_blank.
Qed.

Lemma corrected_text_is_trimmed_witness :
  (correct_and_translate Demo.fair (lit "vanakkam") (lit "ta-IN")
     initial_state).1 = Val (lit "Water the tomato plants.").
Proof.
  apply (corrected_text_is_trimmed Demo.fair (lit "vanakkam") (lit "ta-IN")
           initial_state (lit "@prefix : <#> .")
           (lit " Water the tomato plants. ") eq_refl eq_refl).
Defined.


(** ** [process_audio] and [/stop-recording] *)

Section Pipeline.
Context (w : World).

(** [process_audio] once the file is validated and uploaded. *)
Lemma process_audio_after_upload fuel path lang s :
  (validate_wav_file path s).1 = Val true ->
  (upload_to_s3 w path (bucket_name w) (object_key w s) (at_upload w s)).1
  = Val true ->
  process_audio w fuel path lang s
  = match transcribe_audio w fuel (uuid4 w (tick s)) (s3_uri w s) lang
            (at_transcribe w s) with
    | (Val v, s3) => after_transcription w lang v s3
    | (Raise e, s3) => (Val (exception_response e), s3)
    | (Timeout, s3) => (Timeout, s3)
    end.
Proof.
  intros Hvalid Hupload.
  rewrite validate_wav_file_eq in Hvalid. cbn [fst] in Hvalid.
  rewrite upload_to_s3_eq in Hupload.
  unfold at_upload at 1 in Hupload. cbn [files started] in Hupload.
  destruct (files s !! path) as [data|] eqn:Hfile; [|done].
  cbn [fst tick at_upload started] in Hupload.
  unfold process_audio. run. rewrite validate_wav_file_eq. cbn [fst snd].
  rewrite Hfile in *. rewrite Hvalid. run.
  rewrite upload_to_s3_eq. cbn [files tick]. rewrite Hfile.
  fold (object_key w s) in *.
  injection Hupload as ->. run.
  match goal with
  | |- context [transcribe_audio w fuel ?a ?b ?c ?s1] =>
      replace (transcribe_audio w fuel a b c s1)
        with (transcribe_audio w fuel (uuid4 w (tick s)) (s3_uri w s) lang
                (at_transcribe w s))
  end.
  2:{ f_equal. unfold at_transcribe, started, object_key. state_eq. }
  destruct (transcribe_audio w fuel (uuid4 w (tick s)) (s3_uri w s) lang
              (at_transcribe w s)) as [[v|e|] s3]; run; try done.
  unfold after_transcription.
  destruct (usable_text v) as [e|[text|]]; run; try done.
  destruct (correct_and_translate w text lang s3) as [[eng|e|] s4]; run;
    try done.
  by destruct (bool_decide (eng = [])).
Qed.

(** The record of a run of [transcribe_audio] begins with the job it
    starts. *)
Lemma transcribe_audio_begins fuel job_name uri lang s :
  exists r n evs,
    transcribe_audio w fuel job_name uri lang s
    = (r, advance n (Enter Transcribe :: StartJob job_name uri lang :: evs) s).
Proof.
  unfold transcribe_audio. run.
  destruct (start_transcription_job w (tick s) job_name uri lang) as [e|]; run.
  { exists (Val PNone), 1%nat, []. f_equal. state_eq. }
  match goal with
  | |- context [poll w fuel job_name ?s1] =>
      destruct (poll_frame w fuel job_name s1) as (r & n & evs & Hr & _)
  end.
  rewrite Hr.
  assert (Hs : forall r' : outcome pyval, (r', advance n evs
                 (mkState (current_session_id s) (current_english_text s)
                    (is_recording s) (audio_frames s) (files s) (S (tick s))
                    ((trace s ++ [Enter Transcribe])
                     ++ [StartJob job_name uri lang])))
               = (r', advance (n + 1)
                   (Enter Transcribe :: StartJob job_name uri lang :: evs) s)).
  { intros r'. f_equal. state_eq. }
  destruct r as [v|e|]; run; eexists _, _, _; apply Hs.
Qed.

End Pipeline.


Lemma since_extends s s' evs : trace s' = trace s ++ evs -> since s s' = evs.
Proof. intros H. unfold since. by rewrite H, drop_app_length. Qed.

(** X13.  The whole pipeline behind [/stop-recording].  When the
    recording fits a WAV file, S3 accepts it, the job starts, is unfinished
    for [n] polls and then [COMPLETED], the first transcript is a string
    that is not blank and the model answers with a text that is not blank,
    the request answers with status "success", the transcript as
    [source_text] and the stripped answer as [english_text]; the session
    text is that answer, the session id is the UUID drawn for the run, and
    the stages entered are validation, upload, transcription and
    correction, in this order. *)
Theorem recording_is_transcribed_and_corrected
    w fuel lang s n j u data text onto answer :
  let sid := uuid4 w (tick s) in
  let input := default (lit "te-IN") lang in
  let t := S (S (S (tick s))) in
  36 + Z.of_nat (length (concat (audio_frames s))) <= 4294967295 ->
  upload_fileobj w (S (tick s)) (recording s).2 (bucket_name w)
    (object_key w (recorded s)) = None ->
  start_transcription_job w (S (S (tick s))) sid (s3_uri w (recorded s)) input
  = None ->
  (forall i, (i < n)%nat ->
     exists ji, get_transcription_job w (i + t) sid = inr ji
                /\ nonterminal (job_status ji)) ->
  get_transcription_job w (n + t) sid = inr j ->
  job_status j = lit "COMPLETED" ->
  transcript_file_uri j = Some u ->
  fetch_transcript w (S (n + t)) u = inr data ->
  first_transcript data = inr (PStr text) ->
  strip text <> [] ->
  read_ontology w (S (S (n + t))) = inr onto ->
  generate_content w (S (S (S (n + t)))) (build_prompt onto text input)
  = inr (Some answer) ->
  strip answer <> [] ->
  (n < fuel)%nat ->
  let run := stop_recording w fuel lang s in
  run.1 = Val (success_response text (strip answer))
  /\ current_english_text run.2 = Some (strip answer)
  /\ current_session_id run.2 = Some sid
  /\ stages (since s run.2) = [Validate; Upload; Transcribe; Correct].
Proof.
  intros sid input t Hfit Hupload Hstart Hwait Hj Hstatus Hu Hfetch Hfirst
    Htext Honto Hanswer Henglish Hfuel run. subst run.
  set (sid' := sid). set (input' := input). subst sid input t.
  rename sid' into sid. rename input' into input.
  destruct (recording_fits s Hfit) as [Hrec Hvalid].
  assert (Hnonempty : text <> []) by (intros ->; by apply Htext).
  rewrite stop_recording_eq, Hrec. fold input.
  assert (Hv : (validate_wav_file output_file (recorded s)).1 = Val true).
  { rewrite validate_wav_file_eq. exact Hvalid. }
  assert (Hup : (upload_to_s3 w output_file (bucket_name w)
                   (object_key w (recorded s)) (at_upload w (recorded s))).1
                = Val true).
  { rewrite upload_to_s3_eq.
    assert (Hfile : files (at_upload w (recorded s)) !! output_file
                    = Some (recording s).2).
    { unfold at_upload, started, recorded; cbn [files].
      apply lookup_insert_eq. }
    rewrite Hfile. cbn [fst]. f_equal. by apply bool_decide_eq_true. }
  rewrite (process_audio_after_upload w fuel output_file input (recorded s)
             Hv Hup).
  change (uuid4 w (tick (recorded s))) with sid.
  rewrite (transcribe_audio_completed w fuel sid (s3_uri w (recorded s)) input
             (at_transcribe w (recorded s)) n j u data)
    by assumption.
  unfold extracted. rewrite (extract_first_transcript _ _ _ Hfirst).
  cbn [fst truthy]. rewrite bool_decide_eq_false_2 by done. cbn [negb].
  unfold after_transcription, usable_text. cbn [truthy].
  rewrite bool_decide_eq_false_2 by done. cbn [negb].
  rewrite bool_decide_eq_false_2 by done.
  match goal with
  | |- context [correct_and_translate w text input ?s3] =>
      destruct (correct_and_translate_spec w text input s3)
        as (english & m & evs & Hrun & Hquiet & Hcase)
  end.
  rewrite Hrun.
  assert (Ho : read_ontology w
                 (tick (advance (n + 3)
                    (Enter Transcribe :: StartJob sid (s3_uri w (recorded s)) input
                     :: waiting n sid ++ [GetJob sid; UrlOpen u])
                    (at_transcribe w (recorded s)))) = inr onto).
  { rewrite <- Honto. f_equal. cbn. lia. }
  rewrite Ho in Hcase. cbv zeta in Hcase.
  assert (Hg : generate_content w
                 (S (tick (advance (n + 3)
                    (Enter Transcribe :: StartJob sid (s3_uri w (recorded s)) input
                     :: waiting n sid ++ [GetJob sid; UrlOpen u])
                    (at_transcribe w (recorded s)))))
                 (build_prompt onto text input) = inr (Some answer)).
  { rewrite <- Hanswer. f_equal. cbn. lia. }
  rewrite Hg in Hcase. destruct Hcase as [-> ->].
  rewrite bool_decide_eq_false_2 by done. cbn [fst snd].
  split; [done|]. split; [done|]. split; [done|].
  rewrite (since_extends s _
             ([WriteFile output_file; Enter Validate; Enter Upload;
               PutObject (bucket_name w) (object_key w (recorded s))]
              ++ (Enter Transcribe :: StartJob sid (s3_uri w (recorded s)) input
                  :: waiting n sid ++ [GetJob sid; UrlOpen u])
              ++ [Enter Correct; OpenOntology;
                  Generate (build_prompt onto text input)])).
  - rewrite !stages_app.
    change (Enter Transcribe :: StartJob sid (s3_uri w (recorded s)) input
            :: waiting n sid ++ [GetJob sid; UrlOpen u])
      with ([Enter Transcribe; StartJob sid (s3_uri w (recorded s)) input]
            ++ waiting n sid ++ [GetJob sid; UrlOpen u]).
    rewrite !stages_app.
    destruct (count_waiting n sid) as (_ & _ & ->). reflexivity.
  - cbn [trace with_english_text advance at_transcribe started recorded].
    rewrite <- !app_assoc. reflexivity.
Qed.

Lemma recording_is_transcribed_and_corrected_witness :
  (stop_recording Demo.fair 3 (Some (lit "ta-IN")) initial_state).1
  = Val (success_response (lit "vanakkam") (lit "Water the tomato plants.")).
Proof.
  assert (Hwait : forall i, (i < 2)%nat ->
     exists ji, get_transcription_job Demo.fair
                  (i + S (S (S (tick initial_state))))
                  (uuid4 Demo.fair (tick initial_state)) = inr ji
                /\ nonterminal (job_status ji)).
  { intros i Hi. destruct i as [|[|i]]; [| |lia];
      (eexists; split; [reflexivity|split; reflexivity]). }
  apply (recording_is_transcribed_and_corrected Demo.fair 3
           (Some (lit "ta-IN")) initial_state 2
           (Job (lit "COMPLETED")
                (Some (lit "https://s3.amazonaws.com/transcript.json")) None)
           (lit "https://s3.amazonaws.com/transcript.json")
           (Demo.payload (lit "vanakkam")) (lit "vanakkam")
           (lit "@prefix : <#> .") (lit " Water the tomato plants. "));
    try reflexivity; try exact Hwait; try (vm_compute; discriminate); lia.
Defined.


(** Two responses that differ in a literal. *)
Ltac other_response H := exfalso; vm_compute in H; discriminate H.

Lemma usable_text_Some v text : usable_text v = inr (Some text) -> v = PStr text.
Proof.
  unfold usable_text. destruct (negb (truthy v)); [done|].
  destruct v; try done.
  destruct (bool_decide (strip s = [])); [done|]. by intros [= ->].
Qed.

(** X14.  [process_audio] answers ["Translation to English failed"] only
    when the model, asked in this run, answered with a text that is empty
    or only whitespace.  The run then ends with the correction stage: after
    [transcribe_audio] returned the text, the ontology was read at the
    next tick and the model was asked at the one after, with the prompt
    built from that ontology, that text and the language, which is the
    last call on record; its answer there strips to the empty string.  A
    model that raises, or that gives no text, does not lead to this
    message. *)
Theorem translation_to_english_failed_only_for_blank_answer
    w fuel path lang s s' :
  process_audio w fuel path lang s
  = (Val (error_response (lit "Translation to English failed")), s') ->
  exists text onto answer s3,
    transcribe_audio w fuel (uuid4 w (tick s)) (s3_uri w s) lang
      (at_transcribe w s) = (Val (PStr text), s3)
    /\ s' = advance 2 [Enter Correct; OpenOntology;
                       Generate (build_prompt onto text lang)] s3
    /\ since s s'
       = since s s3 ++ [Enter Correct; OpenOntology;
                        Generate (build_prompt onto text lang)]
    /\ read_ontology w (tick s3) = inr onto
    /\ generate_content w (S (tick s3)) (build_prompt onto text lang)
       = inr (Some answer)
    /\ strip answer = [].
Proof.
  intros Hrun.
  destruct (process_audio_run w fuel path lang s)
    as (r & s0 & called & Hrun0 & Hkind).
  rewrite Hrun in Hrun0. injection Hrun0 as <- <-.
  assert (Hvu : (validate_wav_file path s).1 = Val true
                /\ (upload_to_s3 w path (bucket_name w) (object_key w s)
                      (at_upload w s)).1 = Val true).
  { inversion Hkind as [r1 Hv|n evs Hv Hu Hst|n evs r1 Hv Hu Hst Hr
                       |n evs Hv Hu Hst|n evs src eng Hv Hu Hst Hne];
      subst; try done.
    destruct ((validate_wav_file path s).1) as [[|]|e|]; try done;
      other_response Hv. }
  destruct Hvu as [Hv Hu].
  rewrite (process_audio_after_upload w fuel path lang s Hv Hu) in Hrun.
  destruct (transcribe_audio_begins w fuel (uuid4 w (tick s)) (s3_uri w s)
              lang (at_transcribe w s)) as (r3 & n3 & evs3 & Htr).
  rewrite Htr in Hrun.
  set (s3 := advance n3
               (Enter Transcribe
                :: StartJob (uuid4 w (tick s)) (s3_uri w s) lang :: evs3)
               (at_transcribe w s)) in *.
  destruct r3 as [v|e|]; [| |done].
  2:{ apply (f_equal fst) in Hrun. other_response Hrun. }
  unfold after_transcription in Hrun.
  destruct (usable_text v) as [e|[text|]] eqn:Husable.
  { apply (f_equal fst) in Hrun. other_response Hrun. }
  2:{ apply (f_equal fst) in Hrun. other_response Hrun. }
  apply usable_text_Some in Husable. subst v.
  destruct (correct_and_translate_spec w text lang s3)
    as (eng & m & evs & Hc & _ & Hcase).
  rewrite Hc in Hrun.
  destruct (bool_decide_reflect (eng = [])) as [->|Hne];
    [|apply (f_equal fst) in Hrun; other_response Hrun].
  destruct (read_ontology w (tick s3)) as [e|onto] eqn:Honto.
  { destruct Hcase as [Hm _]. other_response Hm. }
  cbv zeta in Hcase. destruct Hcase as [-> Hcase].
  destruct (generate_content w (S (tick s3)) (build_prompt onto text lang))
    as [e|[answer|]] eqn:Hg; [other_response Hcase| |other_response Hcase].
  assert (Hm : m = 2%nat).
  { unfold correct_and_translate in Hc. revert Hc. run.
    rewrite Honto. run. rewrite Hg. run.
    intros [= _ Ht _]. lia. }
  subst m. injection Hrun as <-.
  exists text, onto, answer, s3.
  split; [done|]. split; [done|]. split; [|done].
  apply since_extends.
  assert (Hs3 : trace s3 = trace s ++ since s s3).
  { unfold since, s3, at_transcribe, started, advance; cbn [trace].
    rewrite <- app_assoc. by rewrite drop_app_length. }
  cbn [advance trace]. rewrite Hs3 at 1. by rewrite <- app_assoc.
Qed.

Lemma translation_to_english_failed_only_for_blank_answer_witness :
  let w := Scenario.answering (inr (Some (lit "  "))) in
  exists text onto answer s3,
    transcribe_audio w 5 (uuid4 w 0) (s3_uri w Demo.empty_wav) (lit "ta-IN")
      (at_transcribe w Demo.empty_wav) = (Val (PStr text), s3)
    /\ (process_audio w 5 output_file (lit "ta-IN") Demo.empty_wav).2
       = advance 2 [Enter Correct; OpenOntology;
                    Generate (build_prompt onto text (lit "ta-IN"))] s3
    /\ since Demo.empty_wav
         (process_audio w 5 output_file (lit "ta-IN") Demo.empty_wav).2
       = since Demo.empty_wav s3
         ++ [Enter Correct; OpenOntology;
             Generate (build_prompt onto text (lit "ta-IN"))]
    /\ read_ontology w (tick s3) = inr onto
    /\ generate_content w (S (tick s3))
         (build_prompt onto text (lit "ta-IN")) = inr (Some answer)
    /\ strip answer = [].
Proof.
  intros w.
  apply (translation_to_english_failed_only_for_blank_answer w 5 output_file
           (lit "ta-IN") Demo.empty_wav).
  vm_compute. reflexivity.
Defined.

(** X15.  [/translate-to-language] answers ["Translation failed"] only
    when the body names a target language, the session has a text, that
    text was posted for that target at the tick of the request, and the
    translation service answered it with status 200 and a first
    translation that is empty (or another falsy value).  A refused request
    (another status, or an exception) does not lead to this message. *)
Theorem translation_failed_only_for_empty_translation w body s s' :
  translate_to_language w body s
  = (Val (error_response (lit "Translation failed")), s') ->
  exists data target text response payload translated,
    body = inr data
    /\ get_method data (lit "target_language") = inr target
    /\ truthy target = true
    /\ current_english_text s = Some text /\ text <> []
    /\ s' = advance 1 [Enter Translate; Post text target] s
    /\ requests_post w (tick s) text target = inr response
    /\ status_code response = 200
    /\ json response = inr payload
    /\ first_translation payload = inr translated
    /\ truthy translated = false.
Proof.
  unfold translate_to_language. run.
  destruct body as [e|data]; run.
  { intros Hm. apply (f_equal fst) in Hm. other_response Hm. }
  destruct (get_method data (lit "target_language")) as [e|target] eqn:Hget;
    run.
  { intros Hm. apply (f_equal fst) in Hm. other_response Hm. }
  destruct (current_english_text s) as [[|c text]|] eqn:Htext; run;
    try (intros Hm; apply (f_equal fst) in Hm; other_response Hm).
  destruct (truthy target) eqn:Htarget; run;
    try (intros Hm; apply (f_equal fst) in Hm; other_response Hm).
  rewrite translate_to_target_language_eq.
  destruct (truthy (translation_of _)) eqn:Htruthy; run.
  { destruct (table_get (PStr <$> SUPPORTED_OUTPUT_LANGUAGES) target target)
      as [e|name]; run; intros Hm; apply (f_equal fst) in Hm;
      other_response Hm. }
  intros [= <-].
  unfold translation_of in Htruthy.
  destruct (requests_post w (tick s) (c :: text) target)
    as [e|response] eqn:Hpost; [other_response Htruthy|].
  destruct (Z.eqb_spec (status_code response) 200) as [Hstatus|Hstatus];
    [|other_response Htruthy].
  destruct (json response) as [e|payload] eqn:Hjson;
    [other_response Htruthy|].
  destruct (first_translation payload) as [e|translated] eqn:Hfirst;
    [other_response Htruthy|].
  by exists data, target, (c :: text), response, payload, translated.
Qed.

Lemma translation_failed_only_for_empty_translation_witness :
  let w := Scenario.translating
             (inr (HttpResponse 200 (inr (Demo.translation [])))) in
  let s := Scenario.with_text (lit "Water the plants.") in
  exists data target text response payload translated,
    Demo.to_hindi = inr data
    /\ get_method data (lit "target_language") = inr target
    /\ truthy target = true
    /\ current_english_text s = Some text /\ text <> []
    /\ (translate_to_language w Demo.to_hindi s).2
       = advance 1 [Enter Translate; Post text target] s
    /\ requests_post w (tick s) text target = inr response
    /\ status_code response = 200
    /\ json response = inr payload
    /\ first_translation payload = inr translated
    /\ truthy translated = false.
Proof.
  intros w s.
  apply (translation_failed_only_for_empty_translation w Demo.to_hindi s).
  vm_compute. reflexivity.
Defined.

(** X16.  The object [process_audio] uploads is the one it asks to be
    transcribed.  Once the file is validated and uploaded, the session id
    is the UUID drawn for the run, the object was put in the configured
    bucket under the key [<uuid>.wav], and the job started next is named
    by the UUID and reads [s3://<bucket>/<uuid>.wav]. *)
Theorem uploaded_object_is_the_one_transcribed w fuel path lang s :
  let sid := uuid4 w (tick s) in
  let key := sid ++ lit ".wav" in
  let run := process_audio w fuel path lang s in
  (validate_wav_file path s).1 = Val true ->
  (upload_to_s3 w path (bucket_name w) key (at_upload w s)).1 = Val true ->
  current_session_id run.2 = Some sid
  /\ exists rest,
       since s run.2
       = Enter Validate :: Enter Upload :: PutObject (bucket_name w) key
         :: Enter Transcribe
         :: StartJob sid
              (lit "s3://" ++ fmt_opt (bucket_name w) ++ lit "/" ++ key) lang
         :: rest.
Proof.
  intros sid key run Hv Hu. subst run.
  rewrite (process_audio_after_upload w fuel path lang s Hv Hu).
  destruct (transcribe_audio_begins w fuel sid (s3_uri w s) lang
              (at_transcribe w s)) as (r & n & evs & Hrun).
  fold sid. rewrite Hrun.
  set (s3 := advance n
               (Enter Transcribe :: StartJob sid (s3_uri w s) lang :: evs)
               (at_transcribe w s)).
  assert (Hs3 : trace s3
            = trace s
              ++ Enter Validate :: Enter Upload
                 :: PutObject (bucket_name w) key
                 :: Enter Transcribe
                 :: StartJob sid
                      (lit "s3://" ++ fmt_opt (bucket_name w) ++ lit "/" ++ key)
                      lang
                 :: evs).
  { unfold s3, at_transcribe, started, advance; cbn [trace].
    rewrite <- app_assoc. reflexivity. }
  assert (Hid : current_session_id s3 = Some sid) by reflexivity.
  destruct r as [v|e|]; cbn [fst snd];
    [|split; [done|eexists; by apply since_extends]..].
  unfold after_transcription.
  destruct (usable_text v) as [e|[text|]]; cbn [fst snd];
    [split; [done|eexists; by apply since_extends]| |
     split; [done|eexists; by apply since_extends]].
  destruct (correct_and_translate_spec w text lang s3)
    as (eng & m & evs4 & Hc & _ & _).
  rewrite Hc.
  assert (Hs4 : trace (advance m (Enter Correct :: evs4) s3)
            = trace s
              ++ Enter Validate :: Enter Upload
                 :: PutObject (bucket_name w) key
                 :: Enter Transcribe
                 :: StartJob sid
                      (lit "s3://" ++ fmt_opt (bucket_name w) ++ lit "/" ++ key)
                      lang
                 :: evs ++ Enter Correct :: evs4).
  { cbn [trace advance]. rewrite Hs3, <- app_assoc. reflexivity. }
  destruct (bool_decide (eng = [])); cbn [fst snd];
    (split; [done|eexists; by apply since_extends]).
Qed.

Lemma uploaded_object_is_the_one_transcribed_witness :
  current_session_id
    (process_audio Demo.fair 3 output_file (lit "ta-IN") Demo.empty_wav).2
  = Some (lit "6fa459ea-ee8a-3ca4-894e-db77e160355e").
Proof.
  apply (uploaded_object_is_the_one_transcribed Demo.fair 3 output_file
           (lit "ta-IN") Demo.empty_wav); vm_compute; reflexivity.
Defined.

(** X17.  [/stop-recording] clears [is_recording] and keeps
    [audio_frames]: whatever becomes of the pipeline, after the request the
    flag is off, the frames are those of before, so that a second request
    would write the same recording, and the file at
    [uploads/recorded_audio.wav] is the one written from them. *)
Theorem stop_recording_keeps_the_frames w fuel lang s :
  let s' := (stop_recording w fuel lang s).2 in
  is_recording s' = false
  /\ audio_frames s' = audio_frames s
  /\ recording s' = recording s
  /\ files s' !! output_file = Some (recording s).2.
Proof.
  intros s'. subst s'. rewrite stop_recording_eq.
  assert (Hgoal : forall s1,
            files s1 = files (recorded s) ->
            audio_frames s1 = audio_frames (recorded s) ->
            is_recording s1 = is_recording (recorded s) ->
            is_recording s1 = false
            /\ audio_frames s1 = audio_frames s
            /\ recording s1 = recording s
            /\ files s1 !! output_file = Some (recording s).2).
  { intros s1 Hf Ha Hr. rewrite Hr, Ha. split; [done|]. split; [done|].
    split; [unfold recording; by rewrite Ha|].
    rewrite Hf. unfold recorded; cbn [files]. apply lookup_insert_eq. }
  destruct ((recording s).1) as [e|]; cbn [snd].
  - by apply Hgoal.
  - destruct (process_audio_run w fuel output_file
                (default (lit "te-IN") lang) (recorded s))
      as (r & s1 & called & Hrun & Hkind).
    rewrite Hrun. cbn [snd].
    destruct (run_kind_frame _ _ _ _ _ _ _ _ Hkind) as (Hf & Ha & Hr & _).
    by apply Hgoal.
Qed.


(** ** [/translate-to-language] and [/text-to-speech] *)

(** X18.  A refused translation is reported as a success.  When the
    session has a text, the body names a target language, and the
    translation service raises or answers with a status other than 200,
    [/translate-to-language] answers with status "success" and a
    [translated_text] that begins with ["Error: "]. *)
Theorem failed_translation_request_is_reported_as_success
    w data target text s :
  get_method data (lit "target_language") = inr (PStr target) ->
  target <> [] ->
  current_english_text s = Some text ->
  text <> [] ->
  match requests_post w (tick s) text (PStr target) with
  | inl _ => True
  | inr response => status_code response <> 200
  end ->
  exists message,
    translate_to_language w (inr data) s
    = (Val (translated_response (PStr message)
              (default target (SUPPORTED_OUTPUT_LANGUAGES !! target))),
       advance 1 [Enter Translate; Post text (PStr target)] s)
    /\ startswith (lit "Error: ") message = true.
Proof.
  intros Hget Htarget Htext Hne Hpost.
  rewrite (translate_to_language_eq w data target text s Hget Htarget Htext Hne).
  cbv zeta. unfold translation_of.
  destruct (requests_post w (tick s) text (PStr target)) as [e|response].
  - exists (lit "Error: " ++ exc_msg e). split; [|apply startswith_app].
    replace (truthy (PStr (lit "Error: " ++ exc_msg e))) with true; [done|].
    symmetry. apply truthy_PStr. by eval_closed (lit "Error: ").
  - apply Z.eqb_neq in Hpost. rewrite Hpost.
    by exists (lit "Error: Translation failed.").
Qed.

Lemma failed_translation_request_is_reported_as_success_witness :
  exists message,
    translate_to_language Demo.failing Demo.to_hindi
      (Scenario.with_text (lit "Water the plants."))
    = (Val (translated_response (PStr message) (lit "Hindi")),
       advance 1 [Enter Translate;
                  Post (lit "Water the plants.") (PStr (lit "hi"))]
         (Scenario.with_text (lit "Water the plants.")))
    /\ startswith (lit "Error: ") message = true.
Proof.
  apply (failed_translation_request_is_reported_as_success Demo.failing
           (PDict [ (lit "target_language", PStr (lit "hi")) ]) (lit "hi")
           (lit "Water the plants.")
           (Scenario.with_text (lit "Water the plants.")));
    [reflexivity|done|reflexivity|done|vm_compute; discriminate].
Defined.

(** X19.  When the session has a text, the body names a target language
    and the translation service answers 200 with a non-empty first
    translation, [/translate-to-language] posts the session text once and
    answers with status "success", that translation, and as
    [target_language] the name of the language in
    [SUPPORTED_OUTPUT_LANGUAGES], or the code as given when the table does
    not have it. *)
Theorem translation_is_returned_with_the_language_name
    w data target text body translated s :
  get_method data (lit "target_language") = inr (PStr target) ->
  target <> [] ->
  current_english_text s = Some text ->
  text <> [] ->
  requests_post w (tick s) text (PStr target)
  = inr (HttpResponse 200 (inr body)) ->
  first_translation body = inr (PStr translated) ->
  translated <> [] ->
  translate_to_language w (inr data) s
  = (Val (translated_response (PStr translated)
            (default target (SUPPORTED_OUTPUT_LANGUAGES !! target))),
     advance 1 [Enter Translate; Post text (PStr target)] s).
Proof.
  intros Hget Htarget Htext Hne Hpost Hfirst Htr.
  rewrite (translate_to_language_eq w data target text s Hget Htarget Htext Hne).
  cbv zeta. rewrite Hpost. unfold translation_of. cbn [status_code json].
  rewrite Hfirst. change (200 =? 200) with true. cbv iota.
  apply truthy_PStr in Htr. by rewrite Htr.
Qed.

Lemma translation_is_returned_with_the_language_name_witness :
  translate_to_language Demo.fair Demo.to_hindi
    (Scenario.with_text (lit "Water the plants."))
  = (Val (translated_response (PStr (lit "namaste")) (lit "Hindi")),
     advance 1 [Enter Translate;
                Post (lit "Water the plants.") (PStr (lit "hi"))]
       (Scenario.with_text (lit "Water the plants."))).
Proof.
  apply (translation_is_returned_with_the_language_name Demo.fair
           (PDict [ (lit "target_language", PStr (lit "hi")) ]) (lit "hi")
           (lit "Water the plants.") (Demo.translation (lit "namaste"))
           (lit "namaste") (Scenario.with_text (lit "Water the plants.")));
    [reflexivity|done|reflexivity|done|reflexivity|reflexivity|done].
Defined.

(** X20.  [/translate-to-language] answers ["No target language
    specified"] exactly when the body is an object whose
    ["target_language"] is absent or falsy and the session has a non-empty
    text; without a session text the other message takes precedence.  In
    that case nothing is posted and the state is unchanged. *)
Theorem no_target_language_reported_iff w body s :
  ((translate_to_language w body s).1
   = Val (error_response (lit "No target language specified"))
   <-> exists data target text,
         body = inr data
         /\ get_method data (lit "target_language") = inr target
         /\ truthy target = false
         /\ current_english_text s = Some text /\ text <> [])
  /\ ((translate_to_language w body s).1
      = Val (error_response (lit "No target language specified")) ->
      (translate_to_language w body s).2 = s).
Proof.
  assert (Hiff :
    (translate_to_language w body s).1
    = Val (error_response (lit "No target language specified"))
    <-> exists data target text,
          body = inr data
          /\ get_method data (lit "target_language") = inr target
          /\ truthy target = false
          /\ current_english_text s = Some text /\ text <> []);
    [|split; [exact Hiff|];
      intros (data & target & text & -> & Hget & Htarget & Htext & Hne)%Hiff;
      unfold translate_to_language; run; rewrite Hget; run; rewrite Htext;
      destruct text; [done|]; rewrite Htarget; by run].
  unfold translate_to_language. run. split.
  - destruct body as [e|data]; run; [intros H; other_response H|].
    destruct (get_method data (lit "target_language")) as [e|target] eqn:Hget;
      run; [intros H; other_response H|].
    destruct (current_english_text s) as [[|c text]|] eqn:Htext; run;
      try (intros H; other_response H).
    destruct (truthy target) eqn:Htarget; run.
    + rewrite translate_to_target_language_eq.
      destruct (truthy (translation_of _)); run; [|intros H; other_response H].
      destruct (table_get _ target target); run; intros H; other_response H.
    + intros _. by exists data, target, (c :: text).
  - intros (data & target & text & -> & Hget & Htarget & Htext & Hne). run.
    rewrite Hget. run. rewrite Htext. destruct text; [done|].
    rewrite Htarget. run. done.
Qed.

Section Speech.
Context (w : World).

Lemma audio_url_path u :
  lit "/static/audio/" ++ lit "output_" ++ u ++ lit ".wav"
  = lit "/" ++ path_join AUDIO_OUTPUT_FOLDER (lit "output_" ++ u ++ lit ".wav").
Proof.
  unfold path_join, AUDIO_OUTPUT_FOLDER.
  eval_closed (lit "output_"). eval_closed (lit "/static/audio/").
  eval_closed (lit "static/audio"). eval_closed (lit "/").
  reflexivity.
Qed.

Lemma text_to_speech_at text target s1 s2 :
  tick s1 = tick s2 ->
  exists r n evs,
    text_to_speech w text target s1
    = (Val r, advance n (Enter Synthesize :: evs) s1)
    /\ text_to_speech w text target s2
      = (Val r, advance n (Enter Synthesize :: evs) s2).
Proof.
  intros Htick. unfold text_to_speech. run. rewrite <- Htick.
  destruct (speech_config w (tick s1)) as [e|]; run.
  { eexists _, 1%nat, _. split; f_equal; state_eq. }
  destruct (table_get AZURE_TTS_VOICES target (lit "en-US-Aria"))
    as [e|voice]; run.
  { eexists _, 1%nat, _. split; f_equal; state_eq. }
  match goal with
  | |- context [speak_text w ?t ?v ?p ?x] =>
      destruct (speak_text w t v p x) as [e|[| |]]; run
  end;
    (eexists _, 3%nat, _; split; f_equal; state_eq).
Qed.

End Speech.

(** X21.  The URL [/text-to-speech] returns points at the file the
    synthesizer wrote.  Whenever the request answers with status "success"
    and an [audio_url], the synthesizer was called once, for the text of
    the body and the voice of its target language, it completed, and the
    URL is ["/"] followed by the path it was given for its output. *)
Theorem audio_url_is_the_synthesized_file w body s url s' :
  text_to_speech_route w body s = (Val (audio_response url), s') ->
  exists data text target path,
    body = inr data
    /\ get_method data (lit "text") = inr text
    /\ get_method data (lit "target_language") = inr target
    /\ since s s' = [Enter Synthesize; Speak (voice_for target) path text]
    /\ speak_text w (S (S (tick s))) (voice_for target) path text
       = inr SynthesizingAudioCompleted
    /\ url = lit "/" ++ path.
Proof.
  unfold text_to_speech_route. run.
  destruct body as [e|data]; run;
    [intros H; apply (f_equal fst) in H; other_response H|].
  destruct (get_method data (lit "text")) as [e|text] eqn:Htext; run;
    [intros H; apply (f_equal fst) in H; other_response H|].
  destruct (get_method data (lit "target_language")) as [e|target]
    eqn:Htarget; run;
    [intros H; apply (f_equal fst) in H; other_response H|].
  destruct (negb (truthy text) || negb (truthy target)); run;
    [intros H; apply (f_equal fst) in H; other_response H|].
  destruct (text_to_speech_spec w text target s)
    as (r & n & evs & Hr & _ & _ & Hcase).
  rewrite Hr.
  destruct r as [[|c u]|]; run;
    try (intros H; apply (f_equal fst) in H; other_response H).
  intros [= <- <-]. rewrite since_advance.
  destruct (speech_config w (tick s)); [by destruct Hcase|].
  destruct (table_get AZURE_TTS_VOICES target (lit "en-US-Aria"))
    as [e|voice] eqn:Hvoice; [by destruct Hcase|].
  cbv zeta in Hcase. destruct Hcase as [-> Hcase].
  assert (Hv : voice = voice_for target).
  { unfold table_get in Hvoice. unfold voice_for.
    destruct target; congruence. }
  subst voice.
  destruct (speak_text _ _ _ _ _) as [e|[| |]] eqn:Hspeak; try done.
  apply (inj Some) in Hcase. rename Hcase into Hurl.
  eexists data, text, target, _.
  repeat (split; [done|]). rewrite Hurl. apply audio_url_path.
Qed.

Lemma audio_url_is_the_synthesized_file_witness :
  exists data text target path,
    Demo.say_hello = inr data
    /\ get_method data (lit "text") = inr text
    /\ get_method data (lit "target_language") = inr target
    /\ since initial_state
         (text_to_speech_route Demo.fair Demo.say_hello initial_state).2
       = [Enter Synthesize; Speak (voice_for target) path text]
    /\ speak_text Demo.fair 2 (voice_for target) path text
       = inr SynthesizingAudioCompleted
    /\ lit "/static/audio/output_6fa459ea-ee8a-3ca4-894e-db77e160355e.wav"
       = lit "/" ++ path.
Proof.
  apply (audio_url_is_the_synthesized_file Demo.fair Demo.say_hello
           initial_state).
  vm_compute. reflexivity.
Defined.

(** X22.  [/text-to-speech] does not depend on the session: in two
    states at the same tick it gives the same answer and makes the same
    calls, whatever the session text, the session id, the frames and the
    files are. *)
Theorem text_to_speech_needs_no_session w body s1 s2 :
  tick s1 = tick s2 ->
  (text_to_speech_route w body s1).1 = (text_to_speech_route w body s2).1
  /\ since s1 (text_to_speech_route w body s1).2
     = since s2 (text_to_speech_route w body s2).2.
Proof.
  intros Htick. unfold text_to_speech_route. run.
  destruct body as [e|data]; run.
  { unfold since. by rewrite !drop_all. }
  destruct (get_method data (lit "text")) as [e|text]; run.
  { unfold since. by rewrite !drop_all. }
  destruct (get_method data (lit "target_language")) as [e|target]; run.
  { unfold since. by rewrite !drop_all. }
  destruct (negb (truthy text) || negb (truthy target)); run.
  { unfold since. by rewrite !drop_all. }
  destruct (text_to_speech_at w text target s1 s2 Htick)
    as (r & n & evs & -> & ->).
  destruct r as [[|c u]|]; run; by rewrite !since_advance.
Qed.

Lemma text_to_speech_needs_no_session_witness :
  (text_to_speech_route Demo.fair Demo.say_hello initial_state).1
  = (text_to_speech_route Demo.fair Demo.say_hello
       (Scenario.with_text (lit "Water the plants."))).1
  /\ since initial_state
       (text_to_speech_route Demo.fair Demo.say_hello initial_state).2
     = since (Scenario.with_text (lit "Water the plants."))
         (text_to_speech_route Demo.fair Demo.say_hello
            (Scenario.with_text (lit "Water the plants."))).2.
Proof.
  apply (text_to_speech_needs_no_session Demo.fair Demo.say_hello
           initial_state (Scenario.with_text (lit "Water the plants."))).
  reflexivity.
Defined.

(** X23.  [/text-to-speech] answers ["Text and target language are
    required"] exactly when the body is an object in which ["text"] or
    ["target_language"] is absent or falsy; the synthesizer is then not
    called and the state is unchanged. *)
Theorem text_and_target_language_required_iff w body s :
  ((text_to_speech_route w body s).1
   = Val (error_response (lit "Text and target language are required"))
   <-> exists data text target,
         body = inr data
         /\ get_method data (lit "text") = inr text
         /\ get_method data (lit "target_language") = inr target
         /\ (truthy text = false \/ truthy target = false))
  /\ ((text_to_speech_route w body s).1
      = Val (error_response (lit "Text and target language are required")) ->
      (text_to_speech_route w body s).2 = s).
Proof.
  assert (Hiff :
    (text_to_speech_route w body s).1
    = Val (error_response (lit "Text and target language are required"))
    <-> exists data text target,
          body = inr data
          /\ get_method data (lit "text") = inr text
          /\ get_method data (lit "target_language") = inr target
          /\ (truthy text = false \/ truthy target = false)).
  { unfold text_to_speech_route. run. split.
    - destruct body as [e|data]; run; [intros H; other_response H|].
      destruct (get_method data (lit "text")) as [e|text] eqn:Hgt; run;
        [intros H; other_response H|].
      destruct (get_method data (lit "target_language")) as [e|target]
        eqn:Hgl; run;
        [intros H; other_response H|].
      destruct (truthy text) eqn:Htext, (truthy target) eqn:Htarget;
        cbn [negb orb]; run;
        try (intros _; exists data, text, target; by auto).
      destruct (text_to_speech_spec w text target s)
        as (r & n & evs & Hr & _).
      rewrite Hr. destruct r as [[|c u]|]; run; intros H; other_response H.
    - intros (data & text & target & -> & Ht & Hl & Hor). run.
      rewrite Ht. run. rewrite Hl. run.
      replace (negb (truthy text) || negb (truthy target)) with true; [done|].
      by destruct Hor as [-> | ->]; [|rewrite orb_true_r]. }
  split; [exact Hiff|].
  intros (data & text & target & -> & Ht & Hl & Hor)%Hiff.
  unfold text_to_speech_route. run. rewrite Ht. run. rewrite Hl. run.
  replace (negb (truthy text) || negb (truthy target)) with true; [done|].
  by destruct Hor as [-> | ->]; [|rewrite orb_true_r].
Qed.


Lemma output_languages_have_voices code name :
  SUPPORTED_OUTPUT_LANGUAGES !! code = Some name -> has_own_voice code = true.
Proof.
  intros Hcode. unfold SUPPORTED_OUTPUT_LANGUAGES in Hcode.
  apply elem_of_list_to_map_2 in Hcode.
  repeat (apply elem_of_cons in Hcode as [[= -> _]|Hcode];
          [vm_compute; reflexivity|]).
  by apply elem_of_nil in Hcode.
Qed.

(** X24.  Every language offered for output has a voice of its own: for
    every code of [SUPPORTED_OUTPUT_LANGUAGES] the table [AZURE_TTS_VOICES]
    has a voice, its name begins with the code and a hyphen, and it is the
    only voice [text_to_speech] hands to the synthesizer for that code; the
    default ["en-US-Aria"] is left to codes outside the table. *)
Theorem every_output_language_has_its_voice w code name text s :
  SUPPORTED_OUTPUT_LANGUAGES !! code = Some name ->
  exists voice,
    AZURE_TTS_VOICES !! code = Some voice
    /\ startswith (code ++ lit "-") voice = true
    /\ forall v, v ∈ voices (since s (text_to_speech w text (PStr code) s).2) ->
                 v = voice.
Proof.
  intros Hcode.
  pose proof (output_languages_have_voices code name Hcode) as Hown.
  unfold has_own_voice in Hown.
  destruct (AZURE_TTS_VOICES !! code) as [voice|] eqn:Hvoice; [|done].
  exists voice. split; [done|]. split; [done|].
  destruct (text_to_speech_spec w text (PStr code) s)
    as (r & n & evs & Hrun & _ & _ & Hcase).
  rewrite Hrun. cbn [snd]. rewrite since_advance.
  unfold table_get in Hcase. rewrite Hvoice in Hcase. cbn [default] in Hcase.
  destruct (speech_config w (tick s)).
  - destruct Hcase as [_ ->]. by intros v ?%elem_of_nil.
  - cbv zeta in Hcase. destruct Hcase as [-> _].
    intros v Hv. cbn in Hv. by apply list_elem_of_singleton in Hv.
Qed.

Lemma every_output_language_has_its_voice_witness :
  exists voice,
    AZURE_TTS_VOICES !! lit "hi" = Some voice
    /\ startswith (lit "hi" ++ lit "-") voice = true
    /\ forall v,
         v ∈ voices (since initial_state
                       (text_to_speech Demo.fair (PStr (lit "Hello"))
                          (PStr (lit "hi")) initial_state).2) ->
         v = voice.
Proof.
  apply (every_output_language_has_its_voice Demo.fair (lit "hi")
           (lit "Hindi") (PStr (lit "Hello")) initial_state).
  reflexivity.
Defined.


(** ** [/start-recording] *)

Ltac run_mic :=
  repeat progress (unfold call, set_audio_frames in *; run).

(** Use an answer of the microphone given for an equal tick. *)
Ltac at_tick H :=
  match type of H with
  | ?f ?m _ = ?v =>
      match goal with
      | |- context [f m ?t] =>
          replace (f m t) with v by (rewrite <- H; f_equal; lia)
      end
  end.

Section RecordingProperties.
Context (mic : Microphone).

Lemma record_loop_delivers chunks : forall fuel s,
  delivers mic (tick s) chunks ->
  is_recording s = true ->
  (length chunks < fuel)%nat ->
  record_loop mic fuel s
  = (Val tt,
     mkState (current_session_id s) (current_english_text s) false
             (audio_frames s ++ chunks) (files s)
             (2 * length chunks + 1 + tick s) (trace s)).
Proof.
  induction chunks as [|data chunks IH]; intros fuel s [Hd Hstop] Hrec Hfuel.
  - destruct fuel as [|fuel]; [cbn in Hfuel; lia|].
    cbn [length] in Hstop. replace (tick s + 2 * 0)%nat with (tick s) in Hstop by lia.
    cbn [record_loop]. run_mic. rewrite Hstop. run_mic.
    rewrite app_nil_r. done.
  - destruct fuel as [|fuel]; [cbn in Hfuel; lia|].
    destruct (Hd 0%nat data eq_refl) as [H0 H1].
    replace (tick s + 2 * 0)%nat with (tick s) in H0, H1 by lia.
    replace (tick s + 1)%nat with (S (tick s)) in H1 by lia.
    cbn [record_loop]. run_mic. rewrite H0. run_mic. rewrite Hrec. run_mic.
    rewrite H1. run_mic.
    rewrite IH; cbn [tick is_recording audio_frames length].
    + f_equal. f_equal; [by rewrite <- app_assoc|lia].
    + split.
      * intros i d Hi. destruct (Hd (S i) d Hi) as [Ha Hb].
        split; [rewrite <- Ha|rewrite <- Hb]; f_equal; lia.
      * rewrite <- Hstop. f_equal. cbn [length]. lia.
    + done.
    + cbn [length] in Hfuel. lia.
Qed.

(** The loop, turn by turn: the frames it appends are the chunks read at
    its own ticks, and it ends at the first test that finds the flag
    cleared, at the first read that raises, or with the fuel. *)
Lemma record_loop_exact : forall fuel s,
  is_recording s = true ->
  let run := record_loop mic fuel s in
  exists chunks,
    (forall i data, chunks !! i = Some data ->
       stop_requested mic (tick s + 2 * i) = false
       /\ stream_read mic (tick s + 2 * i + 1) = inr data)
    /\ audio_frames run.2 = audio_frames s ++ chunks
    /\ current_session_id run.2 = current_session_id s
    /\ current_english_text run.2 = current_english_text s
    /\ files run.2 = files s
    /\ trace run.2 = trace s
    /\ (tick s + 2 * length chunks <= tick run.2)%nat
    /\ match run.1 with
       | Val _ =>
           stop_requested mic (tick s + 2 * length chunks) = true
           /\ is_recording run.2 = false
           /\ tick run.2 = (tick s + 2 * length chunks + 1)%nat
           /\ (length chunks < fuel)%nat
       | Raise e =>
           stop_requested mic (tick s + 2 * length chunks) = false
           /\ stream_read mic (tick s + 2 * length chunks + 1) = inl e
           /\ is_recording run.2 = true
           /\ (length chunks < fuel)%nat
       | Timeout => is_recording run.2 = true /\ length chunks = fuel
       end.
Proof.
  induction fuel as [|fuel IH]; intros s Hrec run; subst run.
  - exists []. cbn [record_loop]. run_mic. rewrite app_nil_r.
    split; [by intros i data Hi|]. repeat (split; [done|]).
    split; [cbn; lia|done].
  - cbn [record_loop]. run_mic.
    destruct (stop_requested mic (tick s)) eqn:Hstop; run_mic.
    { exists []. rewrite app_nil_r. cbn [length].
      replace (tick s + 2 * 0)%nat with (tick s) by lia.
      split; [by intros i data Hi|]. repeat (split; [done|]).
      split; [lia|]. repeat (split; [done|]). split; lia. }
    rewrite Hrec. run_mic.
    destruct (stream_read mic (S (tick s))) as [e|data] eqn:Hread; run_mic.
    { exists []. rewrite app_nil_r. cbn [length].
      replace (tick s + 2 * 0)%nat with (tick s) by lia.
      replace (tick s + 1)%nat with (S (tick s)) by lia.
      split; [by intros i d Hi|]. repeat (split; [done|]).
      split; [lia|]. repeat (split; [done|]). lia. }
    match goal with
    | |- context [record_loop mic fuel ?s1] =>
        destruct (IH s1 eq_refl) as (chunks & Hd & Hframes & H1 & H2 & H3 & H4
                                  & Htick & Hend);
        cbv zeta in *;
        destruct (record_loop mic fuel s1) as [o s2]
    end.
    cbn [fst snd tick audio_frames current_session_id current_english_text
         files trace] in *.
    exists (data :: chunks).
    split.
    { intros [|i] d Hi.
      - injection Hi as <-.
        replace (tick s + 2 * 0)%nat with (tick s) by lia.
        replace (tick s + 1)%nat with (S (tick s)) by lia. done.
      - destruct (Hd i d Hi) as [Ha Hb].
        split; [rewrite <- Ha|rewrite <- Hb]; f_equal; lia. }
    cbn [length].
    replace (tick s + 2 * S (length chunks))%nat
      with (S (S (tick s)) + 2 * length chunks)%nat by lia.
    destruct o as [u|e|]; cbn [fst snd];
      (split; [by rewrite Hframes, <- app_assoc|]);
      repeat (split; [done|]).
    + destruct Hend as (Ha & Hb & Hc & Hlt).
      repeat (split; [done|]). lia.
    + destruct Hend as (Ha & Hb & Hc & Hlt).
      repeat (split; [done|]). lia.
    + destruct Hend as (Ha & Hb). split; [done|lia].
Qed.

End RecordingProperties.

(** X25.  [/start-recording] collects what the stream delivers.  When
    PyAudio and the stream open, the stream delivers [chunks], one for each
    turn of the loop, [is_recording] is cleared by another request right
    after the last of them, and the stream closes, the request answers
    ["Recording stopped successfully."]; [audio_frames] is then exactly
    [chunks], in order, whatever frames were there before, and the flag is
    off. *)
Theorem recording_collects_the_chunks_read mic fuel chunks s :
  py_audio mic (tick s) = None ->
  open_stream mic (S (tick s)) = None ->
  delivers mic (2 + tick s) chunks ->
  (length chunks < fuel)%nat ->
  let n := (2 * length chunks + 3)%nat in
  stop_stream mic (n + tick s) = None ->
  close_stream mic (S n + tick s) = None ->
  terminate mic (S (S n) + tick s) = None ->
  start_recording mic fuel s
  = (Val stopped_response, stopped chunks (2 * length chunks + 6) s).
Proof.
  intros Hpy Hopen Hd Hfuel n Hstop Hclose Hterm. subst n.
  unfold start_recording. run_mic. rewrite Hpy. run_mic. rewrite Hopen. run_mic.
  rewrite (record_loop_delivers mic chunks); [|done..].
  run_mic. at_tick Hstop. run_mic. at_tick Hclose. run_mic.
  at_tick Hterm. run_mic.
  unfold stopped_response, stopped. f_equal. f_equal. lia.
Qed.

Lemma recording_collects_the_chunks_read_witness :
  start_recording (Studio.microphone (inr Studio.sample) 6 None) 5 Studio.earlier
  = (Val stopped_response,
     stopped [Studio.sample; Studio.sample] 10 Studio.earlier).
Proof.
  apply (recording_collects_the_chunks_read
           (Studio.microphone (inr Studio.sample) 6 None) 5
           [Studio.sample; Studio.sample] Studio.earlier);
    try reflexivity; [|cbn; lia].
  split; [|reflexivity].
  intros [|[|i]] data Hi; try done; injection Hi as <-; by split.
Defined.

(** What [start_recording] does around the loop. *)
Lemma start_recording_exact mic fuel s :
  let run := start_recording mic fuel s in
  current_session_id run.2 = current_session_id s
  /\ current_english_text run.2 = current_english_text s
  /\ files run.2 = files s
  /\ trace run.2 = trace s
  /\ (forall i data, audio_frames run.2 !! i = Some data ->
        stop_requested mic (2 + tick s + 2 * i) = false
        /\ stream_read mic (2 + tick s + 2 * i + 1) = inr data
        /\ (2 + tick s + 2 * i + 1 < tick run.2)%nat)
  /\ (is_recording run.2 = false <->
      py_audio mic (tick s) = None
      /\ open_stream mic (S (tick s)) = None
      /\ delivers mic (2 + tick s) (audio_frames run.2)
      /\ (length (audio_frames run.2) < fuel)%nat)
  /\ (run.1 = Val stopped_response -> is_recording run.2 = false).
Proof.
  intros run. subst run. unfold start_recording. run_mic.
  destruct (py_audio mic (tick s)) as [e|] eqn:Hpy; run_mic.
  { split_and!; try done. split; [done|by intros (? & _)]. }
  destruct (open_stream mic (S (tick s))) as [e|] eqn:Hopen; run_mic.
  { split_and!; try done. split; [done|by intros (_ & ? & _)]. }
  match goal with
  | |- context [record_loop mic fuel ?s1] =>
      destruct (record_loop_exact mic fuel s1 eq_refl)
        as (chunks & Hd & Hframes & H1 & H2 & H3 & H4 & Htick & Hend);
      cbv zeta in *;
      destruct (record_loop mic fuel s1) as [o s2]
  end.
  cbn [fst snd tick audio_frames current_session_id current_english_text
       files trace app] in *.
  replace (S (S (tick s))) with (2 + tick s)%nat in * by lia.
  assert (Hreads : forall t', (tick s2 <= t')%nat ->
            forall i data, audio_frames s2 !! i = Some data ->
              stop_requested mic (2 + tick s + 2 * i) = false
              /\ stream_read mic (2 + tick s + 2 * i + 1) = inr data
              /\ (2 + tick s + 2 * i + 1 < t')%nat).
  { intros t' Ht' i data Hi. rewrite Hframes in Hi.
    destruct (Hd i data Hi) as [Ha Hb]. split; [done|]. split; [done|].
    apply lookup_lt_Some in Hi. lia. }
  destruct o as [u|e|]; run_mic.
  - destruct Hend as (Hstop & Hflag & Ht & Hlt).
    assert (Hiff : is_recording s2 = false <->
              @None exc = None /\ @None exc = None
              /\ delivers mic (2 + tick s) (audio_frames s2)
              /\ (length (audio_frames s2) < fuel)%nat).
    { split; [|done]. intros _. rewrite Hframes.
      split; [done|]. split; [done|]. split; [|done]. by split. }
    destruct (stop_stream mic (tick s2)); run_mic.
    { split_and!; try done. apply Hreads; lia. }
    destruct (close_stream mic (S (tick s2))); run_mic.
    { split_and!; try done. apply Hreads; lia. }
    destruct (terminate mic (S (S (tick s2)))); run_mic;
      (split_and!; try done; apply Hreads; lia).
  - destruct Hend as (Hstop & Hread & Hflag & Hlt).
    split_and!; try done.
    + apply Hreads; lia.
    + rewrite Hflag, Hframes. split; [done|].
      intros (_ & _ & [_ Hd'] & _).
      enough (true = false) by done.
      rewrite <- Hd', <- Hstop. f_equal; lia.
  - destruct Hend as (Hflag & Hlen).
    split_and!; try done.
    + apply Hreads; lia.
    + rewrite Hflag, Hframes. split; [done|]. intros (_ & _ & _ & ?). lia.
Qed.

(** X26.  [/start-recording] never clears [is_recording] itself.  The flag
    is off after the request exactly when PyAudio and the stream opened
    and the loop of this request, having read the frames now held, one at
    each of its turns, found the flag cleared by another request at its
    next test, before the fuel ran out; and the request answers
    ["Recording stopped successfully."] only with the flag off.  So a
    recording that ends by an exception of PyAudio, of the opening or of a
    read leaves the flag on, whatever is requested afterwards. *)
Theorem start_recording_never_clears_the_flag mic fuel s :
  let run := start_recording mic fuel s in
  (is_recording run.2 = false <->
   py_audio mic (tick s) = None
   /\ open_stream mic (S (tick s)) = None
   /\ delivers mic (2 + tick s) (audio_frames run.2)
   /\ (length (audio_frames run.2) < fuel)%nat)
  /\ (run.1 = Val stopped_response -> is_recording run.2 = false).
Proof.
  intros run. subst run.
  destruct (start_recording_exact mic fuel s) as (_ & _ & _ & _ & _ & H).
  exact H.
Qed.

